(** * Address codec: script classification, base conversion and
      address encoding / decoding.

    A shallow embedding of the Bitcoin address codec of the repository
    (the header that defines [Solver], [ConvertBits], [ExtractDestination],
    [DecodeDestination] and [IsValid]) together with the properties the
    specification states about it.

    Conventions.
    - A byte ([unsigned char]) is a [Z] in [0, 256); a byte vector is a
      [list Z].  [is_bytes] states the range.
    - [std::string] is [string].
    - Output parameters are threaded explicitly: a function that appends to
      a vector takes the vector's value on entry and returns its value on
      exit. *)

From Stdlib Require Import ZArith Bool Lia String Ascii List DecimalString.
Import ListNotations.
Local Open Scope Z_scope.

(* ================================================================= *)
(** ** Bytes and machine integers *)

Definition is_byte (b : Z) : Prop := 0 <= b < 256.
Definition is_bytes (l : list Z) : Prop := Forall is_byte l.

(** The same as a test. *)
Definition bytesb (l : list Z) : bool :=
  forallb (fun b => (0 <=? b) && (b <? 256)) l.

(** Truncation to [unsigned char]. *)
Definition to_uchar (z : Z) : Z := z mod 256.

(** [size_t] arithmetic wraps modulo [2^SIZE_T_BITS]; the contracts are
    built for 32-bit WebAssembly.  No value below reaches [2^24]. *)
Definition SIZE_T_BITS : Z := 32.
Definition size_t (z : Z) : Z := z mod 2 ^ SIZE_T_BITS.

(* ================================================================= *)
(** ** Base conversion: [ConvertBits] *)

Module Bits.

(** State of the conversion loop: the accumulator, the count of buffered
    bits and the symbols handed to the output sink so far. *)
Record state := mk { acc : Z; bits : Z; out : list Z }.

Definition init : state := mk 0 0 [].

Definition maxv (tobits : Z) : Z := Z.shiftl 1 tobits - 1.
Definition max_acc (frombits tobits : Z) : Z :=
  Z.shiftl 1 (frombits + tobits - 1) - 1.

(** The inner loop [while (bits >= tobits) { bits -= tobits; outfn(...) }].
    It runs at most [bits] times when [tobits >= 1]; [fuel] bounds it. *)
Fixpoint drain (fuel : nat) (tobits : Z) (st : state) : state :=
  match fuel with
  | O => st
  | S k =>
      if tobits <=? bits st then
        let b := size_t (bits st - tobits) in
        drain k tobits
          (mk (acc st) b (out st ++ [Z.land (Z.shiftr (acc st) b) (maxv tobits)]))
      else st
  end.

(** One iteration of the outer loop, consuming the symbol [x]. *)
Definition step (frombits tobits : Z) (st : state) (x : Z) : state :=
  let a := Z.land (Z.lor (size_t (Z.shiftl (acc st) frombits)) x)
                  (max_acc frombits tobits) in
  let b := size_t (bits st + frombits) in
  drain (Z.to_nat b) tobits (mk a b (out st)).

Definition loop (frombits tobits : Z) (input : list Z) : state :=
  fold_left (step frombits tobits) input init.

(** The residual [(acc << (tobits - bits)) & maxv]. *)
Definition residual (tobits : Z) (st : state) : Z :=
  Z.land (size_t (Z.shiftl (acc st) (size_t (tobits - bits st)))) (maxv tobits).

(** [ConvertBits<frombits, tobits, pad>(outfn, it, end)]: the result is the
    returned boolean and the symbols passed to [outfn], in order. *)
Definition ConvertBits (frombits tobits : Z) (pad : bool) (input : list Z)
  : bool * list Z :=
  let st := loop frombits tobits input in
  if pad then
    if bits st =? 0 then (true, out st)
    else (true, out st ++ [residual tobits st])
  else if (frombits <=? bits st) || negb (residual tobits st =? 0)
       then (false, out st)
       else (true, out st).

End Bits.

Abbreviation ConvertBits := Bits.ConvertBits.

(** The algorithm of the specification, section 4.A, followed word by word:
    the accumulator is an unbounded unsigned number and is never masked. *)
Module BitsSpec.

Record state := mk { acc : Z; count : Z; emitted : list Z }.

Definition mask (n : Z) : Z := 2 ^ n - 1.

Fixpoint emit_while (fuel : nat) (to_bits : Z) (st : state) : state :=
  match fuel with
  | O => st
  | S k =>
      if to_bits <=? count st then
        let c := count st - to_bits in
        emit_while k to_bits
          (mk (acc st) c (emitted st ++ [Z.land (Z.shiftr (acc st) c) (mask to_bits)]))
      else st
  end.

Definition consume (from_bits to_bits : Z) (st : state) (x : Z) : state :=
  let c := count st + from_bits in
  emit_while (Z.to_nat c) to_bits
    (mk (Z.lor (Z.shiftl (acc st) from_bits) x) c (emitted st)).

Definition run (from_bits to_bits : Z) (input : list Z) : state :=
  fold_left (consume from_bits to_bits) input (mk 0 0 []).

Definition residual (to_bits : Z) (st : state) : Z :=
  Z.land (Z.shiftl (acc st) (to_bits - count st)) (mask to_bits).

Definition convert_bits (from_bits to_bits : Z) (pad : bool) (input : list Z)
  : option (list Z) :=
  let st := run from_bits to_bits input in
  if pad then
    if 0 <? count st then Some (emitted st ++ [residual to_bits st])
    else Some (emitted st)
  else if (from_bits <=? count st) || negb (residual to_bits st =? 0)
       then None
       else Some (emitted st).

End BitsSpec.

(** Big-endian value of a sequence of [w]-bit symbols. *)
Definition value (w : Z) (l : list Z) : Z :=
  fold_left (fun a x => a * 2 ^ w + x) l 0.

Definition symbols (w : Z) (l : list Z) : Prop :=
  Forall (fun x => 0 <= x < 2 ^ w) l.

(* ================================================================= *)
(** ** Script opcodes and the opcode reader *)

Abbreviation valtype := (list Z) (only parsing).

(** Modelled from the spec: the opcode values of [bitcoin/script/script.hpp]
    (section 3); the three [OP_PUSHDATA] opcodes and [OP_INVALIDOPCODE] have
    their Bitcoin values. *)
Definition OP_0 : Z := 0x00.
Definition OP_PUSHDATA1 : Z := 0x4c.
Definition OP_PUSHDATA2 : Z := 0x4d.
Definition OP_PUSHDATA4 : Z := 0x4e.
Definition OP_RESERVED : Z := 0x50.
Definition OP_1 : Z := 0x51.
Definition OP_16 : Z := 0x60.
Definition OP_RETURN : Z := 0x6a.
Definition OP_DUP : Z := 0x76.
Definition OP_EQUAL : Z := 0x87.
Definition OP_EQUALVERIFY : Z := 0x88.
Definition OP_HASH160 : Z := 0xa9.
Definition OP_CHECKSIG : Z := 0xac.
Definition OP_CHECKMULTISIG : Z := 0xae.
Definition OP_INVALIDOPCODE : Z := 0xff.

(** Modelled from the spec: [DecodeOP_N] of [bitcoin/script/script.hpp]
    (section 4.D); [OP_0] decodes to 0 (section 4.E, rule 2). *)
Definition DecodeOP_N (opcode : Z) : Z :=
  if opcode =? OP_0 then 0 else opcode - (OP_1 - 1).

(** Modelled from the spec: [EncodeOP_N] of [bitcoin/script/script.hpp]
    (section 4.D), the opcode of a small integer. *)
Definition EncodeOP_N (n : Z) : Z :=
  if n =? 0 then OP_0 else OP_1 + n - 1.

(** Modelled from the spec: [EncodePushBytes_N] of
    [bitcoin/script/script.hpp] (section 4.D), the direct-push opcode of a
    payload of [n] bytes, which is the byte [n] itself. *)
Definition EncodePushBytes_N (n : Z) : Z := n.

(** Indexing, [back()] and sub-vectors of a byte vector. *)
Definition at_ (v : list Z) (i : nat) : Z := nth i v 0.
Definition back (v : list Z) : Z := last v 0.
Definition slice (v : list Z) (from to : nat) : list Z :=
  firstn (to - from) (skipn from v).
Definition size {A : Type} (v : list A) : Z := Z.of_nat (length v).

(** Little-endian length field of [n] bytes at the front of [pc]. *)
Fixpoint ReadLE (n : nat) (pc : list Z) : Z :=
  match n, pc with
  | S k, b :: pc' => b + 256 * ReadLE k pc'
  | _, _ => 0
  end.

(** Modelled from the spec: [GetScriptOp] of [bitcoin/script/script.hpp]
    (section 4.D, [read_op]).  It reads one opcode at the iterator; opcodes
    [0x01..0x4b] push that many bytes, [OP_PUSHDATA1/2/4] read a 1/2/4 byte
    little-endian length and push that many bytes.  The iterator is the list
    of bytes that remain; the result is the opcode, the pushed payload and
    the iterator after the read, or [None] when the read runs past the end
    (the opcode out-parameter then holds [OP_INVALIDOPCODE]). *)
Definition GetScriptOp (pc : list Z) : option (Z * valtype * list Z) :=
  match pc with
  | [] => None
  | opcode :: pc1 =>
      if opcode <=? OP_PUSHDATA4 then
        let len_bytes : nat :=
          if opcode <? OP_PUSHDATA1 then 0%nat
          else if opcode =? OP_PUSHDATA1 then 1%nat
          else if opcode =? OP_PUSHDATA2 then 2%nat
          else 4%nat in
        if (length pc1 <? len_bytes)%nat then None
        else
          let nSize := if opcode <? OP_PUSHDATA1 then opcode
                       else ReadLE len_bytes pc1 in
          let pc2 := skipn len_bytes pc1 in
          if size pc2 <? nSize then None
          else Some (opcode, firstn (Z.to_nat nSize) pc2, skipn (Z.to_nat nSize) pc2)
      else Some (opcode, [], pc1)
  end.

(* ================================================================= *)
(** ** Public keys and script templates *)

Module CPubKey.
Definition SIZE : Z := 65.
Definition COMPRESSED_SIZE : Z := 33.

Definition GetLen (chHeader : Z) : Z :=
  if (chHeader =? 2) || (chHeader =? 3) then COMPRESSED_SIZE
  else if (chHeader =? 4) || (chHeader =? 6) || (chHeader =? 7) then SIZE
  else 0.

Definition ValidSize (vch : valtype) : bool :=
  (0 <? size vch) && (GetLen (at_ vch 0) =? size vch).
End CPubKey.

Inductive TxoutType :=
| NONSTANDARD
| PUBKEY
| PUBKEYHASH
| SCRIPTHASH
| MULTISIG
| NULL_DATA
| WITNESS_V0_SCRIPTHASH
| WITNESS_V0_KEYHASH
| WITNESS_V1_TAPROOT
| WITNESS_UNKNOWN.

Definition WITNESS_V0_SCRIPTHASH_SIZE : Z := 32.
Definition WITNESS_V0_KEYHASH_SIZE : Z := 20.
Definition WITNESS_V1_TAPROOT_SIZE : Z := 32.
Definition BECH32_WITNESS_PROG_MAX_LEN : Z := 40.

(** [MatchPayToPubkey]: the boolean result and the value left in [pubkey];
    [None] is the final [return false], which leaves [pubkey] untouched. *)
Definition MatchPayToPubkey (script : list Z) : option (bool * valtype) :=
  if (size script =? CPubKey.SIZE + 2) && (at_ script 0 =? CPubKey.SIZE)
     && (back script =? OP_CHECKSIG)
  then let pubkey := slice script 1 (Z.to_nat CPubKey.SIZE + 1) in
       Some (CPubKey.ValidSize pubkey, pubkey)
  else if (size script =? CPubKey.COMPRESSED_SIZE + 2)
          && (at_ script 0 =? CPubKey.COMPRESSED_SIZE)
          && (back script =? OP_CHECKSIG)
  then let pubkey := slice script 1 (Z.to_nat CPubKey.COMPRESSED_SIZE + 1) in
       Some (CPubKey.ValidSize pubkey, pubkey)
  else None.

Definition MatchPayToPubkeyHash (script : list Z) : option valtype :=
  if (size script =? 25) && (at_ script 0 =? OP_DUP) && (at_ script 1 =? OP_HASH160)
     && (at_ script 2 =? 20) && (at_ script 23 =? OP_EQUALVERIFY)
     && (at_ script 24 =? OP_CHECKSIG)
  then Some (slice script 3 23)
  else None.

Definition IsSmallInteger (opcode : Z) : bool :=
  (OP_1 <=? opcode) && (opcode <=? OP_16).

(** The loop of [MatchMultisig]:
    [while (GetScriptOp(it, end, opcode, &data) && ValidSize(data)) pubkeys.emplace_back(data)].
    Every successful read consumes a byte, so the loop runs at most
    [length it + 1] times.  The result is the opcode, the iterator and the
    keys when the loop exits. *)
Fixpoint multisig_keys (fuel : nat) (it : list Z) (pubkeys : list valtype)
  : Z * list Z * list valtype :=
  match fuel with
  | O => (OP_INVALIDOPCODE, it, pubkeys)
  | S k =>
      match GetScriptOp it with
      | None => (OP_INVALIDOPCODE, it, pubkeys)
      | Some (opcode, data, it') =>
          if CPubKey.ValidSize data
          then multisig_keys k it' (pubkeys ++ [data])
          else (opcode, it', pubkeys)
      end
  end.

(** [MatchMultisig]: [Some (required, pubkeys)] when it returns true. *)
Definition MatchMultisig (script : list Z) : option (Z * list valtype) :=
  if (size script <? 1) || negb (back script =? OP_CHECKMULTISIG) then None
  else
    match GetScriptOp script with
    | None => None
    | Some (opcode, _, it) =>
        if negb (IsSmallInteger opcode) then None
        else
          let required := DecodeOP_N opcode in
          let '(opcode', it', pubkeys) := multisig_keys (S (length it)) it [] in
          if negb (IsSmallInteger opcode') then None
          else
            let keys := DecodeOP_N opcode' in
            if negb (size pubkeys =? keys) || (keys <? required) then None
            else if (length it' =? 1)%nat then Some (required, pubkeys)
            else None
    end.

Definition IsPayToScriptHash (scriptHash : list Z) : bool :=
  (size scriptHash =? 23) && (at_ scriptHash 0 =? OP_HASH160)
  && (at_ scriptHash 1 =? 0x14) && (at_ scriptHash 22 =? OP_EQUAL).

Definition IsPayToWitnessScriptHash (scriptHash : list Z) : bool :=
  (size scriptHash =? 34) && (at_ scriptHash 0 =? OP_0) && (at_ scriptHash 1 =? 0x20).

(** [IsWitnessProgram]: [Some (version, program)] when it returns true. *)
Definition IsWitnessProgram (scriptHash : list Z) : option (Z * list Z) :=
  if (size scriptHash <? 4) || (42 <? size scriptHash) then None
  else if negb (at_ scriptHash 0 =? OP_0)
          && ((at_ scriptHash 0 <? OP_1) || (OP_16 <? at_ scriptHash 0)) then None
  else if size_t (at_ scriptHash 1 + 2) =? size scriptHash
  then Some (DecodeOP_N (at_ scriptHash 0), skipn 2 scriptHash)
  else None.

(** [IsPushOnly(pc, end)]; the loop reads at most [length pc] opcodes. *)
Fixpoint IsPushOnly_loop (fuel : nat) (pc : list Z) : bool :=
  match pc with
  | [] => true
  | _ =>
      match fuel with
      | O => false
      | S k =>
          match GetScriptOp pc with
          | None => false
          | Some (opcode, _, pc') =>
              if OP_16 <? opcode then false else IsPushOnly_loop k pc'
          end
      end
  end.

Definition IsPushOnly (pc : list Z) : bool := IsPushOnly_loop (length pc) pc.

(** [Solver]: the type returned and the value of [vSolutionsRet] on return. *)
Definition Solver (scriptPubKey : list Z) : TxoutType * list valtype :=
  if IsPayToScriptHash scriptPubKey then
    (SCRIPTHASH, [slice scriptPubKey 2 22])
  else
    match IsWitnessProgram scriptPubKey with
    | Some (witnessversion, witnessprogram) =>
        if (witnessversion =? 0) && (size witnessprogram =? WITNESS_V0_KEYHASH_SIZE)
        then (WITNESS_V0_KEYHASH, [witnessprogram])
        else if (witnessversion =? 0) && (size witnessprogram =? WITNESS_V0_SCRIPTHASH_SIZE)
        then (WITNESS_V0_SCRIPTHASH, [witnessprogram])
        else if (witnessversion =? 1) && (size witnessprogram =? WITNESS_V1_TAPROOT_SIZE)
        then (WITNESS_V1_TAPROOT, [witnessprogram])
        else if negb (witnessversion =? 0)
        then (WITNESS_UNKNOWN, [[to_uchar witnessversion]; witnessprogram])
        else (NONSTANDARD, [])
    | None =>
        if (1 <=? size scriptPubKey) && (at_ scriptPubKey 0 =? OP_RETURN)
           && IsPushOnly (skipn 1 scriptPubKey)
        then (NULL_DATA, [])
        else
          match MatchPayToPubkey scriptPubKey with
          | Some (true, data) => (PUBKEY, [data])
          | _ =>
              match MatchPayToPubkeyHash scriptPubKey with
              | Some data => (PUBKEYHASH, [data])
              | None =>
                  match MatchMultisig scriptPubKey with
                  | Some (required, keys) =>
                      (MULTISIG,
                       [[to_uchar required]] ++ keys ++ [[to_uchar (size keys)]])
                  | None => (NONSTANDARD, [])
                  end
              end
          end
    end.

(** *** The script shapes of the specification *)

(** Section 3, public-key validity: a well-sized key is 33 bytes with first
    byte 2 or 3, or 65 bytes with first byte 4, 6 or 7. *)
Definition well_sized (k : list Z) : Prop :=
  (length k = 33%nat /\ (at_ k 0 = 2 \/ at_ k 0 = 3))
  \/ (length k = 65%nat /\ (at_ k 0 = 4 \/ at_ k 0 = 6 \/ at_ k 0 = 7)).

(** The encodings of a push of [data] that [read_op] reads back (4.D). *)
Inductive push_of (data : list Z) : list Z -> Prop :=
| push_direct :
    1 <= size data <= 0x4b ->
    push_of data (size data :: data)
| push_data1 :
    size data < 256 ->
    push_of data (OP_PUSHDATA1 :: size data :: data)
| push_data2 :
    size data < 256 ^ 2 ->
    push_of data (OP_PUSHDATA2 :: size data mod 256 :: size data / 256 :: data)
| push_data4 :
    size data < 256 ^ 4 ->
    push_of data (OP_PUSHDATA4 :: size data mod 256 :: size data / 256 mod 256
                    :: size data / 256 ^ 2 mod 256 :: size data / 256 ^ 3 :: data).

(** Section 4.E, rule 6:
    [<small int m> <push pubkey_1> ... <push pubkey_n> <small int n> OP_CHECKMULTISIG]
    with well-sized keys, [1 <= m <= n <= 16] and no trailing bytes. *)
Definition multisig_shape (script : list Z) (m : Z) (keys : list valtype) : Prop :=
  1 <= m <= size keys /\ size keys <= 16 /\
  Forall well_sized keys /\
  exists pushes,
    Forall2 push_of keys pushes /\
    script = [OP_1 + m - 1] ++ concat pushes
             ++ [OP_1 + size keys - 1; OP_CHECKMULTISIG].

(* ================================================================= *)
(** ** Strings *)

(** A [std::string] is a [string]; its characters are handled through their
    codes. *)
Definition code (c : ascii) : Z := Z.of_N (N_of_ascii c).
Definition chr (z : Z) : ascii := ascii_of_N (Z.to_N z).
Definition codes (s : string) : list Z := map code (list_ascii_of_string s).
Definition text (l : list Z) : string := string_of_list_ascii (map chr l).

(** [std::to_string] of a size. *)
Definition to_string (n : Z) : string :=
  NilZero.string_of_uint (N.to_uint (Z.to_N n)).

Fixpoint map_option {A B : Type} (f : A -> option B) (l : list A) : option (list B) :=
  match l with
  | [] => Some []
  | x :: l' =>
      match f x, map_option f l' with
      | Some y, Some ys => Some (y :: ys)
      | _, _ => None
      end
  end.

(** Index of the first occurrence of [x] in [l]. *)
Fixpoint index_of (x : Z) (l : list Z) : option Z :=
  match l with
  | [] => None
  | y :: l' => if y =? x then Some 0
               else match index_of x l' with
                    | Some i => Some (i + 1)
                    | None => None
                    end
  end.

Definition bytes_eqb (a b : list Z) : bool :=
  if list_eq_dec Z.eq_dec a b then true else false.

(* ================================================================= *)
(** ** SHA-256 *)

(** Modelled from the spec: the hash of Base58Check (section 4.B) is the
    double SHA-256; SHA-256 itself is an external primitive (section 1) and
    is written here after FIPS 180-4. *)
Module SHA256.
Definition w32 (z : Z) : Z := z mod 2 ^ 32.
Definition rotr (n x : Z) : Z := Z.lor (Z.shiftr x n) (w32 (Z.shiftl x (32 - n))).
Definition Ch (x y z : Z) : Z :=
  Z.lxor (Z.land x y) (Z.land (Z.lxor x 0xffffffff) z).
Definition Maj (x y z : Z) : Z :=
  Z.lxor (Z.lxor (Z.land x y) (Z.land x z)) (Z.land y z).
Definition Sigma0 (x : Z) : Z := Z.lxor (Z.lxor (rotr 2 x) (rotr 13 x)) (rotr 22 x).
Definition Sigma1 (x : Z) : Z := Z.lxor (Z.lxor (rotr 6 x) (rotr 11 x)) (rotr 25 x).
Definition sigma0 (x : Z) : Z := Z.lxor (Z.lxor (rotr 7 x) (rotr 18 x)) (Z.shiftr x 3).
Definition sigma1 (x : Z) : Z := Z.lxor (Z.lxor (rotr 17 x) (rotr 19 x)) (Z.shiftr x 10).

(** The first [n] primes, by trial division. *)
Definition is_prime (p : Z) : bool :=
  (2 <=? p) && forallb (fun d => negb (p mod Z.of_nat d =? 0))
                 (seq 2 (Z.to_nat (Z.sqrt p) - 1)).

Definition primes (n : nat) : list Z :=
  firstn n (filter is_prime (map Z.of_nat (seq 2 400))).

(** Integer cube root: the largest [r] below [2^bit] with [r^3 <= n]. *)
Fixpoint cbrt_bits (bit : nat) (n r : Z) : Z :=
  match bit with
  | O => r
  | S k =>
      let r' := r + 2 ^ Z.of_nat k in
      cbrt_bits k n (if r' * r' * r' <=? n then r' else r)
  end.

(** The first 32 bits of the fractional parts of the cube roots of the
    first 64 primes. *)
Definition K : list Z :=
  Eval vm_compute in
    map (fun p => w32 (cbrt_bits 40 (p * 2 ^ 96) 0)) (primes 64).

Record regs := mk { ra : Z; rb : Z; rc : Z; rd : Z; re : Z; rf : Z; rg : Z; rh : Z }.

(** The first 32 bits of the fractional parts of the square roots of the
    first 8 primes. *)
Definition H0 : regs :=
  Eval vm_compute in
    match map (fun p => w32 (Z.sqrt (p * 2 ^ 64))) (primes 8) with
    | [a; b; c; d; e; f; g; h] => mk a b c d e f g h
    | _ => mk 0 0 0 0 0 0 0 0
    end.

(** Padding: a 1 bit, zeros, and the bit length as a 64-bit big-endian. *)
Definition be_bytes (n : nat) (z : Z) : list Z :=
  map (fun i => Z.shiftr z (8 * Z.of_nat i) mod 256) (rev (seq 0 n)).

Definition pad (msg : list Z) : list Z :=
  let l := Z.of_nat (length msg) in
  msg ++ [0x80] ++ repeat 0 (Z.to_nat ((55 - l) mod 64)) ++ be_bytes 8 (8 * l).

Fixpoint words (fuel : nat) (bytes : list Z) : list Z :=
  match fuel, bytes with
  | S k, b0 :: b1 :: b2 :: b3 :: rest =>
      (((b0 * 256 + b1) * 256 + b2) * 256 + b3) :: words k rest
  | _, _ => []
  end.

(** The message schedule, most recent word first. *)
Fixpoint schedule (n : nat) (w : list Z) : list Z :=
  match n with
  | O => w
  | S k =>
      let x := w32 (sigma1 (nth 1 w 0) + nth 6 w 0 + sigma0 (nth 14 w 0) + nth 15 w 0) in
      schedule k (x :: w)
  end.

Definition round (s : regs) (kw : Z * Z) : regs :=
  let t1 := w32 (rh s + Sigma1 (re s) + Ch (re s) (rf s) (rg s) + fst kw + snd kw) in
  let t2 := w32 (Sigma0 (ra s) + Maj (ra s) (rb s) (rc s)) in
  mk (w32 (t1 + t2)) (ra s) (rb s) (rc s) (w32 (rd s + t1)) (re s) (rf s) (rg s).

Definition compress (h : regs) (block : list Z) : regs :=
  let w := rev (schedule 48 (rev (words 16 block))) in
  let s := fold_left round (combine K w) h in
  mk (w32 (ra h + ra s)) (w32 (rb h + rb s)) (w32 (rc h + rc s)) (w32 (rd h + rd s))
     (w32 (re h + re s)) (w32 (rf h + rf s)) (w32 (rg h + rg s)) (w32 (rh h + rh s)).

Fixpoint blocks (fuel : nat) (h : regs) (bytes : list Z) : regs :=
  match fuel, bytes with
  | S k, _ :: _ => blocks k (compress h (firstn 64 bytes)) (skipn 64 bytes)
  | _, _ => h
  end.

Definition digest (h : regs) : list Z :=
  be_bytes 4 (ra h) ++ be_bytes 4 (rb h) ++ be_bytes 4 (rc h) ++ be_bytes 4 (rd h)
  ++ be_bytes 4 (re h) ++ be_bytes 4 (rf h) ++ be_bytes 4 (rg h) ++ be_bytes 4 (rh h).

Definition sha256 (msg : list Z) : list Z :=
  let p := pad msg in digest (blocks (length p) H0 p).
End SHA256.

(** Double SHA-256. *)
Definition Hash (data : list Z) : list Z := SHA256.sha256 (SHA256.sha256 data).

(* ================================================================= *)
(** ** Base58 and Base58Check *)

(** Big-endian digits of a number in a base, and back. *)
Fixpoint to_digits (fuel : nat) (base n : Z) (acc : list Z) : list Z :=
  match fuel with
  | O => acc
  | S k => if n <=? 0 then acc
           else to_digits k base (n / base) (n mod base :: acc)
  end.

Definition digits (base n : Z) : list Z :=
  to_digits (S (Z.to_nat (Z.log2 n))) base n [].

Definition number (base : Z) (ds : list Z) : Z :=
  fold_left (fun a d => a * base + d) ds 0.

(** Number of leading elements of [l] equal to [x]. *)
Fixpoint leading (x : Z) (l : list Z) : nat :=
  match l with
  | y :: l' => if y =? x then S (leading x l') else O
  | [] => O
  end.

(** Modelled from the spec: [EncodeBase58], [DecodeBase58],
    [EncodeBase58Check] and [DecodeBase58Check] of
    [bitcoin/utility/base58.hpp] (section 4.B): big-endian base 58 over the
    alphabet, leading zero bytes as leading ['1'] characters; the check
    variant appends the first four bytes of the double SHA-256.  Decoding
    fails on a character outside the alphabet and on a result longer than
    the maximal length. *)
Definition pszBase58 : list Z :=
  codes "123456789ABCDEFGHJKLMNPQRSTUVWXYZabcdefghijkmnopqrstuvwxyz".

(** Modelled from the spec: [EncodeBase58] (section 4.B). *)
Definition EncodeBase58 (input : list Z) : string :=
  let zeroes := leading 0 input in
  text (repeat (code "1") zeroes
        ++ map (fun d => nth (Z.to_nat d) pszBase58 0)
               (digits 58 (number 256 (skipn zeroes input)))).

(** Modelled from the spec: [DecodeBase58(str, vch, max_ret_len)] (section
    4.B); [None] when it returns false. *)
Definition DecodeBase58 (str : string) (max_ret_len : Z) : option (list Z) :=
  match map_option (fun c => index_of c pszBase58) (codes str) with
  | None => None
  | Some ds =>
      let zeroes := leading 0 ds in
      let vch := repeat 0 zeroes ++ digits 256 (number 58 (skipn zeroes ds)) in
      if max_ret_len <? size vch then None else Some vch
  end.

(** Modelled from the spec: [EncodeBase58Check] (section 4.B). *)
Definition EncodeBase58Check (input : list Z) : string :=
  EncodeBase58 (input ++ firstn 4 (Hash input)).

(** Modelled from the spec: [DecodeBase58Check(str, vch, max_ret_len)]
    (section 4.B): it decodes at most [max_ret_len + 4] bytes, checks the
    four trailing bytes against the hash of the rest and strips them. *)
Definition DecodeBase58Check (str : string) (max_ret_len : Z) : option (list Z) :=
  match DecodeBase58 str (max_ret_len + 4) with
  | None => None
  | Some vch =>
      if size vch <? 4 then None
      else
        let payload := firstn (length vch - 4) vch in
        if bytes_eqb (firstn 4 (Hash payload)) (skipn (length vch - 4) vch)
        then Some payload
        else None
  end.

(* ================================================================= *)
(** ** Bech32 and Bech32m *)

(** Modelled from the spec: [bitcoin/utility/bech32.hpp] (section 4.C and the
    constants of section 6). *)
Module bech32.

Inductive Encoding := INVALID | BECH32 | BECH32M.

Record DecodeResult := mk { encoding : Encoding; hrp : string; data : list Z }.

Definition CHARSET : list Z := codes "qpzry9x8gf2tvdw0s3jn54khce6mua7l".

Definition GEN : list Z :=
  [0x3b6a57b2; 0x26508e6d; 0x1ea119fa; 0x3d4233dd; 0x2a1462b3].

Definition LowerCase (c : Z) : Z :=
  if (code "A" <=? c) && (c <=? code "Z") then c - code "A" + code "a" else c.

(** Modelled from the spec: [bech32::ToLower], ASCII lower-casing
    (section 4.F, step 1). *)
Definition ToLower (str : string) : string := text (map LowerCase (codes str)).

(** The feedback of the checksum: the generators selected by the bits of
    the top five bits [c0]. *)
Definition feedback (c0 : Z) : Z :=
  fold_left Z.lxor
    (map (fun ig => if Z.testbit c0 (Z.of_nat (fst ig)) then snd ig else 0)
         (combine (seq 0 5) GEN)) 0.

Definition PolyMod_step (c v : Z) : Z :=
  Z.lxor (Z.lxor (Z.shiftl (Z.land c 0x1ffffff) 5) v) (feedback (Z.shiftr c 25)).

(** Modelled from the spec: the checksum polynomial over GF(2) with the
    five generators of section 4.C, on a 30-bit state that starts at 1. *)
Definition PolyMod (values : list Z) : Z := fold_left PolyMod_step values 1.

Definition ExpandHRP (hrp : list Z) : list Z :=
  map (fun c => Z.shiftr c 5) hrp ++ [0] ++ map (fun c => Z.land c 31) hrp.

Definition EncodingConstant (encoding : Encoding) : Z :=
  match encoding with
  | BECH32 => 1
  | BECH32M => 0x2bc830a3
  | INVALID => 0
  end.

Definition CreateChecksum (encoding : Encoding) (hrp : list Z) (values : list Z)
  : list Z :=
  let enc := ExpandHRP hrp ++ values ++ repeat 0 6 in
  let m := Z.lxor (PolyMod enc) (EncodingConstant encoding) in
  map (fun i => Z.land (Z.shiftr m (5 * (5 - Z.of_nat i))) 31) (seq 0 6).

Definition VerifyChecksum (hrp : list Z) (values : list Z) : Encoding :=
  let check := PolyMod (ExpandHRP hrp ++ values) in
  if check =? EncodingConstant BECH32 then BECH32
  else if check =? EncodingConstant BECH32M then BECH32M
  else INVALID.

(** Modelled from the spec: [bech32::Encode(encoding, hrp, values)]
    (section 4.C). *)
Definition Encode (encoding : Encoding) (hrp : string) (values : list Z) : string :=
  let h := codes hrp in
  let combined := values ++ CreateChecksum encoding h values in
  text (h ++ [code "1"] ++ map (fun v => nth (Z.to_nat v) CHARSET 0) combined).

(** Index of the last occurrence of [x] in [l]. *)
Fixpoint rfind (x : Z) (l : list Z) : option nat :=
  match l with
  | [] => None
  | y :: l' =>
      match rfind x l' with
      | Some i => Some (S i)
      | None => if y =? x then Some O else None
      end
  end.

Definition is_lower (c : Z) : bool := (code "a" <=? c) && (c <=? code "z").
Definition is_upper (c : Z) : bool := (code "A" <=? c) && (c <=? code "Z").
Definition printable (c : Z) : bool := (33 <=? c) && (c <=? 126).

Definition invalid : DecodeResult := mk INVALID EmptyString [].

(** Modelled from the spec: [bech32::Decode(str)] (section 4.C, and the
    90-character limit of section 5): characters outside [33, 126] and
    mixed case are rejected, the string is lower-cased and split at the
    last ['1'], the human-readable part must be non-empty and the data part
    at least six symbols of the alphabet; the residue of the checksum
    selects the encoding. *)
Definition Decode (str : string) : DecodeResult :=
  let s := codes str in
  if negb (forallb printable s) then invalid
  else if existsb is_lower s && existsb is_upper s then invalid
  else
    let s := map LowerCase s in
    match rfind (code "1") s with
    | None => invalid
    | Some pos =>
        if (90 <? length s)%nat || (pos =? 0)%nat || (length s <? pos + 7)%nat
        then invalid
        else
          let h := firstn pos s in
          match map_option (fun c => index_of c CHARSET) (skipn (S pos) s) with
          | None => invalid
          | Some values =>
              match VerifyChecksum h values with
              | INVALID => invalid
              | result => mk result (text h) (firstn (length values - 6) values)
              end
          end
    end.

End bech32.

(* ================================================================= *)
(** ** Network parameters *)

Module core.
(** Modelled from the spec: [Params] of [bitcoin/core/chain.hpp]
    (sections 3 and 6): the Base58 prefixes by kind and the Bech32
    human-readable part. *)
Inductive base58_type := PUBKEY_ADDRESS | SCRIPT_ADDRESS.

Record Params := mk {
  base58Prefixes : base58_type -> list Z;
  bech32_hrp : string }.
End core.

(* ================================================================= *)
(** ** Script to address: [ExtractDestination] *)

(** The bytes the sink [[&](unsigned char c) { data.push_back(c); }] collects
    from [ConvertBits<frombits, tobits, pad>]. *)
Definition ConvertBits_bytes (frombits tobits : Z) (pad : bool) (input : list Z)
  : bool * list Z :=
  let r := ConvertBits frombits tobits pad input in
  (fst r, map to_uchar (snd r)).

(** The addresses the [MULTISIG] loop pushes:
    [for (i = 1; i < vSolutions.size() - 1; i++)], skipping empty entries. *)
Fixpoint multisig_addresses (params : core.Params) (keys : list valtype)
  : list string :=
  match keys with
  | [] => []
  | k :: keys' =>
      if size k =? 0 then multisig_addresses params keys'
      else EncodeBase58Check (core.base58Prefixes params core.PUBKEY_ADDRESS ++ k)
           :: multisig_addresses params keys'
  end.

(** [ExtractDestination(scriptPubKey, params, addressRet)]: the boolean
    returned and the value of [addressRet] on return, given its value on
    entry. *)
Definition ExtractDestination (scriptPubKey : list Z) (params : core.Params)
  (addressRet : list string) : bool * list string :=
  let '(whichType, vSolutions) := Solver scriptPubKey in
  let sol (i : nat) := nth i vSolutions [] in
  match whichType with
  | PUBKEY =>
      if size (sol 0%nat) =? 0 then (false, addressRet)
      else
        let data := core.base58Prefixes params core.PUBKEY_ADDRESS ++ sol 0%nat in
        (true, addressRet ++ [EncodeBase58Check data])
  | PUBKEYHASH =>
      let data := core.base58Prefixes params core.PUBKEY_ADDRESS
                  ++ firstn 20 (sol 0%nat) in
      (true, addressRet ++ [EncodeBase58Check data])
  | SCRIPTHASH =>
      let data := core.base58Prefixes params core.SCRIPT_ADDRESS
                  ++ firstn 20 (sol 0%nat) in
      (true, addressRet ++ [EncodeBase58Check data])
  | WITNESS_V0_KEYHASH | WITNESS_V0_SCRIPTHASH =>
      let data := [0] ++ snd (ConvertBits_bytes 8 5 true (sol 0%nat)) in
      (true, addressRet ++ [bech32.Encode bech32.BECH32 (core.bech32_hrp params) data])
  | WITNESS_V1_TAPROOT =>
      let data := [1] ++ snd (ConvertBits_bytes 8 5 true (sol 0%nat)) in
      (true, addressRet ++ [bech32.Encode bech32.BECH32M (core.bech32_hrp params) data])
  | WITNESS_UNKNOWN =>
      let version := at_ (sol 0%nat) 0 in
      let length := size (sol 1%nat) in
      if (version <? 1) || (16 <? version) || (length <? 2) || (40 <? length)
      then (false, addressRet)
      else
        let data := [to_uchar version]
                    ++ snd (ConvertBits_bytes 8 5 true
                              (firstn (Z.to_nat length) (sol 1%nat))) in
        (true, addressRet ++ [bech32.Encode bech32.BECH32M (core.bech32_hrp params) data])
  | MULTISIG =>
      (* the entries 1 .. size - 2; [Solver] returns at least two *)
      let keys := firstn (length vSolutions - 2) (skipn 1 vSolutions) in
      (false, addressRet ++ multisig_addresses params keys)
  | NULL_DATA | NONSTANDARD => (false, addressRet)
  end.

(* ================================================================= *)
(** ** Address to script: [DecodeDestination] and [IsValid] *)

(** [v.insert(v.begin() + pos, first, last)]. *)
Definition insert_at (v : list Z) (pos : nat) (xs : list Z) : list Z :=
  firstn pos v ++ xs ++ skipn pos v.

(** [std::equal(prefix.begin(), prefix.end(), data.begin())]; every call is
    guarded by a test that [data] is at least as long as [prefix]. *)
Definition starts_with (prefix data : list Z) : bool :=
  bytes_eqb prefix (firstn (length prefix) data).

Definition is_bech32 (str : string) (params : core.Params) : bool :=
  String.eqb
    (bech32.ToLower (substring 0 (String.length (core.bech32_hrp params)) str))
    (core.bech32_hrp params).

Definition is_bech32_encoding (e : bech32.Encoding) : bool :=
  match e with
  | bech32.BECH32 | bech32.BECH32M => true
  | bech32.INVALID => false
  end.

Definition encoding_eqb (a b : bech32.Encoding) : bool :=
  match a, b with
  | bech32.INVALID, bech32.INVALID
  | bech32.BECH32, bech32.BECH32
  | bech32.BECH32M, bech32.BECH32M => true
  | _, _ => false
  end.

(** The three results of [DecodeDestination]: the boolean returned, the value
    of [script] on return and the value of [error_str] on return. *)
Record decoded := mk_decoded { ok : bool; script_out : list Z; error_str : string }.

Definition fail (script : list Z) (err : string) : decoded :=
  mk_decoded false script err.

(** The witness-program script
    [emplace_back(op); emplace_back(push); insert(begin() + 2, data)]. *)
Definition push_program (script : list Z) (op push : Z) (data : list Z) : list Z :=
  insert_at (script ++ [op] ++ [push]) 2 data.

Definition byte_str (n : Z) : string := if n =? 1 then "byte" else "bytes".

Definition prefix_error (expected got : string) : string :=
  ("Invalid or unsupported prefix for Segwit (Bech32) address (expected "
   ++ expected ++ ", got " ++ got ++ ").")%string.

Definition v0_size_error (n : Z) : string :=
  ("Invalid Bech32 v0 address program size (" ++ to_string n ++ " "
   ++ byte_str n ++ "), per BIP141")%string.

Definition size_error (n : Z) : string :=
  ("Invalid Bech32 address program size (" ++ to_string n ++ " "
   ++ byte_str n ++ ")")%string.

(** [DecodeDestination(str, script, params, error_str)], given the value of
    [script] on entry. *)
Definition DecodeDestination (str : string) (script : list Z) (params : core.Params)
  : decoded :=
  if negb (is_bech32 str params) then
    match DecodeBase58Check str 21 with
    | Some data =>
        let pubkey_prefix := core.base58Prefixes params core.PUBKEY_ADDRESS in
        let script_prefix := core.base58Prefixes params core.SCRIPT_ADDRESS in
        if (size data =? 20 + size pubkey_prefix) && starts_with pubkey_prefix data
        then
          let s := script ++ [OP_DUP] ++ [OP_HASH160] ++ [EncodePushBytes_N 20] in
          let s := insert_at s 3 (skipn (length pubkey_prefix) data) in
          mk_decoded true (s ++ [OP_EQUALVERIFY] ++ [OP_CHECKSIG]) ""
        else if (size data =? 20 + size script_prefix) && starts_with script_prefix data
        then
          let s := script ++ [OP_HASH160] ++ [EncodePushBytes_N 20] in
          let s := insert_at s 2 (skipn (length script_prefix) data) in
          mk_decoded true (s ++ [OP_EQUAL]) ""
        else if ((size script_prefix <=? size data) && starts_with script_prefix data)
                || ((size pubkey_prefix <=? size data) && starts_with pubkey_prefix data)
        then fail script "Invalid length for Base58 address (P2PKH or P2SH)"
        else fail script "Invalid or unsupported Base58-encoded address."
    | None =>
        match DecodeBase58 str 100 with
        | None => fail script "Invalid or unsupported Segwit (Bech32) or Base58 encoding."
        | Some _ => fail script "Invalid checksum or length of Base58 address (P2PKH or P2SH)"
        end
    end
  else
    let dec := bech32.Decode str in
    if is_bech32_encoding (bech32.encoding dec) then
      if (size (bech32.data dec) =? 0) then fail script "Empty Bech32 data section"
      else if negb (String.eqb (bech32.hrp dec) (core.bech32_hrp params)) then
        fail script (prefix_error (core.bech32_hrp params) (bech32.hrp dec))
      else
        let version := at_ (bech32.data dec) 0 in
        if (version =? 0) && negb (encoding_eqb (bech32.encoding dec) bech32.BECH32) then
          fail script "Version 0 witness address must use Bech32 checksum"
        else if negb (version =? 0)
                && negb (encoding_eqb (bech32.encoding dec) bech32.BECH32M) then
          fail script "Version 1+ witness address must use Bech32m checksum"
        else
          let '(converted, data) := ConvertBits_bytes 5 8 false (skipn 1 (bech32.data dec)) in
          if converted then
            if version =? 0 then
              if size data =? 20 then
                mk_decoded true (push_program script OP_0 (EncodePushBytes_N 20) data) ""
              else if size data =? 32 then
                mk_decoded true (push_program script OP_0 (EncodePushBytes_N 32) data) ""
              else
                fail script (v0_size_error (size data))
            else if (version =? 1) && (size data =? WITNESS_V1_TAPROOT_SIZE) then
              mk_decoded true (push_program script OP_1 (EncodePushBytes_N 32) data) ""
            else if 16 <? version then
              fail script "Invalid Bech32 address witness version"
            else if (size data <? 2) || (BECH32_WITNESS_PROG_MAX_LEN <? size data) then
              fail script (size_error (size data))
            else
              mk_decoded true (insert_at (script ++ [EncodeOP_N version]) 1 data) ""
          else fail script "Invalid padding in Bech32 data section"
    else fail script "Invalid address".

(** [IsValid(str, params)]. *)
Definition IsValid (str : string) (params : core.Params) : bool :=
  if (String.length str =? 0)%nat then false
  else if negb (is_bech32 str params) then
    match DecodeBase58Check str 21 with
    | Some data =>
        let pubkey_prefix := core.base58Prefixes params core.PUBKEY_ADDRESS in
        let script_prefix := core.base58Prefixes params core.SCRIPT_ADDRESS in
        if (size data =? 20 + size pubkey_prefix) && starts_with pubkey_prefix data
        then true
        else if (size data =? 20 + size script_prefix) && starts_with script_prefix data
        then true
        else false
    | None => false
    end
  else
    let dec := bech32.Decode str in
    if is_bech32_encoding (bech32.encoding dec) then
      if (size (bech32.data dec) =? 0) then false
      else if negb (String.eqb (bech32.hrp dec) (core.bech32_hrp params)) then false
      else
        let version := at_ (bech32.data dec) 0 in
        if (version =? 0) && negb (encoding_eqb (bech32.encoding dec) bech32.BECH32)
        then false
        else if negb (version =? 0)
                && negb (encoding_eqb (bech32.encoding dec) bech32.BECH32M)
        then false
        else
          let '(converted, data) := ConvertBits_bytes 5 8 false (skipn 1 (bech32.data dec)) in
          if converted then
            if version =? 0 then
              if (size data =? 20) || (size data =? 32) then true else false
            else if (version =? 1) && (size data =? WITNESS_V1_TAPROOT_SIZE) then true
            else if (16 <? version) || (size data <? 2)
                    || (BECH32_WITNESS_PROG_MAX_LEN <? size data) then false
            else true
          else false
    else false.

Definition mainnet : core.Params :=
  core.mk (fun t => match t with
                    | core.PUBKEY_ADDRESS => [0x00]
                    | core.SCRIPT_ADDRESS => [0x05]
                    end) "bc".

(** *** Parameter sets on which addresses round-trip *)

(** A character of a human-readable part: printable and not upper-case. *)
Definition hrp_char (c : Z) : Prop :=
  33 <= c <= 126 /\ ~ (code "A" <= c <= code "Z").

Definition valid_hrp (hrp : string) : Prop :=
  (1 <= String.length hrp <= 30)%nat /\ Forall hrp_char (codes hrp).

Definition standard_params (params : core.Params) : Prop :=
  (exists pk sh,
      core.base58Prefixes params core.PUBKEY_ADDRESS = [pk] /\
      core.base58Prefixes params core.SCRIPT_ADDRESS = [sh] /\
      is_byte pk /\ is_byte sh /\ pk <> sh)
  /\ valid_hrp (core.bech32_hrp params).

(** The kinds of the single-address round trip. *)
Definition Base58_kind (t : TxoutType) : Prop := t = PUBKEYHASH \/ t = SCRIPTHASH.
Definition Bech32_kind (t : TxoutType) : Prop :=
  t = WITNESS_V0_KEYHASH \/ t = WITNESS_V0_SCRIPTHASH \/ t = WITNESS_V1_TAPROOT.

(** *** Example inputs *)

Definition example_hash : list Z :=
  [0x62; 0xe9; 0x07; 0xb1; 0x5c; 0xbf; 0x27; 0xd5; 0x42; 0x53;
   0x99; 0xeb; 0xf6; 0xf0; 0xfb; 0x50; 0xeb; 0xb8; 0x8f; 0x18].

Definition example_p2pkh : list Z :=
  [OP_DUP; OP_HASH160; 20] ++ example_hash ++ [OP_EQUALVERIFY; OP_CHECKSIG].

Definition example_key : list Z := 2 :: repeat 7 32.
Definition example_multisig : list Z := [0x51; 33] ++ example_key ++ [0x51; 0xae].
Definition example_p2pk : list Z := [33] ++ example_key ++ [OP_CHECKSIG].

(** A parameter set with two-byte Base58 prefixes. *)
Definition two_byte_params : core.Params :=
  core.mk (fun t => match t with
                    | core.PUBKEY_ADDRESS => [0x1c; 0xb8]
                    | core.SCRIPT_ADDRESS => [0x1c; 0xbd]
                    end) "bc".

Definition example_p2sh : list Z := [OP_HASH160; 20] ++ example_hash ++ [OP_EQUAL].
Definition example_p2wpkh : list Z := [OP_0; 20] ++ example_hash.
Definition example_p2wsh : list Z :=
  [OP_0; 32] ++ example_hash ++ firstn 12 example_hash.

(** The main network's Base58 prefixes with another human-readable part. *)
Definition with_hrp (h : string) : core.Params :=
  core.mk (core.base58Prefixes mainnet) h.

(** A parameter set whose two Base58 prefixes are the same byte. *)
Definition same_prefix_params : core.Params := core.mk (fun _ => [5]) "bc".

(* ================================================================= *)
(** ** Vocabulary of the proofs *)

(** *** The conversion loop *)

(** What the loop of [ConvertBits<f, t, _>] maintains once [n] symbols of
    big-endian value [v] were consumed: the buffered bit count, the length
    and the value of the output, and the accumulator as [v] truncated to
    [f + t - 1] bits. *)
Record loop_invariant (f t n v : Z) (st : Bits.state) : Prop := {
  inv_bits : 0 <= Bits.bits st <= f + t - 1;
  inv_len : f * n = t * Z.of_nat (length (Bits.out st)) + Bits.bits st;
  inv_val : value t (Bits.out st) = v / 2 ^ Bits.bits st;
  inv_acc : Bits.acc st = v mod 2 ^ (f + t - 1);
  inv_out : symbols t (Bits.out st);
  inv_v : 0 <= v }.

(** One iteration of the inner loop. *)
Definition drain_once (t : Z) (st : Bits.state) : Bits.state :=
  Bits.mk (Bits.acc st) (Bits.bits st - t)
    (Bits.out st
     ++ [Z.land (Z.shiftr (Bits.acc st) (Bits.bits st - t)) (Bits.maxv t)]).

(** The state after a symbol was shifted in and before the inner loop. *)
Definition feed (f t : Z) (st : Bits.state) (x : Z) : Bits.state :=
  Bits.mk (Z.land (Z.lor (size_t (Z.shiftl (Bits.acc st) f)) x) (Bits.max_acc f t))
    (Bits.bits st + f) (Bits.out st).

(** The state of the specification's algorithm that a state of the code
    stands for, given the value [v] consumed so far. *)
Definition abstract (v : Z) (st : Bits.state) : BitsSpec.state :=
  BitsSpec.mk v (Bits.bits st) (Bits.out st).

(** *** Positional number systems *)

Module Radix.
Definition in_range (b : Z) (ds : list Z) : Prop := Forall (fun d => 0 <= d < b) ds.

(** No leading zero digit. *)
Definition canonical (b : Z) (ds : list Z) : Prop :=
in_range b ds /\ (ds = [] \/ 0 < hd 0 ds).

(** [fuel] steps are enough to write [n]. *)
Definition fuel_ok (fuel : nat) (n : Z) : Prop :=
n <= 0 \/ Z.log2 n < Z.of_nat fuel.
End Radix.

(** *** Alphabets and characters *)

Definition alpha (d : Z) : Z := nth (Z.to_nat d) pszBase58 0.
Definition charset (v : Z) : Z := nth (Z.to_nat v) bech32.CHARSET 0.

(** The six symbols of a 30-bit checksum, most significant first. *)
Definition checksum_of (m : Z) : list Z :=
  map (fun i => Z.land (Z.shiftr m (5 * (5 - Z.of_nat i))) 31) (seq 0 6).

(** The characters of an encoded Bech32 string: printable, none upper-case. *)
Record plain (s : list Z) : Prop := {
  plain_printable : forallb bech32.printable s = true;
  plain_no_upper : existsb bech32.is_upper s = false }.

(** *** Tactics *)

(** Case analysis on the conditions a function branches on, outermost first:
    [split_test] splits on the first atomic test of a condition, [branch]
    applies it to a condition that contains no other. *)
Ltac split_test c :=
  lazymatch c with
  | negb ?a => split_test a
  | andb ?a _ => split_test a
  | orb ?a _ => split_test a
  | _ => destruct c eqn:?
  end.

Ltac innermost c :=
  lazymatch c with
  | context [match _ with _ => _ end] => fail
  | _ => idtac
  end.

Ltac branch :=
  match goal with
  | |- context [match ?c with _ => _ end] => innermost c; split_test c
  end;
  cbn [andb orb negb].

(** [explode l H] replaces a list [l] whose length is known, [H : length l = n]
    with [n] a numeral, by its [n] elements. *)
Ltac explode l H :=
  repeat (destruct l as [|? l]; [discriminate H|apply Nat.succ_inj in H]);
  destruct l; [clear H|discriminate H].

(** The first two rules of [Solver], in a proof about a later one: [H] says
    that the result is of another kind. *)
Ltac skip_p2sh H :=
  destruct (IsPayToScriptHash _) eqn:?; [discriminate H|].
Ltac skip_witness H :=
  destruct (IsWitnessProgram _) as [[? ?]|] eqn:?;
  [ repeat (destruct (_ && _); [discriminate H|]);
    destruct (negb _); discriminate H | ].

(** *** The solutions of [Solver] *)

(** The shape of the solutions that go with a type: their number and the
    sizes of the payloads. *)
Definition solutions_table (t : TxoutType) (sols : list (list Z)) : Prop :=
  match t with
  | NONSTANDARD | NULL_DATA => sols = []
  | PUBKEY => exists k, sols = [k] /\ (size k = 33 \/ size k = 65)
  | PUBKEYHASH | SCRIPTHASH | WITNESS_V0_KEYHASH =>
      exists h, sols = [h] /\ size h = 20
  | WITNESS_V0_SCRIPTHASH | WITNESS_V1_TAPROOT =>
      exists h, sols = [h] /\ size h = 32
  | WITNESS_UNKNOWN =>
      exists v p, sols = [[v]; p] /\ 1 <= v <= 16 /\ 2 <= size p <= 40
  | MULTISIG =>
      exists m keys,
        sols = [[m]] ++ keys ++ [[size keys]] /\
        1 <= m <= size keys /\ size keys <= 16 /\
        Forall (fun k => size k = 33 \/ size k = 65) keys
  end.

(** *** The scripts of [DecodeDestination] *)

(** The six scripts [DecodeDestination] writes into an empty vector, one for
    each of its paths that return true. *)
Inductive decoded_script : list Z -> Prop :=
| decoded_pubkeyhash h :
    size h = 20 ->
    decoded_script ([OP_DUP; OP_HASH160; 20] ++ h ++ [OP_EQUALVERIFY; OP_CHECKSIG])
| decoded_scripthash h :
    size h = 20 ->
    decoded_script ([OP_HASH160; 20] ++ h ++ [OP_EQUAL])
| decoded_v0_keyhash p :
    size p = 20 -> decoded_script ([OP_0; 20] ++ p)
| decoded_v0_scripthash p :
    size p = 32 -> decoded_script ([OP_0; 32] ++ p)
| decoded_v1_taproot p :
    size p = 32 -> decoded_script ([OP_1; 32] ++ p)
| decoded_version v p :
    1 <= v <= 16 -> 2 <= size p <= 40 ->
    decoded_script ((OP_1 + v - 1) :: p).

(* ================================================================= *)
(* ================================================================= *)
(** * Properties *)

(* ================================================================= *)
(** ** Base conversion *)

Module BitsFacts.
Import Bits.

Lemma value_snoc w l x : value w (l ++ [x]) = value w l * 2 ^ w + x.
Proof. unfold value. rewrite fold_left_app. reflexivity. Qed.

Lemma symbols_snoc w l x :
  symbols w l -> 0 <= x < 2 ^ w -> symbols w (l ++ [x]).
Proof.
  intros Hl Hx. apply Forall_app. split; [exact Hl|]. constructor; [exact Hx|constructor].
Qed.

Lemma land_maxv t a : 0 <= t -> Z.land a (maxv t) = a mod 2 ^ t.
Proof.
  intros Ht. unfold maxv.
  rewrite Z.shiftl_1_l, Z.sub_1_r, <- Z.ones_equiv.
  apply Z.land_ones; lia.
Qed.

Lemma land_max_acc f t a : 0 <= f + t - 1 -> Z.land a (max_acc f t) = a mod 2 ^ (f + t - 1).
Proof. intros H. apply land_maxv; exact H. Qed.

Lemma testbit_small x w n : 0 <= x < 2 ^ w -> w <= n -> Z.testbit x n = false.
Proof.
  intros Hx Hn.
  destruct (Z.eq_dec x 0) as [->|Hx0]; [apply Z.bits_0|].
  apply Z.bits_above_log2; [lia|].
  destruct (Z.lt_ge_cases w 0) as [Hw|Hw].
  - rewrite Z.pow_neg_r in Hx by lia. lia.
  - assert (Z.log2 x < w) by (apply Z.log2_lt_pow2; lia). lia.
Qed.

Lemma lor_shift_add a f x :
  0 <= f -> 0 <= x < 2 ^ f -> Z.lor (a * 2 ^ f) x = a * 2 ^ f + x.
Proof.
  intros Hf Hx.
  assert (H0 : Z.land (a * 2 ^ f) x = 0).
  { apply Z.bits_inj'. intros n Hn. rewrite Z.land_spec, Z.bits_0.
    destruct (Z.lt_ge_cases n f) as [Hlt|Hge].
    - rewrite <- Z.shiftl_mul_pow2 by lia.
      rewrite Z.shiftl_spec_low by lia. reflexivity.
    - rewrite (testbit_small x f n Hx) by lia. apply andb_false_r. }
  rewrite <- Z.lxor_lor by exact H0.
  symmetry. apply Z.add_nocarry_lxor. exact H0.
Qed.

(** Bits [b .. b+t) of [v] survive a truncation of [v] to [m >= b+t] bits. *)
Lemma chunk_mod v m b t :
  0 <= b -> 0 <= t -> b + t <= m ->
  ((v mod 2 ^ m) / 2 ^ b) mod 2 ^ t = (v / 2 ^ b) mod 2 ^ t.
Proof.
  intros Hb Ht Hm. apply Z.bits_inj'. intros n Hn.
  destruct (Z.lt_ge_cases n t) as [Hlt|Hge].
  - rewrite !Z.mod_pow2_bits_low by lia.
    rewrite <- !Z.shiftr_div_pow2 by lia.
    rewrite !Z.shiftr_spec by lia.
    apply Z.mod_pow2_bits_low. lia.
  - rewrite !Z.mod_pow2_bits_high by lia. reflexivity.
Qed.

Lemma chunk_join v b t :
  0 <= v -> 0 <= b -> 0 <= t ->
  v / 2 ^ (b + t) * 2 ^ t + (v / 2 ^ b) mod 2 ^ t = v / 2 ^ b.
Proof.
  intros Hv Hb Ht.
  rewrite Z.pow_add_r by lia.
  rewrite <- Z.div_div by (try apply Z.pow_pos_nonneg; lia).
  assert (Hp : 0 < 2 ^ t) by (apply Z.pow_pos_nonneg; lia).
  pose proof (Z.div_mod (v / 2 ^ b) (2 ^ t)). lia.
Qed.

Lemma shift_in_div v f b x :
  0 <= f -> 0 <= b -> 0 <= x < 2 ^ f ->
  (v * 2 ^ f + x) / 2 ^ (b + f) = v / 2 ^ b.
Proof.
  intros Hf Hb Hx.
  assert (Hpf : 0 < 2 ^ f) by (apply Z.pow_pos_nonneg; lia).
  assert (Hpb : 0 < 2 ^ b) by (apply Z.pow_pos_nonneg; lia).
  rewrite Z.add_comm with (n := b), Z.pow_add_r by lia.
  rewrite <- Z.div_div by lia.
  rewrite Z.div_add_l by lia.
  rewrite (Z.div_small x) by lia. rewrite Z.add_0_r. reflexivity.
Qed.

Lemma low_bits_shift a b t :
  0 <= b <= t -> (a * 2 ^ (t - b)) mod 2 ^ t = (a mod 2 ^ b) * 2 ^ (t - b).
Proof.
  intros Hb.
  replace (2 ^ t) with (2 ^ b * 2 ^ (t - b))
    by (rewrite <- Z.pow_add_r by lia; f_equal; lia).
  apply Z.mul_mod_distr_r.
  - apply Z.pow_nonzero; lia.
  - apply Z.pow_nonzero; lia.
Qed.

Lemma mod_mod_le v m b : 0 <= b <= m -> (v mod 2 ^ m) mod 2 ^ b = v mod 2 ^ b.
Proof.
  intros H. apply Z.bits_inj'. intros n Hn.
  destruct (Z.lt_ge_cases n b).
  - rewrite !Z.mod_pow2_bits_low by lia. reflexivity.
  - rewrite !Z.mod_pow2_bits_high by lia. reflexivity.
Qed.

Lemma pow2_le a b : 0 <= a <= b -> 2 ^ a <= 2 ^ b.
Proof. intros. apply Z.pow_le_mono_r; lia. Qed.

Lemma size_t_small z : 0 <= z < 2 ^ 32 -> size_t z = z.
Proof. intros. unfold size_t, SIZE_T_BITS. apply Z.mod_small. lia. Qed.

Section Loop.
Variables f t : Z.
Hypothesis Hf : 1 <= f <= 8.
Hypothesis Ht : 1 <= t <= 8.

Local Abbreviation m := (f + t - 1).
Local Abbreviation Inv := (loop_invariant f t).

Lemma Inv_init : Inv 0 0 init.
Proof.
  assert (Hm0 : 0 <= m) by lia.
  constructor; cbn [acc bits out init length value fold_left]; try lia.
  - reflexivity.
  - rewrite Z.mod_0_l; [reflexivity|]. apply Z.pow_nonzero; lia.
  - constructor.
Qed.

Lemma drain_once_inv n v st :
  Inv n v st -> t <= bits st -> Inv n v (drain_once t st).
Proof.
  intros [Hb Hl Hv Ha Ho Hv0] Hge.
  constructor; cbn [drain_once acc bits out].
  - lia.
  - rewrite length_app. cbn. lia.
  - rewrite value_snoc, Hv, land_maxv by lia.
    rewrite Z.shiftr_div_pow2 by lia. rewrite Ha.
    rewrite chunk_mod by lia.
    replace (bits st) with ((bits st - t) + t) at 1 by lia.
    apply chunk_join; lia.
  - exact Ha.
  - apply symbols_snoc; [exact Ho|].
    rewrite land_maxv by lia. apply Z.mod_pos_bound.
    apply Z.pow_pos_nonneg; lia.
  - exact Hv0.
Qed.

Lemma drain_unfold k n v st :
  Inv n v st -> t <= bits st ->
  drain (S k) t st = drain k t (drain_once t st).
Proof.
  intros HI Hge. cbn [drain].
  destruct (Z.leb_spec t (bits st)) as [_|]; [|lia].
  destruct HI as [Hb _ _ _ _ _].
  assert (Hm15 : m <= 15) by lia.
  rewrite (size_t_small (bits st - t)) by lia. reflexivity.
Qed.

Lemma drain_inv fuel : forall n v st,
  Inv n v st -> bits st <= Z.of_nat fuel ->
  Inv n v (drain fuel t st) /\ bits (drain fuel t st) < t.
Proof.
  induction fuel as [|k IH]; intros n v st HI Hfuel.
  - cbn. split; [exact HI|]. destruct HI. lia.
  - destruct (Z.le_gt_cases t (bits st)) as [Hge|Hlt].
    + rewrite (drain_unfold k n v st HI Hge).
      apply IH; [apply drain_once_inv; assumption|cbn; lia].
    + cbn [drain]. destruct (Z.leb_spec t (bits st)); [lia|].
      split; [exact HI|lia].
Qed.

Lemma step_unfold n v st x :
  Inv n v st ->
  step f t st x = drain (Z.to_nat (bits st + f)) t (feed f t st x).
Proof.
  intros [Hb _ _ _ _ _]. unfold step, feed.
  assert (Hm15 : m <= 15) by lia.
  rewrite (size_t_small (bits st + f)) by lia. reflexivity.
Qed.

Lemma feed_inv n v st x :
  Inv n v st -> bits st < t -> 0 <= x < 2 ^ f ->
  Inv (n + 1) (v * 2 ^ f + x) (feed f t st x).
Proof.
  intros [Hb Hl Hv Ha Ho Hv0] Hlt Hx.
  assert (Hm15 : m <= 15) by lia.
  assert (Hm0 : 0 <= m) by lia.
  assert (Hpm : 0 < 2 ^ m) by (apply Z.pow_pos_nonneg; lia).
  assert (Hpf : 0 < 2 ^ f) by (apply Z.pow_pos_nonneg; lia).
  assert (Hacc : 0 <= acc st < 2 ^ m).
  { rewrite Ha. apply Z.mod_pos_bound. exact Hpm. }
  constructor; cbn [feed acc bits out].
  - lia.
  - lia.
  - rewrite Hv. symmetry. apply shift_in_div; lia.
  - rewrite Z.shiftl_mul_pow2 by lia.
    rewrite size_t_small.
    2:{ split; [nia|].
        assert (2 ^ m * 2 ^ f <= 2 ^ 23).
        { rewrite <- Z.pow_add_r by lia. apply pow2_le. lia. }
        assert (2 ^ 23 < 2 ^ 32) by (vm_compute; reflexivity).
        nia. }
    rewrite lor_shift_add by lia.
    rewrite land_max_acc by lia.
    rewrite Ha.
    rewrite <- Zplus_mod_idemp_l, Zmult_mod_idemp_l, Zplus_mod_idemp_l.
    reflexivity.
  - exact Ho.
  - nia.
Qed.

Lemma step_inv n v st x :
  Inv n v st -> bits st < t -> 0 <= x < 2 ^ f ->
  Inv (n + 1) (v * 2 ^ f + x) (step f t st x)
  /\ bits (step f t st x) < t.
Proof.
  intros HI Hlt Hx. rewrite (step_unfold n v st x HI).
  apply drain_inv; [apply feed_inv; assumption|].
  destruct HI as [Hb _ _ _ _ _]. cbn [feed bits]. lia.
Qed.

Lemma fold_inv xs : forall n v st,
  Inv n v st -> bits st < t -> symbols f xs ->
  Inv (n + Z.of_nat (length xs))
      (fold_left (fun a x => a * 2 ^ f + x) xs v)
      (fold_left (step f t) xs st)
  /\ bits (fold_left (step f t) xs st) < t.
Proof.
  induction xs as [|x xs IH]; intros n v st HI Hlt Hxs.
  - cbn. rewrite Z.add_0_r. split; assumption.
  - inversion Hxs as [|? ? Hx Hxs']; subst.
    destruct (step_inv n v st x HI Hlt Hx) as [HI' Hlt'].
    cbn [fold_left length].
    replace (n + Z.of_nat (S (length xs))) with (n + 1 + Z.of_nat (length xs)) by lia.
    apply IH; assumption.
Qed.

Lemma loop_inv xs :
  symbols f xs ->
  Inv (Z.of_nat (length xs)) (value f xs) (loop f t xs)
  /\ bits (loop f t xs) < t.
Proof.
  intros Hxs. unfold loop, value.
  apply (fold_inv xs 0 0 init Inv_init); [cbn; lia|exact Hxs].
Qed.

(** The residual only depends on the buffered low bits of the value. *)
Lemma residual_eq n v st :
  Inv n v st -> bits st < t ->
  residual t st = (v mod 2 ^ bits st) * 2 ^ (t - bits st).
Proof.
  intros [Hb Hl Hv Ha Ho Hv0] Hlt. unfold residual.
  assert (Hm15 : m <= 15) by lia.
  assert (Hm0 : 0 <= m) by lia.
  assert (Hpm : 0 < 2 ^ m) by (apply Z.pow_pos_nonneg; lia).
  assert (Hacc : 0 <= acc st < 2 ^ m).
  { rewrite Ha. apply Z.mod_pos_bound. exact Hpm. }
  rewrite (size_t_small (t - bits st)) by lia.
  rewrite Z.shiftl_mul_pow2 by lia.
  assert (Hp : 0 < 2 ^ (t - bits st)) by (apply Z.pow_pos_nonneg; lia).
  rewrite size_t_small.
  2:{ split; [nia|].
      assert (2 ^ m * 2 ^ (t - bits st) <= 2 ^ 23).
      { rewrite <- Z.pow_add_r by lia. apply pow2_le. lia. }
      assert (2 ^ 23 < 2 ^ 32) by (vm_compute; reflexivity).
      nia. }
  rewrite land_maxv by lia.
  rewrite low_bits_shift by lia.
  rewrite Ha, mod_mod_le by lia. reflexivity.
Qed.

(** *** The code refines the algorithm of the specification *)

Lemma mask_maxv : BitsSpec.mask t = maxv t.
Proof. unfold BitsSpec.mask, maxv. rewrite Z.shiftl_1_l. reflexivity. Qed.

Lemma emit_while_drain fuel : forall n v st,
  Inv n v st ->
  BitsSpec.emit_while fuel t (abstract v st) = abstract v (drain fuel t st).
Proof.
  induction fuel as [|k IH]; intros n v st HI; [reflexivity|].
  destruct (Z.le_gt_cases t (bits st)) as [Hge|Hlt].
  - rewrite (drain_unfold k n v st HI Hge).
    rewrite <- (IH n v _ (drain_once_inv n v st HI Hge)).
    cbn [BitsSpec.emit_while abstract BitsSpec.count BitsSpec.acc BitsSpec.emitted].
    destruct (Z.leb_spec t (bits st)) as [_|]; [|lia].
    unfold drain_once, abstract. cbn [acc bits out].
    destruct HI as [Hb Hl Hv Ha Ho Hv0].
    do 4 f_equal.
    rewrite mask_maxv, !land_maxv by lia.
    rewrite !Z.shiftr_div_pow2 by lia. rewrite Ha.
    symmetry. apply chunk_mod; lia.
  - cbn [BitsSpec.emit_while drain abstract BitsSpec.count].
    destruct (Z.leb_spec t (bits st)); [lia|reflexivity].
Qed.

Lemma consume_step n v st x :
  Inv n v st -> bits st < t -> 0 <= x < 2 ^ f ->
  BitsSpec.consume f t (abstract v st) x
  = abstract (v * 2 ^ f + x) (step f t st x).
Proof.
  intros HI Hlt Hx. rewrite (step_unfold n v st x HI).
  rewrite <- (emit_while_drain _ (n + 1) _ _ (feed_inv n v st x HI Hlt Hx)).
  unfold BitsSpec.consume.
  cbn [abstract feed bits out BitsSpec.count BitsSpec.acc BitsSpec.emitted].
  rewrite Z.shiftl_mul_pow2, lor_shift_add by lia. reflexivity.
Qed.

Lemma run_loop xs : forall n v st,
  Inv n v st -> bits st < t -> symbols f xs ->
  fold_left (BitsSpec.consume f t) xs (abstract v st)
  = abstract (fold_left (fun a x => a * 2 ^ f + x) xs v)
             (fold_left (step f t) xs st).
Proof.
  induction xs as [|x xs IH]; intros n v st HI Hlt Hxs; [reflexivity|].
  inversion Hxs as [|? ? Hx Hxs']; subst.
  cbn [fold_left]. rewrite (consume_step n v st x HI Hlt Hx).
  destruct (step_inv n v st x HI Hlt Hx) as [HI' Hlt'].
  apply (IH (n + 1)); assumption.
Qed.

(** The run of the specification's algorithm is the run of the code with
    the unmasked accumulator. *)
Lemma run_eq xs :
  symbols f xs ->
  BitsSpec.run f t xs = abstract (value f xs) (loop f t xs).
Proof.
  intros Hxs. unfold BitsSpec.run, loop, value.
  apply (run_loop xs 0 0 init Inv_init); [cbn; lia|exact Hxs].
Qed.

Lemma residual_spec_eq n v st :
  Inv n v st -> bits st < t ->
  BitsSpec.residual t (abstract v st) = residual t st.
Proof.
  intros HI Hlt. rewrite (residual_eq n v st HI Hlt).
  destruct HI as [Hb Hl Hv Ha Ho Hv0].
  unfold BitsSpec.residual. cbn [abstract BitsSpec.acc BitsSpec.count].
  rewrite mask_maxv, land_maxv by lia.
  rewrite Z.shiftl_mul_pow2 by lia.
  apply low_bits_shift. lia.
Qed.

End Loop.

Lemma value_nonneg w l : 0 <= w -> symbols w l -> 0 <= value w l.
Proof.
  intros Hw. induction l as [|x l IH] using rev_ind; intros Hl; [cbn; lia|].
  apply Forall_app in Hl. destruct Hl as [Hl Hx]. inversion Hx; subst.
  rewrite value_snoc. specialize (IH Hl).
  assert (0 < 2 ^ w) by (apply Z.pow_pos_nonneg; lia). nia.
Qed.

(** Symbol sequences of the same length and the same value are equal. *)
Lemma value_inj w : 0 <= w -> forall l1 l2,
  symbols w l1 -> symbols w l2 -> length l1 = length l2 ->
  value w l1 = value w l2 -> l1 = l2.
Proof.
  intros Hw. induction l1 as [|x l1 IH] using rev_ind; intros l2 H1 H2 Hlen Hval.
  - destruct l2; [reflexivity|discriminate].
  - destruct l2 as [|y l2 _] using rev_ind.
    + rewrite length_app in Hlen. cbn in Hlen. lia.
    + rewrite !length_app in Hlen. cbn in Hlen.
      apply Forall_app in H1. destruct H1 as [H1 Hx]. inversion Hx; subst.
      apply Forall_app in H2. destruct H2 as [H2 Hy]. inversion Hy; subst.
      rewrite !value_snoc in Hval.
      assert (Hp : 0 < 2 ^ w) by (apply Z.pow_pos_nonneg; lia).
      assert (Hv : value w l1 = value w l2).
      { destruct (Z.lt_trichotomy (value w l1) (value w l2)) as [Hc|[Hc|Hc]];
          [exfalso; nia|exact Hc|exfalso; nia]. }
      assert (x = y) as -> by (rewrite Hv in Hval; lia).
      f_equal. apply IH; [assumption|assumption|lia|exact Hv].
Qed.

(** With padding the conversion always succeeds; it emits the input value
    shifted left by the [p < t] padding bits. *)
Lemma ConvertBits_pad f t xs :
  1 <= f <= 8 -> 1 <= t <= 8 -> symbols f xs ->
  exists y p,
    ConvertBits f t true xs = (true, y) /\ symbols t y /\ 0 <= p < t /\
    value t y = value f xs * 2 ^ p /\
    t * Z.of_nat (length y) = f * Z.of_nat (length xs) + p.
Proof.
  intros Hf Ht Hxs.
  destruct (loop_inv f t Hf Ht xs Hxs) as [HI Hlt].
  pose proof (residual_eq f t Hf Ht _ _ _ HI Hlt) as Hres.
  destruct HI as [Hb Hl Hv Ha Ho Hv0].
  unfold ConvertBits. cbn zeta.
  destruct (Z.eqb_spec (bits (loop f t xs)) 0) as [H0|H0].
  - exists (out (loop f t xs)), 0. rewrite H0 in *.
    rewrite Z.pow_0_r, Z.div_1_r in Hv.
    split; [reflexivity|]. split; [exact Ho|]. split; [lia|].
    split; [rewrite Hv; lia|lia].
  - set (b := bits (loop f t xs)) in *.
    exists (out (loop f t xs) ++ [residual t (loop f t xs)]), (t - b).
    assert (Hpb : 0 < 2 ^ b) by (apply Z.pow_pos_nonneg; lia).
    assert (Hptb : 0 < 2 ^ (t - b)) by (apply Z.pow_pos_nonneg; lia).
    assert (Hsplit : 2 ^ t = 2 ^ b * 2 ^ (t - b)).
    { rewrite <- Z.pow_add_r by lia. f_equal. lia. }
    pose proof (Z.mod_pos_bound (value f xs) (2 ^ b) Hpb) as Hmod.
    pose proof (Z.div_mod (value f xs) (2 ^ b)) as Hdm.
    split; [reflexivity|]. split; [|split; [lia|split]].
    + apply symbols_snoc; [exact Ho|]. rewrite Hres. nia.
    + rewrite value_snoc, Hv, Hres, Hsplit. nia.
    + rewrite length_app. cbn. lia.
Qed.

Lemma ConvertBits_round_trip f t x :
  1 <= t <= f -> f <= 8 -> symbols f x ->
  exists y, ConvertBits f t true x = (true, y)
            /\ ConvertBits t f false y = (true, x).
Proof.
  intros Htf Hf8 Hx.
  assert (Hf : 1 <= f <= 8) by lia. assert (Ht : 1 <= t <= 8) by lia.
  destruct (ConvertBits_pad f t x Hf Ht Hx) as (y & p & Hy & Hsy & Hp & Hval & Hlen).
  exists y. split; [exact Hy|].
  destruct (loop_inv t f Ht Hf y Hsy) as [HI Hlt].
  pose proof (residual_eq t f Ht Hf _ _ _ HI Hlt) as Hres.
  destruct HI as [Hb Hl Hv Ha Ho Hv0].
  set (st := loop t f y) in *.
  assert (Hlx : length (out st) = length x).
  { destruct (Nat.lt_trichotomy (length (out st)) (length x)) as [Hc|[Hc|Hc]];
      [exfalso; nia|exact Hc|exfalso; nia]. }
  assert (Hbp : bits st = p) by (rewrite Hlx in Hl; lia).
  assert (Hpp : 0 < 2 ^ p) by (apply Z.pow_pos_nonneg; lia).
  assert (Hout : out st = x).
  { apply (value_inj f); try lia; try assumption.
    rewrite Hv, Hbp, Hval. apply Z.div_mul. lia. }
  unfold ConvertBits. fold st. cbn zeta.
  rewrite Hres, Hbp, Hval, Z.mod_mul by lia.
  destruct (Z.leb_spec t p); [lia|]. cbn. rewrite Hout. reflexivity.
Qed.

Lemma is_bytes_symbols x : is_bytes x -> symbols 8 x.
Proof. intros H. exact H. Qed.

End BitsFacts.

(** C3. For every byte sequence [x], [ConvertBits<8,5,true>] succeeds on [x]
    and emits a sequence of 5-bit symbols (each below 32), and
    [ConvertBits<5,8,false>] succeeds on that sequence and emits exactly [x]:
    the 8-to-5-then-5-to-8 round trip is the identity. *)
Theorem ConvertBits_8_5_8_identity (x : list Z) :
  is_bytes x ->
  exists y, ConvertBits 8 5 true x = (true, y)
            /\ symbols 5 y
            /\ ConvertBits 5 8 false y = (true, x).
Proof.
  intros Hx. apply BitsFacts.is_bytes_symbols in Hx.
  destruct (BitsFacts.ConvertBits_pad 8 5 x ltac:(lia) ltac:(lia) Hx)
    as (y & p & Hy & Hsy & _).
  destruct (BitsFacts.ConvertBits_round_trip 8 5 x ltac:(lia) ltac:(lia) Hx)
    as (y' & Hy' & Hback).
  assert (y' = y) by congruence. subst y'.
  exists y. split; [exact Hy|]. split; [exact Hsy|exact Hback].
Qed.

Lemma ConvertBits_8_5_8_identity_witness :
  is_bytes [117; 30; 118; 232; 25] /\
  exists y, ConvertBits 8 5 true [117; 30; 118; 232; 25] = (true, y)
            /\ symbols 5 y
            /\ ConvertBits 5 8 false y = (true, [117; 30; 118; 232; 25]).
Proof.
  assert (H : is_bytes [117; 30; 118; 232; 25]).
  { repeat constructor; unfold is_byte; lia. }
  split; [exact H|].
  apply (ConvertBits_8_5_8_identity [117; 30; 118; 232; 25] H).
Defined.

(** C4. For symbols below [2^from_bits], [ConvertBits] without padding fails
    exactly when, after the whole input was consumed by the algorithm of the
    specification, the count of buffered bits is at least [from_bits] or the
    residual [(acc << (to_bits - count)) & mask(to_bits)] is nonzero; in every
    other case it succeeds; in both cases it has emitted the symbols
    [(acc >> count) & mask(to_bits)] of that algorithm. *)
Theorem ConvertBits_nopad_failure (from_bits to_bits : Z) (input : list Z) :
  1 <= from_bits <= 8 -> 1 <= to_bits <= 8 -> symbols from_bits input ->
  let st := BitsSpec.run from_bits to_bits input in
  (fst (ConvertBits from_bits to_bits false input) = false <->
     (from_bits <= BitsSpec.count st \/ BitsSpec.residual to_bits st <> 0))
  /\ (fst (ConvertBits from_bits to_bits false input) = true <->
     ~ (from_bits <= BitsSpec.count st \/ BitsSpec.residual to_bits st <> 0))
  /\ snd (ConvertBits from_bits to_bits false input) = BitsSpec.emitted st
  /\ BitsSpec.convert_bits from_bits to_bits false input
     = (if fst (ConvertBits from_bits to_bits false input)
        then Some (snd (ConvertBits from_bits to_bits false input))
        else None).
Proof.
  intros Hf Ht Hin st.
  destruct (BitsFacts.loop_inv from_bits to_bits Hf Ht input Hin) as [HI Hlt].
  pose proof (BitsFacts.residual_spec_eq from_bits to_bits Hf Ht _ _ _ HI Hlt) as Hres.
  pose proof (BitsFacts.run_eq from_bits to_bits Hf Ht input Hin) as Hrun.
  fold st in Hrun. rewrite <- Hrun in Hres.
  assert (Hc : BitsSpec.count st = Bits.bits (Bits.loop from_bits to_bits input))
    by (rewrite Hrun; reflexivity).
  assert (He : BitsSpec.emitted st = Bits.out (Bits.loop from_bits to_bits input))
    by (rewrite Hrun; reflexivity).
  unfold BitsSpec.convert_bits. fold st.
  unfold ConvertBits, Bits.ConvertBits. cbn zeta.
  rewrite Hc, He, Hres.
  destruct (Z.leb_spec from_bits (Bits.bits (Bits.loop from_bits to_bits input)))
    as [Hge|Hlt'];
    destruct (Z.eqb_spec (Bits.residual to_bits (Bits.loop from_bits to_bits input)) 0)
    as [Hz|Hnz]; cbn [orb negb fst snd];
    repeat split; try reflexivity; try discriminate; intros; try tauto; try lia.
Qed.

Lemma ConvertBits_nopad_failure_witness :
  let st := BitsSpec.run 5 8 [31; 28; 0; 17] in
  (fst (ConvertBits 5 8 false [31; 28; 0; 17]) = false <->
     (5 <= BitsSpec.count st \/ BitsSpec.residual 8 st <> 0))
  /\ (fst (ConvertBits 5 8 false [31; 28; 0; 17]) = true <->
     ~ (5 <= BitsSpec.count st \/ BitsSpec.residual 8 st <> 0))
  /\ snd (ConvertBits 5 8 false [31; 28; 0; 17]) = BitsSpec.emitted st
  /\ BitsSpec.convert_bits 5 8 false [31; 28; 0; 17]
     = (if fst (ConvertBits 5 8 false [31; 28; 0; 17])
        then Some (snd (ConvertBits 5 8 false [31; 28; 0; 17]))
        else None).
Proof.
  apply (ConvertBits_nopad_failure 5 8 [31; 28; 0; 17]); [lia|lia|].
  repeat constructor; lia.
Defined.

(* ================================================================= *)
(** ** Scripts and the solver *)

Module ScriptFacts.

Lemma size_app {A} (a b : list A) : size (a ++ b) = size a + size b.
Proof. unfold size. rewrite length_app. lia. Qed.

Lemma size_cons {A} (x : A) (l : list A) : size (x :: l) = 1 + size l.
Proof. unfold size. cbn [length]. lia. Qed.

Lemma size_nil {A} : size (@nil A) = 0.
Proof. reflexivity. Qed.

Lemma size_nonneg {A} (l : list A) : 0 <= size l.
Proof. unfold size. lia. Qed.

Lemma to_nat_size {A} (l : list A) : Z.to_nat (size l) = length l.
Proof. unfold size. lia. Qed.

Lemma firstn_size_app (a b : list Z) : firstn (Z.to_nat (size a)) (a ++ b) = a.
Proof.
  rewrite to_nat_size, firstn_app, Nat.sub_diag, firstn_all. cbn.
  apply app_nil_r.
Qed.

Lemma skipn_size_app (a b : list Z) : skipn (Z.to_nat (size a)) (a ++ b) = b.
Proof.
  rewrite to_nat_size, skipn_app, Nat.sub_diag, skipn_all. reflexivity.
Qed.

Lemma bytesb_spec l : bytesb l = true -> is_bytes l.
Proof.
  unfold bytesb, is_bytes. rewrite forallb_forall, Forall_forall.
  intros H b Hb. specialize (H b Hb). apply andb_true_iff in H.
  destruct H as [H1 H2]. apply Z.leb_le in H1. apply Z.ltb_lt in H2.
  split; assumption.
Qed.

Lemma is_bytes_cons b l : is_bytes (b :: l) <-> is_byte b /\ is_bytes l.
Proof. unfold is_bytes. apply Forall_cons_iff. Qed.

Lemma is_bytes_app a b : is_bytes (a ++ b) <-> is_bytes a /\ is_bytes b.
Proof. unfold is_bytes. apply Forall_app. Qed.

Lemma is_bytes_skipn n l : is_bytes l -> is_bytes (skipn n l).
Proof.
  intros H. rewrite <- (firstn_skipn n l) in H.
  apply is_bytes_app in H. tauto.
Qed.

Lemma is_bytes_firstn n l : is_bytes l -> is_bytes (firstn n l).
Proof.
  intros H. rewrite <- (firstn_skipn n l) in H.
  apply is_bytes_app in H. tauto.
Qed.

(** *** Public-key sizes *)

Lemma ValidSize_well_sized k : CPubKey.ValidSize k = true <-> well_sized k.
Proof.
  unfold CPubKey.ValidSize, CPubKey.GetLen, well_sized,
    CPubKey.COMPRESSED_SIZE, CPubKey.SIZE, size.
  split.
  - intros H. apply andb_true_iff in H. destruct H as [H0 H].
    apply Z.ltb_lt in H0. apply Z.eqb_eq in H.
    destruct (Z.eqb_spec (at_ k 0) 2); [cbn in H; left; lia|].
    destruct (Z.eqb_spec (at_ k 0) 3); [cbn in H; left; lia|].
    destruct (Z.eqb_spec (at_ k 0) 4); [cbn in H; right; lia|].
    destruct (Z.eqb_spec (at_ k 0) 6); [cbn in H; right; lia|].
    destruct (Z.eqb_spec (at_ k 0) 7); [cbn in H; right; lia|].
    cbn in H. lia.
  - intros [[Hl Hh]|[Hl Hh]]; rewrite Hl.
    + destruct Hh as [->| ->]; reflexivity.
    + destruct Hh as [->|[->| ->]]; reflexivity.
Qed.

Lemma well_sized_size k : well_sized k -> size k = 33 \/ size k = 65.
Proof. unfold well_sized, size. intros [[H _]|[H _]]; rewrite H; auto. Qed.

Lemma ValidSize_nil : CPubKey.ValidSize [] = false.
Proof. reflexivity. Qed.

(** *** The opcode reader *)

Lemma GetScriptOp_small op rest :
  IsSmallInteger op = true -> GetScriptOp (op :: rest) = Some (op, [], rest).
Proof.
  unfold IsSmallInteger, OP_1, OP_16. intros H.
  apply andb_true_iff in H. destruct H as [H1 H2].
  apply Z.leb_le in H1, H2.
  unfold GetScriptOp, OP_PUSHDATA4.
  destruct (Z.leb_spec op 78); [lia|reflexivity].
Qed.

Lemma GetScriptOp_nonpush op rest :
  OP_PUSHDATA4 < op -> GetScriptOp (op :: rest) = Some (op, [], rest).
Proof.
  intros H. unfold GetScriptOp. destruct (Z.leb_spec op OP_PUSHDATA4); [lia|reflexivity].
Qed.

(** A push is read back: the payload is returned and the iterator is left
    after it. *)
Lemma GetScriptOp_push data p rest :
  push_of data p ->
  exists op, GetScriptOp (p ++ rest) = Some (op, data, rest) /\ op <= OP_PUSHDATA4.
Proof.
  intros Hp. pose proof (size_nonneg data) as Hnn.
  destruct Hp as [H|H|H|H].
  - exists (size data). split; [|unfold OP_PUSHDATA4; lia].
    cbn [app]. unfold GetScriptOp, OP_PUSHDATA4, OP_PUSHDATA1.
    destruct (Z.leb_spec (size data) 78); [|lia].
    destruct (Z.ltb_spec (size data) 76); [|lia].
    cbn [Nat.ltb Nat.leb skipn].
    rewrite size_app.
    destruct (Z.ltb_spec (size data + size rest) (size data));
      [pose proof (size_nonneg rest); lia|].
    rewrite firstn_size_app, skipn_size_app. reflexivity.
  - exists OP_PUSHDATA1. split; [|unfold OP_PUSHDATA1, OP_PUSHDATA4; lia].
    cbn [app]. unfold GetScriptOp.
    change (OP_PUSHDATA1 <=? OP_PUSHDATA4) with true.
    change (OP_PUSHDATA1 <? OP_PUSHDATA1) with false.
    change (OP_PUSHDATA1 =? OP_PUSHDATA1) with true.
    cbn [length Nat.ltb Nat.leb skipn ReadLE].
    rewrite size_app, Z.mul_0_r, Z.add_0_r.
    destruct (Z.ltb_spec (size data + size rest) (size data));
      [pose proof (size_nonneg rest); lia|].
    rewrite firstn_size_app, skipn_size_app. reflexivity.
  - exists OP_PUSHDATA2. split; [|unfold OP_PUSHDATA2, OP_PUSHDATA4; lia].
    cbn [app]. unfold GetScriptOp.
    change (OP_PUSHDATA2 <=? OP_PUSHDATA4) with true.
    change (OP_PUSHDATA2 <? OP_PUSHDATA1) with false.
    change (OP_PUSHDATA2 =? OP_PUSHDATA1) with false.
    change (OP_PUSHDATA2 =? OP_PUSHDATA2) with true.
    cbn [length Nat.ltb Nat.leb skipn ReadLE].
    replace (size data mod 256 + 256 * (size data / 256 + 256 * 0)) with (size data)
      by (pose proof (Z.div_mod (size data) 256); lia).
    rewrite size_app.
    destruct (Z.ltb_spec (size data + size rest) (size data));
      [pose proof (size_nonneg rest); lia|].
    rewrite firstn_size_app, skipn_size_app. reflexivity.
  - exists OP_PUSHDATA4. split; [|unfold OP_PUSHDATA4; lia].
    cbn [app]. unfold GetScriptOp.
    change (OP_PUSHDATA4 <=? OP_PUSHDATA4) with true.
    change (OP_PUSHDATA4 <? OP_PUSHDATA1) with false.
    change (OP_PUSHDATA4 =? OP_PUSHDATA1) with false.
    change (OP_PUSHDATA4 =? OP_PUSHDATA2) with false.
    cbn [length Nat.ltb Nat.leb skipn ReadLE].
    replace (size data mod 256 + 256 * (size data / 256 mod 256
               + 256 * (size data / 256 ^ 2 mod 256 + 256 * (size data / 256 ^ 3 + 256 * 0))))
      with (size data).
    2:{ change (256 ^ 2) with (256 * 256). change (256 ^ 3) with (256 * 256 * 256).
        rewrite <- !Z.div_div by lia.
        pose proof (Z.div_mod (size data) 256).
        pose proof (Z.div_mod (size data / 256) 256).
        pose proof (Z.div_mod (size data / 256 / 256) 256).
        lia. }
    rewrite size_app.
    destruct (Z.ltb_spec (size data + size rest) (size data));
      [pose proof (size_nonneg rest); lia|].
    rewrite firstn_size_app, skipn_size_app. reflexivity.
Qed.

Lemma firstn_skipn_size (n : Z) (l : list Z) :
  0 <= n <= size l ->
  size (firstn (Z.to_nat n) l) = n
  /\ l = firstn (Z.to_nat n) l ++ skipn (Z.to_nat n) l.
Proof.
  intros H. unfold size in *. split.
  - rewrite length_firstn. lia.
  - symmetry. apply firstn_skipn.
Qed.

Lemma le_split b r :
  0 <= b < 256 -> (b + 256 * r) mod 256 = b /\ (b + 256 * r) / 256 = r.
Proof.
  intros H. rewrite (Z.mul_comm 256 r). split.
  - rewrite Z.mod_add by lia. apply Z.mod_small; lia.
  - rewrite Z.div_add by lia. rewrite Z.div_small by lia. lia.
Qed.

(** Whatever non-empty payload the reader returns was pushed by one of the
    four push encodings, and the iterator is left right after it. *)
Lemma GetScriptOp_sound pc op data rest :
  is_bytes pc -> GetScriptOp pc = Some (op, data, rest) -> 0 < size data ->
  exists p, push_of data p /\ pc = p ++ rest.
Proof.
  intros Hb H Hd. destruct pc as [|opcode pc1]; [discriminate|].
  apply is_bytes_cons in Hb. destruct Hb as [Hop Hb1]. unfold is_byte in Hop.
  unfold GetScriptOp in H.
  destruct (Z.leb_spec opcode OP_PUSHDATA4) as [Hle|Hgt].
  2:{ inversion H; subst. cbn in Hd. lia. }
  destruct (Z.ltb_spec opcode OP_PUSHDATA1) as [Hlt|Hge].
  - (* a direct push *)
    cbn [Nat.ltb Nat.leb skipn] in H.
    destruct (Z.ltb_spec (size pc1) opcode) as [|Hsz]; [discriminate|].
    injection H as Eop Edata Erest; subst op data rest.
    destruct (firstn_skipn_size opcode pc1 ltac:(lia)) as [Hs Hsplit].
    exists (opcode :: firstn (Z.to_nat opcode) pc1). split.
    + pose proof (push_direct (firstn (Z.to_nat opcode) pc1)) as P.
      rewrite Hs in P. apply P. unfold OP_PUSHDATA1 in Hlt. lia.
    + cbn [app]. rewrite <- Hsplit. reflexivity.
  - destruct (Z.eqb_spec opcode OP_PUSHDATA1) as [->|Hn1].
    + (* OP_PUSHDATA1 *)
      destruct pc1 as [|b0 pc2]; [discriminate|].
      apply is_bytes_cons in Hb1. destruct Hb1 as [Hb0 Hb2]. unfold is_byte in Hb0.
      cbn [length Nat.ltb Nat.leb skipn ReadLE] in H.
      rewrite Z.mul_0_r, Z.add_0_r in H.
      destruct (Z.ltb_spec (size pc2) b0) as [|Hsz]; [discriminate|].
      injection H as Eop Edata Erest; subst op data rest.
      destruct (firstn_skipn_size b0 pc2 ltac:(lia)) as [Hs Hsplit].
      exists (OP_PUSHDATA1 :: b0 :: firstn (Z.to_nat b0) pc2). split.
      * pose proof (push_data1 (firstn (Z.to_nat b0) pc2)) as P.
        rewrite Hs in P. apply P. lia.
      * cbn [app]. rewrite <- Hsplit. reflexivity.
    + destruct (Z.eqb_spec opcode OP_PUSHDATA2) as [->|Hn2].
      * (* OP_PUSHDATA2 *)
        destruct pc1 as [|b0 [|b1 pc2]]; try discriminate.
        apply is_bytes_cons in Hb1. destruct Hb1 as [Hb0 Hb1].
        apply is_bytes_cons in Hb1. destruct Hb1 as [Hb1 Hb2].
        unfold is_byte in Hb0, Hb1.
        cbn [length Nat.ltb Nat.leb skipn ReadLE] in H.
        rewrite Z.mul_0_r, Z.add_0_r in H.
        set (n := b0 + 256 * b1) in *.
        destruct (Z.ltb_spec (size pc2) n) as [|Hsz]; [discriminate|].
        injection H as Eop Edata Erest; subst op data rest.
        destruct (firstn_skipn_size n pc2 ltac:(subst n; lia)) as [Hs Hsplit].
        set (d := firstn (Z.to_nat n) pc2) in *.
        exists (OP_PUSHDATA2 :: b0 :: b1 :: d). split.
        -- destruct (le_split b0 b1 Hb0) as [E0 E1].
           fold n in E0, E1. rewrite <- Hs in E0, E1.
           pose proof (push_data2 d) as P. rewrite E0, E1 in P.
           apply P. rewrite Hs. subst n. lia.
        -- cbn [app]. rewrite <- Hsplit. reflexivity.
      * (* OP_PUSHDATA4 *)
        assert (opcode = OP_PUSHDATA4)
          by (unfold OP_PUSHDATA1, OP_PUSHDATA2, OP_PUSHDATA4 in *; lia).
        subst opcode.
        destruct pc1 as [|b0 [|b1 [|b2 [|b3 pc2]]]]; try discriminate.
        apply is_bytes_cons in Hb1. destruct Hb1 as [Hb0 Hb1].
        apply is_bytes_cons in Hb1. destruct Hb1 as [Hb1 Hb2].
        apply is_bytes_cons in Hb2. destruct Hb2 as [Hb2 Hb3].
        apply is_bytes_cons in Hb3. destruct Hb3 as [Hb3 Hb4].
        unfold is_byte in Hb0, Hb1, Hb2, Hb3.
        cbn [length Nat.ltb Nat.leb skipn ReadLE] in H.
        rewrite Z.mul_0_r, Z.add_0_r in H.
        set (n := b0 + 256 * (b1 + 256 * (b2 + 256 * b3))) in *.
        destruct (Z.ltb_spec (size pc2) n) as [|Hsz]; [discriminate|].
        injection H as Eop Edata Erest; subst op data rest.
        destruct (firstn_skipn_size n pc2 ltac:(subst n; lia)) as [Hs Hsplit].
        set (d := firstn (Z.to_nat n) pc2) in *.
        exists (OP_PUSHDATA4 :: b0 :: b1 :: b2 :: b3 :: d). split.
        -- destruct (le_split b0 (b1 + 256 * (b2 + 256 * b3)) Hb0) as [E0 D1].
           destruct (le_split b1 (b2 + 256 * b3) Hb1) as [E1 D2].
           destruct (le_split b2 b3 Hb2) as [E2 E3].
           fold n in E0, D1. rewrite <- Hs in E0, D1.
           rewrite <- D1 in E1, D2. rewrite Z.div_div in D2 by lia.
           rewrite <- D2 in E2, E3. rewrite Z.div_div in E3 by lia.
           change (256 * 256) with (256 ^ 2) in *.
           change (256 ^ 2 * 256) with (256 ^ 3) in *.
           pose proof (push_data4 d) as P. rewrite E0, E1, E2, E3 in P.
           apply P. rewrite Hs. subst n. lia.
        -- cbn [app]. rewrite <- Hsplit. reflexivity.
Qed.

Lemma GetScriptOp_is_bytes pc op data rest :
  is_bytes pc -> GetScriptOp pc = Some (op, data, rest) ->
  is_byte op /\ is_bytes rest /\ (length rest < length pc)%nat.
Proof.
  intros Hb H. destruct pc as [|opcode pc1]; [discriminate|].
  apply is_bytes_cons in Hb. destruct Hb as [Hop Hb1].
  unfold GetScriptOp in H.
  destruct (opcode <=? OP_PUSHDATA4).
  - destruct (_ <? _)%nat; [discriminate|].
    destruct (size _ <? _); [discriminate|].
    inversion H; subst. split; [assumption|]. split.
    + apply is_bytes_skipn, is_bytes_skipn. assumption.
    + rewrite !length_skipn. cbn [length]. lia.
  - inversion H; subst. split; [assumption|]. split; [assumption|]. cbn. lia.
Qed.

Lemma GetScriptOp_opcode pc op data rest :
  GetScriptOp pc = Some (op, data, rest) ->
  exists l, pc = op :: l /\ (OP_PUSHDATA4 < op -> data = [] /\ rest = l).
Proof.
  intros H. destruct pc as [|opcode pc1]; [discriminate|].
  unfold GetScriptOp in H.
  destruct (Z.leb_spec opcode OP_PUSHDATA4).
  - destruct (_ <? _)%nat; [discriminate|].
    destruct (size _ <? _); [discriminate|].
    injection H as <- _ _. exists pc1. split; [reflexivity|lia].
  - injection H as <- <- <-. exists pc1. auto.
Qed.

Lemma IsSmallInteger_spec op :
  IsSmallInteger op = true <-> OP_1 <= op <= OP_16.
Proof.
  unfold IsSmallInteger. rewrite andb_true_iff, !Z.leb_le. tauto.
Qed.

Lemma IsSmallInteger_invalid : IsSmallInteger OP_INVALIDOPCODE = false.
Proof. reflexivity. Qed.

(** *** The key loop of [MatchMultisig] *)

Lemma multisig_keys_sound fuel : forall it keys0 op it' keys,
  is_bytes it ->
  multisig_keys fuel it keys0 = (op, it', keys) ->
  IsSmallInteger op = true ->
  exists newkeys pushes,
    keys = keys0 ++ newkeys /\ Forall well_sized newkeys /\
    Forall2 push_of newkeys pushes /\
    it = concat pushes ++ op :: it'.
Proof.
  induction fuel as [|k IH]; intros it keys0 op it' keys Hb H Hs.
  - cbn in H. injection H as <- _ _. discriminate.
  - cbn [multisig_keys] in H.
    destruct (GetScriptOp it) as [[[opcode data] it1]|] eqn:Hg.
    2:{ injection H as <- _ _. discriminate. }
    destruct (GetScriptOp_is_bytes _ _ _ _ Hb Hg) as (_ & Hb1 & _).
    destruct (CPubKey.ValidSize data) eqn:Hv.
    + destruct (IH _ _ _ _ _ Hb1 H Hs) as (nk & ps & Hk & Hw & Hp & Hit).
      apply ValidSize_well_sized in Hv.
      assert (Hd : 0 < size data) by (destruct (well_sized_size _ Hv); lia).
      destruct (GetScriptOp_sound _ _ _ _ Hb Hg Hd) as (p & Hpush & Hsplit).
      exists (data :: nk), (p :: ps). repeat split.
      * rewrite Hk, <- app_assoc. reflexivity.
      * constructor; assumption.
      * constructor; assumption.
      * cbn [concat]. rewrite <- app_assoc, <- Hit. exact Hsplit.
    + injection H as <- <- <-.
      destruct (GetScriptOp_opcode _ _ _ _ Hg) as (l & Hl & Hnp).
      apply IsSmallInteger_spec in Hs.
      destruct Hnp as [_ ->]; [unfold OP_PUSHDATA4, OP_1 in *; lia|].
      exists [], []. repeat split.
      * rewrite app_nil_r. reflexivity.
      * constructor.
      * constructor.
      * exact Hl.
Qed.

Lemma multisig_keys_complete keys pushes :
  Forall2 push_of keys pushes -> Forall well_sized keys ->
  forall fuel keys0 op rest,
    IsSmallInteger op = true -> (length keys < fuel)%nat ->
    multisig_keys fuel (concat pushes ++ op :: rest) keys0
    = (op, rest, keys0 ++ keys).
Proof.
  induction 1 as [|data p keys pushes Hp HF IH]; intros Hw fuel keys0 op rest Hs Hfuel.
  - destruct fuel as [|k]; [cbn in Hfuel; lia|].
    cbn [concat app multisig_keys].
    rewrite (GetScriptOp_small _ _ Hs), ValidSize_nil, app_nil_r. reflexivity.
  - destruct fuel as [|k]; [cbn in Hfuel; lia|].
    inversion Hw as [|? ? Hwd Hwk]; subst.
    cbn [concat multisig_keys]. rewrite <- app_assoc.
    destruct (GetScriptOp_push data p (concat pushes ++ op :: rest) Hp) as (o & Hg & _).
    rewrite Hg. cbv beta iota.
    apply ValidSize_well_sized in Hwd. rewrite Hwd.
    assert (Hk : (length keys < k)%nat) by (cbn [length] in Hfuel; lia).
    rewrite (IH Hwk k (keys0 ++ [data]) op rest Hs Hk).
    rewrite <- app_assoc. reflexivity.
Qed.

Lemma push_of_length data p : push_of data p -> (length data < length p)%nat.
Proof. intros [H|H|H|H]; cbn [length]; lia. Qed.

Lemma pushes_length keys pushes :
  Forall2 push_of keys pushes -> (length keys <= length (concat pushes))%nat.
Proof.
  induction 1 as [|data p keys pushes Hp _ IH]; [cbn; lia|].
  cbn [concat length]. rewrite length_app.
  pose proof (push_of_length _ _ Hp). lia.
Qed.

Lemma pushes_size keys pushes :
  Forall2 push_of keys pushes ->
  size (concat pushes) >= size (concat keys) + size keys.
Proof.
  induction 1 as [|data p keys pushes Hp _ IH]; [cbn; lia|].
  cbn [concat]. rewrite !size_app, size_cons.
  pose proof (push_of_length _ _ Hp). unfold size in *. lia.
Qed.

Lemma back_snoc l x : back (l ++ [x]) = x.
Proof. unfold back. apply last_last. Qed.

(** *** [MatchMultisig] accepts exactly the multisig shape *)

Lemma DecodeOP_N_small op :
  OP_1 <= op <= OP_16 -> DecodeOP_N op = op - (OP_1 - 1).
Proof.
  intros H. unfold DecodeOP_N. unfold OP_1, OP_16, OP_0 in *.
  destruct (Z.eqb_spec op 0); [lia|reflexivity].
Qed.

Lemma MatchMultisig_sound script required keys :
  is_bytes script ->
  MatchMultisig script = Some (required, keys) ->
  multisig_shape script required keys.
Proof.
  intros Hb H. unfold MatchMultisig in H.
  destruct (_ || _) eqn:Hguard; [discriminate|].
  apply orb_false_iff in Hguard. destruct Hguard as [_ Hback].
  apply negb_false_iff, Z.eqb_eq in Hback.
  destruct (GetScriptOp script) as [[[opcode data] it]|] eqn:Hg; [|discriminate].
  destruct (IsSmallInteger opcode) eqn:Hs1; [|discriminate]. cbn [negb] in H.
  destruct (multisig_keys (S (length it)) it []) as [[op2 it2] pubkeys] eqn:Hloop.
  destruct (IsSmallInteger op2) eqn:Hs2; [|discriminate]. cbn [negb] in H.
  destruct (_ || _) eqn:Hcount; [discriminate|].
  apply orb_false_iff in Hcount. destruct Hcount as [Hn Hm].
  apply negb_false_iff, Z.eqb_eq in Hn. apply Z.ltb_ge in Hm.
  destruct (Nat.eqb_spec (length it2) 1) as [Hlen|]; [|discriminate].
  injection H as <- <-.
  destruct (GetScriptOp_opcode _ _ _ _ Hg) as (l & Hl & Hnp).
  pose proof Hs1 as Hr1. apply IsSmallInteger_spec in Hr1.
  pose proof Hs2 as Hr2. apply IsSmallInteger_spec in Hr2.
  destruct Hnp as [_ ->]; [unfold OP_PUSHDATA4, OP_1 in *; lia|].
  destruct (GetScriptOp_is_bytes _ _ _ _ Hb Hg) as (_ & Hbit & _).
  destruct (multisig_keys_sound _ _ _ _ _ _ Hbit Hloop Hs2)
    as (nk & ps & Hk & Hw & Hp & Hit).
  cbn [app] in Hk. subst nk.
  rewrite (DecodeOP_N_small _ Hr1) in *. rewrite (DecodeOP_N_small _ Hr2) in *.
  destruct it2 as [|x [|? ?]]; try discriminate.
  assert (x = OP_CHECKMULTISIG).
  { rewrite <- Hback, Hl, Hit.
    replace (opcode :: concat ps ++ [op2; x])
      with ((opcode :: concat ps ++ [op2]) ++ [x])
      by (cbn [app]; rewrite <- app_assoc; reflexivity).
    symmetry. apply back_snoc. }
  subst x. unfold multisig_shape, OP_1, OP_16 in *.
  split; [lia|]. split; [lia|]. split; [exact Hw|].
  exists ps. split; [exact Hp|].
  rewrite Hl, Hit. cbn [app]. do 2 f_equal; [lia|]. do 2 f_equal. lia.
Qed.

Lemma MatchMultisig_complete script m keys :
  multisig_shape script m keys -> MatchMultisig script = Some (m, keys).
Proof.
  intros (Hm & Hn & Hw & pushes & Hp & ->).
  set (opm := OP_1 + m - 1). set (opn := OP_1 + size keys - 1).
  assert (Hsm : IsSmallInteger opm = true)
    by (apply IsSmallInteger_spec; subst opm; unfold OP_1, OP_16; lia).
  assert (Hsn : IsSmallInteger opn = true)
    by (apply IsSmallInteger_spec; subst opn; unfold OP_1, OP_16; lia).
  unfold MatchMultisig.
  replace ([opm] ++ concat pushes ++ [opn; OP_CHECKMULTISIG])
    with ((opm :: concat pushes ++ [opn]) ++ [OP_CHECKMULTISIG])
    by (cbn [app]; rewrite <- app_assoc; reflexivity).
  rewrite back_snoc, Z.eqb_refl, size_app, size_cons.
  destruct (Z.ltb_spec (1 + size (concat pushes ++ [opn]) + size [OP_CHECKMULTISIG]) 1)
    as [Hlt|_].
  { pose proof (size_nonneg (concat pushes ++ [opn])).
    change (size [OP_CHECKMULTISIG]) with 1 in Hlt. lia. }
  cbn [orb negb].
  replace ((opm :: concat pushes ++ [opn]) ++ [OP_CHECKMULTISIG])
    with (opm :: (concat pushes ++ opn :: [OP_CHECKMULTISIG]))
    by (cbn [app]; rewrite <- app_assoc; reflexivity).
  rewrite (GetScriptOp_small _ _ Hsm), Hsm. cbn [negb].
  rewrite (multisig_keys_complete keys pushes Hp Hw _ [] opn [OP_CHECKMULTISIG] Hsn).
  2:{ rewrite length_app. pose proof (pushes_length _ _ Hp). lia. }
  rewrite Hsn. cbn [negb app length Nat.eqb].
  rewrite !DecodeOP_N_small by (apply IsSmallInteger_spec; assumption).
  subst opm opn.
  replace (OP_1 + size keys - 1 - (OP_1 - 1)) with (size keys) by lia.
  replace (OP_1 + m - 1 - (OP_1 - 1)) with m by lia.
  rewrite Z.eqb_refl. cbn [negb orb].
  destruct (Z.ltb_spec (size keys) m); [lia|reflexivity].
Qed.

Lemma MatchMultisig_shape script m keys :
  is_bytes script ->
  (MatchMultisig script = Some (m, keys) <-> multisig_shape script m keys).
Proof.
  intros Hb. split; [apply MatchMultisig_sound; exact Hb|apply MatchMultisig_complete].
Qed.

(** *** No multisig script matches an earlier rule of [Solver] *)

Lemma push_of_head data p rest :
  push_of data p -> well_sized data ->
  (at_ (p ++ rest) 0 = 33 \/ 65 <= at_ (p ++ rest) 0 <= 78) /\ 34 <= size p.
Proof.
  intros Hp Hw. apply well_sized_size in Hw.
  destruct Hp as [H|H|H|H]; cbn [app at_ nth]; rewrite ?size_cons;
    unfold OP_PUSHDATA1, OP_PUSHDATA2, OP_PUSHDATA4; lia.
Qed.

Section Shape.
Variables (script : list Z) (m : Z) (keys : list (list Z)).
Hypothesis Hshape : multisig_shape script m keys.

Lemma shape_head : exists tl, script = (OP_1 + m - 1) :: tl.
Proof.
  destruct Hshape as (_ & _ & _ & pushes & _ & ->). eexists. reflexivity.
Qed.

Lemma shape_at0 : OP_1 <= at_ script 0 <= OP_16.
Proof.
  destruct shape_head as (tl & ->). cbn [at_ nth].
  destruct Hshape as (Hm & Hn & _). unfold OP_1, OP_16. lia.
Qed.

Lemma shape_second :
  (at_ script 1 = 33 \/ 65 <= at_ script 1 <= 78) /\ 37 <= size script.
Proof.
  destruct Hshape as (Hm & Hn & Hw & pushes & Hp & ->).
  destruct Hp as [|data p keys' pushes' Hp Hps]; [cbn in Hm; lia|].
  inversion Hw as [|? ? Hwd _]; subst.
  cbn [concat app at_ nth]. rewrite <- app_assoc.
  destruct (push_of_head data p (concat pushes' ++ [OP_1 + size (data :: keys') - 1; OP_CHECKMULTISIG]) Hp Hwd)
    as [Hhd Hsz].
  split.
  - destruct (p ++ _) eqn:E; [cbn in Hhd; lia|]. exact Hhd.
  - rewrite size_cons, !size_app, !size_cons, size_nil.
    pose proof (size_nonneg (concat pushes')). lia.
Qed.

Lemma shape_not_p2sh : IsPayToScriptHash script = false.
Proof.
  unfold IsPayToScriptHash. pose proof shape_at0 as H.
  destruct (Z.eqb_spec (at_ script 0) OP_HASH160) as [E|_].
  - unfold OP_HASH160, OP_16 in *. lia.
  - rewrite andb_false_r. reflexivity.
Qed.

Lemma shape_not_witness : IsWitnessProgram script = None.
Proof.
  unfold IsWitnessProgram. pose proof shape_at0 as H0.
  destruct shape_second as [H1 Hsz].
  destruct (_ || _) eqn:Hrange; [reflexivity|].
  apply orb_false_iff in Hrange. destruct Hrange as [_ Hmax].
  apply Z.ltb_ge in Hmax.
  destruct (_ && _); [reflexivity|].
  destruct (Z.eqb_spec (size_t (at_ script 1 + 2)) (size script)) as [E|]; [|reflexivity].
  exfalso. unfold size_t, SIZE_T_BITS in E.
  rewrite Z.mod_small in E by lia. lia.
Qed.

Lemma shape_not_null_data :
  (1 <=? size script) && (at_ script 0 =? OP_RETURN)
  && IsPushOnly (skipn 1 script) = false.
Proof.
  pose proof shape_at0 as H.
  destruct (Z.eqb_spec (at_ script 0) OP_RETURN) as [E|_].
  - unfold OP_RETURN, OP_16 in *. lia.
  - rewrite andb_false_r. reflexivity.
Qed.

Lemma shape_not_p2pk : MatchPayToPubkey script = None.
Proof.
  unfold MatchPayToPubkey. pose proof shape_at0 as H.
  unfold CPubKey.SIZE, CPubKey.COMPRESSED_SIZE, OP_1, OP_16 in *.
  destruct (Z.eqb_spec (at_ script 0) 65) as [E|_]; [lia|].
  destruct (Z.eqb_spec (at_ script 0) 33) as [E|_]; [lia|].
  rewrite !andb_false_r. reflexivity.
Qed.

Lemma shape_not_p2pkh : MatchPayToPubkeyHash script = None.
Proof.
  unfold MatchPayToPubkeyHash. pose proof shape_at0 as H.
  destruct (Z.eqb_spec (at_ script 0) OP_DUP) as [E|_].
  - unfold OP_DUP, OP_16 in *. lia.
  - rewrite andb_false_r. reflexivity.
Qed.

Lemma shape_Solver :
  Solver script = (MULTISIG, [[m]] ++ keys ++ [[size keys]]).
Proof.
  unfold Solver.
  rewrite shape_not_p2sh, shape_not_witness, shape_not_null_data,
    shape_not_p2pk, shape_not_p2pkh, (MatchMultisig_complete _ _ _ Hshape).
  destruct Hshape as (Hm & Hn & _).
  unfold to_uchar. rewrite !Z.mod_small by lia. reflexivity.
Qed.
End Shape.

Lemma Solver_MULTISIG_inv script sols :
  Solver script = (MULTISIG, sols) ->
  exists required keys,
    MatchMultisig script = Some (required, keys) /\
    sols = [[to_uchar required]] ++ keys ++ [[to_uchar (size keys)]].
Proof.
  unfold Solver. intros H.
  destruct (IsPayToScriptHash script); [discriminate|].
  destruct (IsWitnessProgram script) as [[v prog]|].
  { repeat (destruct (_ && _); [discriminate|]).
    destruct (negb _); discriminate. }
  destruct (_ && _); [discriminate|].
  destruct (MatchPayToPubkey script) as [[[|] ?]|]; try discriminate;
    (destruct (MatchPayToPubkeyHash script); [discriminate|]);
    (destruct (MatchMultisig script) as [[required keys]|]; [|discriminate]);
    injection H as <-; exists required, keys; auto.
Qed.

End ScriptFacts.

(** C5. [Solver] classifies a script as [MULTISIG] exactly when the script
    has the shape
    [<small int m> <push pubkey_1> ... <push pubkey_n> <small int n> OP_CHECKMULTISIG]
    with every pubkey well-sized, [1 <= m <= n <= 16] and no trailing bytes
    (no such script matches an earlier rule); the solutions returned are then
    [[m], pubkey_1, ..., pubkey_n, [n]]. *)
Theorem Solver_multisig_exactly (script : list Z) (sols : list (list Z)) :
  is_bytes script ->
  (Solver script = (MULTISIG, sols) <->
   exists m keys,
     multisig_shape script m keys /\ sols = [[m]] ++ keys ++ [[size keys]]).
Proof.
  intros Hb. split.
  - intros H.
    destruct (ScriptFacts.Solver_MULTISIG_inv script sols H) as (m & keys & HM & ->).
    apply ScriptFacts.MatchMultisig_sound in HM; [|exact Hb].
    exists m, keys. split; [exact HM|].
    destruct HM as (Hm & Hn & _).
    unfold to_uchar. rewrite !Z.mod_small by lia. reflexivity.
  - intros (m & keys & Hshape & ->).
    apply ScriptFacts.shape_Solver. exact Hshape.
Qed.

Lemma Solver_multisig_exactly_witness :
  let key := 2 :: repeat 7 32 in
  let script := [0x51; 33] ++ key ++ [0x51; 0xae] in
  is_bytes script /\
  (Solver script = (MULTISIG, [[1]; key; [1]]) <->
   exists m keys,
     multisig_shape script m keys /\ [[1]; key; [1]] = [[m]] ++ keys ++ [[size keys]]).
Proof.
  intros key script.
  assert (Hb : is_bytes script).
  { apply ScriptFacts.bytesb_spec. vm_compute. reflexivity. }
  split; [exact Hb|].
  apply (Solver_multisig_exactly script [[1]; key; [1]] Hb).
Defined.

(* ================================================================= *)
(** ** Decoding and extraction *)

Module DecodeFacts.

Lemma fail_ok script err : ok (fail script err) = false.
Proof. reflexivity. Qed.

Lemma Decode_empty : bech32.Decode "" = bech32.invalid.
Proof. reflexivity. Qed.

Lemma DecodeBase58Check_empty n : 0 <= n -> DecodeBase58Check "" n = None.
Proof.
  intros Hn. unfold DecodeBase58Check, DecodeBase58.
  change (codes "") with (@nil Z).
  cbn [map_option leading skipn repeat app number fold_left].
  change (digits 256 0) with (@nil Z). change (size (@nil Z)) with 0.
  destruct (Z.ltb_spec (n + 4) 0); [lia|]. reflexivity.
Qed.

Lemma is_bech32_empty params :
  is_bech32 "" params = true -> core.bech32_hrp params = ""%string.
Proof.
  unfold is_bech32. intros H.
  replace (substring 0 (String.length (core.bech32_hrp params)) "") with ""%string in H
    by (destruct (String.length _); reflexivity).
  apply String.eqb_eq in H. symmetry. exact H.
Qed.

Lemma DecodeDestination_empty script params :
  ok (DecodeDestination "" script params) = false.
Proof.
  unfold DecodeDestination.
  rewrite Decode_empty, (DecodeBase58Check_empty 21) by lia.
  unfold bech32.invalid. cbn [bech32.encoding is_bech32_encoding].
  repeat branch; reflexivity.
Qed.

Lemma IsValid_agrees str script params :
  IsValid str params = ok (DecodeDestination str script params).
Proof.
  destruct str as [|c str].
  - rewrite DecodeDestination_empty. reflexivity.
  - unfold IsValid, DecodeDestination.
    cbn [String.length Nat.eqb].
    repeat branch; try reflexivity; try discriminate.
Qed.

Lemma fail_atomic script err :
  err <> ""%string ->
  script_out (fail script err) = script /\ error_str (fail script err) <> ""%string.
Proof. intros H. split; [reflexivity|exact H]. Qed.

Lemma prefix_error_nonempty a b : prefix_error a b <> ""%string.
Proof. discriminate. Qed.
Lemma v0_size_error_nonempty n : v0_size_error n <> ""%string.
Proof. discriminate. Qed.
Lemma size_error_nonempty n : size_error n <> ""%string.
Proof. discriminate. Qed.

(** *** Strings and their codes *)

Lemma length_text l : String.length (text l) = length l.
Proof.
  unfold text. induction l as [|x l IH]; [reflexivity|].
  cbn [map string_of_list_ascii String.length length]. rewrite IH. reflexivity.
Qed.

Lemma codes_substring n : forall s, codes (substring 0 n s) = firstn n (codes s).
Proof.
  unfold codes. induction n as [|n IH]; intros s.
  - destruct s; reflexivity.
  - destruct s as [|c s]; [reflexivity|].
    cbn [substring list_ascii_of_string map firstn]. rewrite IH. reflexivity.
Qed.

Lemma rfind_lt x l pos : bech32.rfind x l = Some pos -> (pos < length l)%nat.
Proof.
  revert pos. induction l as [|y l IH]; intros pos H; [discriminate|].
  cbn [bech32.rfind] in H. destruct (bech32.rfind x l) as [i|].
  - injection H as <-. specialize (IH i eq_refl). cbn [length]. lia.
  - destruct (y =? x); [|discriminate]. injection H as <-. cbn [length]. lia.
Qed.

(** A string that [bech32::Decode] accepts starts, up to case, with the
    decoded human-readable part. *)
Lemma Decode_hrp str :
  is_bech32_encoding (bech32.encoding (bech32.Decode str)) = true ->
  bech32.ToLower (substring 0 (String.length (bech32.hrp (bech32.Decode str))) str)
  = bech32.hrp (bech32.Decode str).
Proof.
  unfold bech32.Decode.
  destruct (negb _); [discriminate|].
  destruct (_ && _); [discriminate|].
  destruct (bech32.rfind _ _) as [pos|] eqn:Hpos; [|discriminate].
  destruct (_ || _); [discriminate|].
  destruct (map_option _ _) as [values|]; [|discriminate].
  apply rfind_lt in Hpos. rewrite length_map in Hpos.
  assert (Hh : bech32.ToLower
                 (substring 0 (String.length
                                 (text (firstn pos (map bech32.LowerCase (codes str))))) str)
               = text (firstn pos (map bech32.LowerCase (codes str)))).
  { rewrite length_text, length_firstn, length_map, Nat.min_l by lia.
    unfold bech32.ToLower. rewrite codes_substring, firstn_map. reflexivity. }
  destruct (bech32.VerifyChecksum _ _); [discriminate| |];
    cbn [bech32.encoding bech32.hrp]; intros _; exact Hh.
Qed.

Lemma Decode_is_bech32 str params :
  is_bech32_encoding (bech32.encoding (bech32.Decode str)) = true ->
  bech32.hrp (bech32.Decode str) = core.bech32_hrp params ->
  is_bech32 str params = true.
Proof.
  intros He Hh. unfold is_bech32. rewrite <- Hh, (Decode_hrp str He).
  apply String.eqb_refl.
Qed.

(** The sink receives bytes: truncation to [unsigned char] changes nothing. *)
Lemma drain_out_bytes fuel t : 0 <= t <= 8 -> forall st,
  symbols 8 (Bits.out st) -> symbols 8 (Bits.out (Bits.drain fuel t st)).
Proof.
  intros Ht. induction fuel as [|k IH]; intros st Hst; [exact Hst|].
  cbn [Bits.drain]. destruct (t <=? Bits.bits st); [|exact Hst].
  apply IH. cbn [Bits.out]. apply BitsFacts.symbols_snoc; [exact Hst|].
  rewrite BitsFacts.land_maxv by lia.
  assert (0 < 2 ^ t) by (apply Z.pow_pos_nonneg; lia).
  assert (2 ^ t <= 2 ^ 8) by (apply BitsFacts.pow2_le; lia).
  pose proof (Z.mod_pos_bound (Z.shiftr (Bits.acc st) (size_t (Bits.bits st - t))) (2 ^ t)).
  lia.
Qed.

Lemma loop_out_bytes f t xs : 0 <= t <= 8 -> symbols 8 (Bits.out (Bits.loop f t xs)).
Proof.
  intros Ht. unfold Bits.loop.
  assert (H : symbols 8 (Bits.out Bits.init)) by constructor.
  revert H. generalize Bits.init. induction xs as [|x xs IH]; intros st Hst; [exact Hst|].
  cbn [fold_left]. apply IH. unfold Bits.step. apply drain_out_bytes; assumption.
Qed.

Lemma ConvertBits_out_bytes f t pad xs :
  0 <= t <= 8 -> symbols 8 (snd (ConvertBits f t pad xs)).
Proof.
  intros Ht. pose proof (loop_out_bytes f t xs Ht) as H.
  unfold ConvertBits, Bits.ConvertBits. cbn zeta.
  destruct pad.
  - destruct (_ =? 0); cbn [snd]; [exact H|].
    apply BitsFacts.symbols_snoc; [exact H|].
    unfold Bits.residual. rewrite BitsFacts.land_maxv by lia.
    assert (0 < 2 ^ t) by (apply Z.pow_pos_nonneg; lia).
    assert (2 ^ t <= 2 ^ 8) by (apply BitsFacts.pow2_le; lia).
    match goal with |- 0 <= ?a mod _ < _ =>
      pose proof (Z.mod_pos_bound a (2 ^ t)) end. lia.
  - destruct (_ || _); exact H.
Qed.

Lemma map_to_uchar l : symbols 8 l -> map to_uchar l = l.
Proof.
  induction 1 as [|x l Hx _ IH]; [reflexivity|].
  cbn [map]. rewrite IH. unfold to_uchar. rewrite Z.mod_small; [reflexivity|].
  change (2 ^ 8) with 256 in Hx. exact Hx.
Qed.

Lemma ConvertBits_bytes_eq f t pad xs :
  0 <= t <= 8 -> ConvertBits_bytes f t pad xs = ConvertBits f t pad xs.
Proof.
  intros Ht. unfold ConvertBits_bytes.
  rewrite (map_to_uchar _ (ConvertBits_out_bytes f t pad xs Ht)).
  destruct (ConvertBits f t pad xs); reflexivity.
Qed.

End DecodeFacts.

(** C2. [IsValid] returns true exactly when [DecodeDestination] returns true:
    the two accept the same strings, for every string (the empty one
    included), every parameter set and every value of the output script on
    entry. *)
Theorem IsValid_iff_DecodeDestination (a : string) (p : core.Params) (script : list Z) :
  IsValid a p = true <-> ok (DecodeDestination a script p) = true.
Proof. rewrite (DecodeFacts.IsValid_agrees a script p). tauto. Qed.

(** C9. [DecodeDestination] is atomic on failure: whenever it returns false
    the output script is exactly as it was on entry and the error string is
    a non-empty diagnostic. *)
Theorem DecodeDestination_failure_atomic (str : string) (script : list Z)
  (params : core.Params) :
  ok (DecodeDestination str script params) = false ->
  script_out (DecodeDestination str script params) = script
  /\ error_str (DecodeDestination str script params) <> ""%string.
Proof.
  unfold DecodeDestination.
  repeat branch;
    first [ discriminate
          | intros _; apply DecodeFacts.fail_atomic;
            first [ apply DecodeFacts.prefix_error_nonempty
                  | apply DecodeFacts.v0_size_error_nonempty
                  | apply DecodeFacts.size_error_nonempty
                  | discriminate ] ].
Qed.

Lemma DecodeDestination_failure_atomic_witness :
  ok (DecodeDestination "bc1gmk9yu" [7; 8; 9] mainnet) = false /\
  script_out (DecodeDestination "bc1gmk9yu" [7; 8; 9] mainnet) = [7; 8; 9]
  /\ error_str (DecodeDestination "bc1gmk9yu" [7; 8; 9] mainnet) <> ""%string.
Proof.
  assert (H : ok (DecodeDestination "bc1gmk9yu" [7; 8; 9] mainnet) = false)
    by (vm_compute; reflexivity).
  split; [exact H|].
  apply (DecodeDestination_failure_atomic "bc1gmk9yu" [7; 8; 9] mainnet H).
Defined.

(** C8. A string that reaches the Bech32 branch and decodes with encoding
    BECH32M, non-empty data and the human-readable part of the parameters is
    rejected when its witness version is 0: [DecodeDestination] returns false
    with the error "Version 0 witness address must use Bech32 checksum" and
    leaves the script as it was. *)
Theorem DecodeDestination_v0_bech32m (str : string) (script : list Z)
  (params : core.Params) :
  is_bech32 str params = true ->
  bech32.encoding (bech32.Decode str) = bech32.BECH32M ->
  bech32.data (bech32.Decode str) <> [] ->
  bech32.hrp (bech32.Decode str) = core.bech32_hrp params ->
  at_ (bech32.data (bech32.Decode str)) 0 = 0 ->
  DecodeDestination str script params
  = mk_decoded false script "Version 0 witness address must use Bech32 checksum".
Proof.
  intros Hb He Hd Hh Hv. unfold DecodeDestination.
  rewrite Hb, He, Hh, Hv, String.eqb_refl. cbn [negb is_bech32_encoding].
  destruct (bech32.data (bech32.Decode str)) as [|x l]; [contradiction|].
  unfold size. cbn [length]. destruct (Z.eqb_spec (Z.of_nat (S (length l))) 0); [lia|].
  reflexivity.
Qed.

Lemma DecodeDestination_v0_bech32m_witness :
  let str := "bc1qvt5s0v2uhuna2sjnn84ldu8m2r4m3rccqn9txx"%string in
  (is_bech32 str mainnet = true /\
   bech32.encoding (bech32.Decode str) = bech32.BECH32M /\
   bech32.data (bech32.Decode str) <> [] /\
   bech32.hrp (bech32.Decode str) = core.bech32_hrp mainnet /\
   at_ (bech32.data (bech32.Decode str)) 0 = 0) /\
  DecodeDestination str [] mainnet
  = mk_decoded false [] "Version 0 witness address must use Bech32 checksum".
Proof.
  intros str.
  assert (H1 : is_bech32 str mainnet = true) by (vm_compute; reflexivity).
  assert (H2 : bech32.encoding (bech32.Decode str) = bech32.BECH32M)
    by (vm_compute; reflexivity).
  assert (H3 : bech32.data (bech32.Decode str) <> []) by (vm_compute; discriminate).
  assert (H4 : bech32.hrp (bech32.Decode str) = core.bech32_hrp mainnet)
    by (vm_compute; reflexivity).
  assert (H5 : at_ (bech32.data (bech32.Decode str)) 0 = 0) by (vm_compute; reflexivity).
  split; [exact (conj H1 (conj H2 (conj H3 (conj H4 H5))))|].
  exact (DecodeDestination_v0_bech32m str [] mainnet H1 H2 H3 H4 H5).
Defined.

(** C7. A Bech32m string with the human-readable part of the parameters, a
    witness version [v] in [2, 16] (or [v = 1] with a program that is not 32
    bytes) and symbols that convert, 5 to 8 bits without padding, to a
    program [p] of 2 to 40 bytes decodes successfully: on an empty script
    [DecodeDestination] produces the byte [EncodeOP_N(v)] followed at once by
    the bytes of [p], with no length-push opcode in between. *)
Theorem DecodeDestination_witness_unknown (str : string) (params : core.Params)
  (v : Z) (syms p : list Z) :
  bech32.encoding (bech32.Decode str) = bech32.BECH32M ->
  bech32.hrp (bech32.Decode str) = core.bech32_hrp params ->
  bech32.data (bech32.Decode str) = v :: syms ->
  (2 <= v <= 16 \/ (v = 1 /\ size p <> 32)) ->
  ConvertBits 5 8 false syms = (true, p) ->
  2 <= size p <= 40 ->
  DecodeDestination str [] params = mk_decoded true (EncodeOP_N v :: p) ""
  /\ EncodeOP_N v = OP_1 + v - 1
  /\ size (EncodeOP_N v :: p) = 1 + size p.
Proof.
  intros He Hh Hd Hv Hc Hp.
  assert (Hb : is_bech32 str params = true).
  { apply DecodeFacts.Decode_is_bech32; [rewrite He; reflexivity|exact Hh]. }
  split; [|split].
  - unfold DecodeDestination.
    rewrite Hb, He, Hh, Hd, String.eqb_refl.
    cbn [negb is_bech32_encoding at_ nth skipn encoding_eqb andb].
    rewrite (DecodeFacts.ConvertBits_bytes_eq 5 8 false syms) by lia. rewrite Hc.
    unfold size at 1. cbn [length].
    destruct (Z.eqb_spec (Z.of_nat (S (length syms))) 0); [lia|].
    destruct (Z.eqb_spec v 0); [lia|]. cbn [negb andb].
    unfold WITNESS_V1_TAPROOT_SIZE, BECH32_WITNESS_PROG_MAX_LEN.
    replace ((v =? 1) && (size p =? 32)) with false.
    2:{ symmetry. apply andb_false_iff.
        destruct Hv as [Hv|[Hv Hs]]; [left|right]; apply Z.eqb_neq; lia. }
    destruct (Z.ltb_spec 16 v); [lia|].
    destruct (Z.ltb_spec (size p) 2); [lia|].
    destruct (Z.ltb_spec 40 (size p)); [lia|].
    cbn [orb]. unfold insert_at. cbn [app firstn skipn].
    rewrite app_nil_r. reflexivity.
  - unfold EncodeOP_N. destruct (Z.eqb_spec v 0); [lia|reflexivity].
  - apply ScriptFacts.size_cons.
Qed.

Lemma DecodeDestination_witness_unknown_witness :
  let str := "bc1z5cyxnuxmeuwuvkwfem96lqzszd02n6xdcjrs20cac6yqjjwudpxq7y5vkg"%string in
  let v := 2 in
  let syms := skipn 1 (bech32.data (bech32.Decode str)) in
  let p := snd (ConvertBits 5 8 false syms) in
  (bech32.encoding (bech32.Decode str) = bech32.BECH32M /\
   bech32.hrp (bech32.Decode str) = core.bech32_hrp mainnet /\
   bech32.data (bech32.Decode str) = v :: syms /\
   (2 <= v <= 16 \/ (v = 1 /\ size p <> 32)) /\
   ConvertBits 5 8 false syms = (true, p) /\
   2 <= size p <= 40) /\
  DecodeDestination str [] mainnet = mk_decoded true (EncodeOP_N v :: p) ""
  /\ EncodeOP_N v = OP_1 + v - 1
  /\ size (EncodeOP_N v :: p) = 1 + size p.
Proof.
  intros str v syms p.
  assert (H1 : bech32.encoding (bech32.Decode str) = bech32.BECH32M)
    by (vm_compute; reflexivity).
  assert (H2 : bech32.hrp (bech32.Decode str) = core.bech32_hrp mainnet)
    by (vm_compute; reflexivity).
  assert (H3 : bech32.data (bech32.Decode str) = v :: syms) by (vm_compute; reflexivity).
  assert (H4 : 2 <= v <= 16 \/ (v = 1 /\ size p <> 32)) by (left; unfold v; lia).
  assert (H5 : ConvertBits 5 8 false syms = (true, p)) by (vm_compute; reflexivity).
  assert (H6 : 2 <= size p <= 40) by (vm_compute; split; discriminate).
  split; [exact (conj H1 (conj H2 (conj H3 (conj H4 (conj H5 H6)))))|].
  exact (DecodeDestination_witness_unknown str mainnet v syms p H1 H2 H3 H4 H5 H6).
Defined.

Module ExtractFacts.

Lemma multisig_keys_valid fuel : forall it keys0 op it' keys,
  multisig_keys fuel it keys0 = (op, it', keys) ->
  Forall (fun k => CPubKey.ValidSize k = true) keys0 ->
  Forall (fun k => CPubKey.ValidSize k = true) keys.
Proof.
  induction fuel as [|n IH]; intros it keys0 op it' keys H H0.
  - cbn in H. injection H as _ _ <-. exact H0.
  - cbn [multisig_keys] in H.
    destruct (GetScriptOp it) as [[[opcode data] it1]|].
    2:{ injection H as _ _ <-. exact H0. }
    destruct (CPubKey.ValidSize data) eqn:Hv.
    + apply (IH _ _ _ _ _ H). apply Forall_app. split; [exact H0|].
      constructor; [exact Hv|constructor].
    + injection H as _ _ <-. exact H0.
Qed.

(** Every key [MatchMultisig] returns is well-sized, and there are between
    1 and 16 of them. *)
Lemma MatchMultisig_keys script required keys :
  MatchMultisig script = Some (required, keys) ->
  Forall well_sized keys /\ 1 <= size keys <= 16 /\ 1 <= required <= size keys.
Proof.
  intros H. unfold MatchMultisig in H.
  destruct (_ || _); [discriminate|].
  destruct (GetScriptOp script) as [[[opcode data] it]|]; [|discriminate].
  destruct (IsSmallInteger opcode) eqn:Hs1; [|discriminate]. cbn [negb] in H.
  destruct (multisig_keys (S (length it)) it []) as [[op2 it2] pubkeys] eqn:Hloop.
  destruct (IsSmallInteger op2) eqn:Hs2; [|discriminate]. cbn [negb] in H.
  destruct (_ || _) eqn:Hcount; [discriminate|].
  apply orb_false_iff in Hcount. destruct Hcount as [Hn Hm].
  apply negb_false_iff, Z.eqb_eq in Hn. apply Z.ltb_ge in Hm.
  destruct (_ =? _)%nat; [|discriminate].
  injection H as <- <-.
  apply ScriptFacts.IsSmallInteger_spec in Hs1, Hs2.
  rewrite (ScriptFacts.DecodeOP_N_small _ Hs1) in *.
  rewrite (ScriptFacts.DecodeOP_N_small _ Hs2) in *.
  split.
  - apply multisig_keys_valid in Hloop; [|constructor].
    eapply Forall_impl; [|exact Hloop].
    intros k Hk. apply ScriptFacts.ValidSize_well_sized. exact Hk.
  - unfold OP_1, OP_16 in *. lia.
Qed.

Lemma middle (a : list Z) (keys : list (list Z)) (b : list Z) :
  firstn (length ([a] ++ keys ++ [b]) - 2) (skipn 1 ([a] ++ keys ++ [b])) = keys.
Proof.
  cbn [app skipn length]. rewrite length_app. cbn [length].
  replace (S (length keys + 1) - 2)%nat with (length keys) by lia.
  rewrite firstn_app, Nat.sub_diag, firstn_all. cbn. apply app_nil_r.
Qed.

Lemma multisig_addresses_all params keys :
  Forall well_sized keys ->
  multisig_addresses params keys
  = map (fun k => EncodeBase58Check
                    (core.base58Prefixes params core.PUBKEY_ADDRESS ++ k)) keys.
Proof.
  induction 1 as [|k keys Hk _ IH]; [reflexivity|].
  cbn [multisig_addresses map]. rewrite IH.
  apply ScriptFacts.well_sized_size in Hk.
  destruct (Z.eqb_spec (size k) 0); [lia|reflexivity].
Qed.

Lemma ExtractDestination_MULTISIG script params addressRet sols :
  Solver script = (MULTISIG, sols) ->
  exists m keys,
    sols = [[m]] ++ keys ++ [[size keys]] /\
    Forall well_sized keys /\ 1 <= size keys <= 16 /\
    ExtractDestination script params addressRet
    = (false,
       addressRet
       ++ map (fun k => EncodeBase58Check
                          (core.base58Prefixes params core.PUBKEY_ADDRESS ++ k)) keys).
Proof.
  intros H.
  destruct (ScriptFacts.Solver_MULTISIG_inv script sols H) as (m & keys & HM & Hsols).
  destruct (MatchMultisig_keys script m keys HM) as (Hw & Hn & Hm).
  exists m, keys.
  assert (Hsols' : sols = [[m]] ++ keys ++ [[size keys]]).
  { rewrite Hsols. unfold to_uchar. rewrite !Z.mod_small by lia. reflexivity. }
  split; [exact Hsols'|]. split; [exact Hw|]. split; [exact Hn|].
  unfold ExtractDestination. rewrite H, Hsols', middle.
  rewrite (multisig_addresses_all params keys Hw). reflexivity.
Qed.

Lemma Solver_PUBKEY_inv script sols :
  Solver script = (PUBKEY, sols) ->
  exists k, sols = [k] /\ well_sized k.
Proof.
  unfold Solver. intros H.
  destruct (IsPayToScriptHash script); [discriminate|].
  destruct (IsWitnessProgram script) as [[v prog]|].
  { repeat (destruct (_ && _); [discriminate|]).
    destruct (negb _); discriminate. }
  destruct (_ && _); [discriminate|].
  destruct (MatchPayToPubkey script) as [[[|] k]|] eqn:HM.
  - injection H as <-. exists k. split; [reflexivity|].
    apply ScriptFacts.ValidSize_well_sized.
    unfold MatchPayToPubkey in HM.
    destruct (_ && _); [injection HM as HM <-; exact HM|].
    destruct (_ && _); [injection HM as HM <-; exact HM|discriminate].
  - destruct (MatchPayToPubkeyHash script); [discriminate|].
    destruct (MatchMultisig script) as [[? ?]|]; discriminate.
  - destruct (MatchPayToPubkeyHash script); [discriminate|].
    destruct (MatchMultisig script) as [[? ?]|]; discriminate.
Qed.

End ExtractFacts.

(** C6. For a script that [Solver] classifies as [MULTISIG],
    [ExtractDestination] appends one Base58Check address per embedded pubkey
    (the [PUBKEY_ADDRESS] prefix followed by the whole pubkey) and returns
    false, although at least one address was appended. *)
Theorem ExtractDestination_multisig (script : list Z) (params : core.Params)
  (addressRet : list string) (sols : list (list Z)) :
  Solver script = (MULTISIG, sols) ->
  exists m keys,
    sols = [[m]] ++ keys ++ [[size keys]] /\
    1 <= size keys /\
    ExtractDestination script params addressRet
    = (false,
       addressRet
       ++ map (fun k => EncodeBase58Check
                          (core.base58Prefixes params core.PUBKEY_ADDRESS ++ k)) keys).
Proof.
  intros H.
  destruct (ExtractFacts.ExtractDestination_MULTISIG script params addressRet sols H)
    as (m & keys & Hs & _ & Hn & He).
  exists m, keys. split; [exact Hs|]. split; [lia|exact He].
Qed.

Lemma ExtractDestination_multisig_witness :
  Solver example_multisig = (MULTISIG, [[1]; example_key; [1]]) /\
  exists m keys,
    [[1]; example_key; [1]] = [[m]] ++ keys ++ [[size keys]] /\
    1 <= size keys /\
    ExtractDestination example_multisig mainnet []
    = (false,
       [] ++ map (fun k => EncodeBase58Check
                          (core.base58Prefixes mainnet core.PUBKEY_ADDRESS ++ k)) keys).
Proof.
  assert (H : Solver example_multisig = (MULTISIG, [[1]; example_key; [1]]))
    by (vm_compute; reflexivity).
  split; [exact H|].
  apply (ExtractDestination_multisig example_multisig mainnet [] [[1]; example_key; [1]] H).
Defined.

(** C10. Every pubkey [Solver] returns is 33 or 65 bytes, so the emptiness
    guards of [ExtractDestination] never fire: for a [PUBKEY] script it
    returns true with exactly one address appended, and for a [MULTISIG]
    script with n keys exactly n addresses are appended. *)
Theorem pubkey_solutions_nonempty (script : list Z) (params : core.Params)
  (addressRet : list string) (sols : list (list Z)) :
  (Solver script = (PUBKEY, sols) ->
   exists k,
     sols = [k] /\ (size k = 33 \/ size k = 65) /\
     ExtractDestination script params addressRet
     = (true, addressRet
              ++ [EncodeBase58Check
                    (core.base58Prefixes params core.PUBKEY_ADDRESS ++ k)]))
  /\
  (Solver script = (MULTISIG, sols) ->
   exists m keys added,
     sols = [[m]] ++ keys ++ [[size keys]] /\
     Forall (fun k => size k = 33 \/ size k = 65) keys /\
     ExtractDestination script params addressRet = (false, addressRet ++ added) /\
     length added = length keys).
Proof.
  split; intros H.
  - destruct (ExtractFacts.Solver_PUBKEY_inv script sols H) as (k & -> & Hk).
    exists k. apply ScriptFacts.well_sized_size in Hk.
    split; [reflexivity|]. split; [exact Hk|].
    unfold ExtractDestination. rewrite H. cbn [nth].
    destruct (Z.eqb_spec (size k) 0); [lia|reflexivity].
  - destruct (ExtractFacts.ExtractDestination_MULTISIG script params addressRet sols H)
      as (m & keys & Hs & Hw & _ & He).
    exists m, keys. eexists. split; [exact Hs|]. split; [|split; [exact He|]].
    + eapply Forall_impl; [|exact Hw]. intros k. apply ScriptFacts.well_sized_size.
    + apply length_map.
Qed.

Lemma pubkey_solutions_nonempty_witness :
  (Solver example_p2pk = (PUBKEY, [example_key]) /\
   exists k,
     [example_key] = [k] /\ (size k = 33 \/ size k = 65) /\
     ExtractDestination example_p2pk mainnet []
     = (true, [] ++ [EncodeBase58Check
                       (core.base58Prefixes mainnet core.PUBKEY_ADDRESS ++ k)]))
  /\
  (Solver example_multisig = (MULTISIG, [[1]; example_key; [1]]) /\
   exists m keys added,
     [[1]; example_key; [1]] = [[m]] ++ keys ++ [[size keys]] /\
     Forall (fun k => size k = 33 \/ size k = 65) keys /\
     ExtractDestination example_multisig mainnet [] = (false, [] ++ added) /\
     length added = length keys).
Proof.
  assert (H1 : Solver example_p2pk = (PUBKEY, [example_key]))
    by (vm_compute; reflexivity).
  assert (H2 : Solver example_multisig = (MULTISIG, [[1]; example_key; [1]]))
    by (vm_compute; reflexivity).
  split; (split; [assumption|]).
  - apply (proj1 (pubkey_solutions_nonempty example_p2pk mainnet [] [example_key]) H1).
  - apply (proj2 (pubkey_solutions_nonempty example_multisig mainnet []
                    [[1]; example_key; [1]]) H2).
Defined.

(* ================================================================= *)
(** ** Strings, number systems and Base58 *)

Module StringFacts.

Lemma code_chr z : is_byte z -> code (chr z) = z.
Proof.
  unfold is_byte, code, chr. intros H.
  rewrite N_ascii_embedding by lia. lia.
Qed.

Lemma chr_code c : chr (code c) = c.
Proof. unfold code, chr. rewrite N2Z.id. apply ascii_N_embedding. Qed.

Lemma code_byte c : is_byte (code c).
Proof.
  unfold is_byte, code. pose proof (N_ascii_bounded c). lia.
Qed.

Lemma codes_text l : is_bytes l -> codes (text l) = l.
Proof.
  unfold codes, text. intros H.
  rewrite list_ascii_of_string_of_list_ascii, map_map.
  induction H as [|x l Hx _ IH]; [reflexivity|].
  cbn [map]. rewrite IH, code_chr by exact Hx. reflexivity.
Qed.

Lemma text_codes s : text (codes s) = s.
Proof.
  unfold codes, text. rewrite map_map.
  rewrite (map_ext _ (fun c => c) chr_code), map_id.
  apply string_of_list_ascii_of_string.
Qed.

Lemma codes_bytes s : is_bytes (codes s).
Proof.
  unfold codes, is_bytes. apply Forall_map, Forall_forall.
  intros c _. apply code_byte.
Qed.

End StringFacts.

(** ** Positional number systems *)
Module RadixFacts.
Import Radix.

Section Base.
Variable b : Z.
Hypothesis Hb : 2 <= b.

Local Abbreviation in_range := (Radix.in_range b).
Local Abbreviation canonical := (Radix.canonical b).

Lemma number_snoc ds d : number b (ds ++ [d]) = number b ds * b + d.
Proof. unfold number. rewrite fold_left_app. reflexivity. Qed.

Lemma number_nonneg ds : in_range ds -> 0 <= number b ds.
Proof.
  induction ds as [|d ds IH] using rev_ind; intros H; [cbn; lia|].
  apply Forall_app in H. destruct H as [H Hd]. inversion Hd; subst.
  rewrite number_snoc. specialize (IH H). nia.
Qed.

Lemma canonical_snoc ds d : canonical (ds ++ [d]) -> canonical ds /\ 0 <= d < b.
Proof.
  intros [Hr Hh]. apply Forall_app in Hr. destruct Hr as [Hr Hd].
  inversion Hd; subst. split; [|assumption]. split; [exact Hr|].
  destruct ds as [|x ds]; [left; reflexivity|right].
  destruct Hh as [Hh|Hh]; [discriminate|exact Hh].
Qed.

Lemma number_pos ds : canonical ds -> ds <> [] -> 0 < number b ds.
Proof.
  induction ds as [|d ds IH] using rev_ind; intros Hc Hne; [contradiction|].
  destruct (canonical_snoc _ _ Hc) as [Hc' Hd].
  rewrite number_snoc.
  destruct ds as [|x ds].
  - destruct Hc as [_ [Hh|Hh]]; [discriminate|]. cbn in *. lia.
  - assert (0 < number b (x :: ds)) by (apply IH; [exact Hc'|discriminate]). nia.
Qed.

Lemma div_fuel fuel n :
  0 < n -> fuel_ok (S fuel) n -> fuel_ok fuel (n / b).
Proof.
  intros Hn [H|H]; [lia|].
  destruct (Z.eq_dec (n / b) 0) as [E|E]; [left; lia|right].
  assert (Hq : 0 < n / b) by (pose proof (Z.div_pos n b); lia).
  assert (Hle : n / b <= n / 2).
  { apply Z.div_le_compat_l; lia. }
  assert (H2 : Z.log2 (n / 2) = Z.log2 n - 1).
  { rewrite <- Z.div2_div, Z.div2_spec, Z.log2_shiftr by lia.
    pose proof (Z.log2_nonneg n).
    assert (0 < Z.log2 n).
    { apply Z.log2_pos. destruct (Z.eq_dec n 1) as [->|]; [|lia].
      rewrite Z.div_small in E by lia. lia. }
    lia. }
  pose proof (Z.log2_le_mono _ _ Hle). lia.
Qed.

(** The digits of [n], most significant first, in front of [acc]. *)
Lemma to_digits_number fuel : forall n acc,
  0 <= n -> fuel_ok fuel n ->
  fold_left (fun a d => a * b + d) (to_digits fuel b n acc) 0
  = fold_left (fun a d => a * b + d) acc n.
Proof.
  induction fuel as [|k IH]; intros n acc Hn Hf.
  - destruct Hf as [Hf|Hf].
    + cbn. replace n with 0 by lia. reflexivity.
    + pose proof (Z.log2_nonneg n). lia.
  - cbn [to_digits]. destruct (Z.leb_spec n 0) as [H0|H0].
    + replace n with 0 by lia. reflexivity.
    + rewrite IH.
      * cbn [fold_left]. f_equal.
        pose proof (Z.div_mod n b). lia.
      * apply Z.div_pos; lia.
      * apply div_fuel; assumption.
Qed.

Lemma number_digits n : 0 <= n -> number b (digits b n) = n.
Proof.
  intros Hn. unfold number, digits.
  rewrite to_digits_number; [reflexivity|exact Hn|].
  right. pose proof (Z.log2_nonneg n). lia.
Qed.

Lemma to_digits_canonical ds : canonical ds -> forall fuel acc,
  fuel_ok fuel (number b ds) ->
  to_digits fuel b (number b ds) acc = ds ++ acc.
Proof.
  induction ds as [|d ds IH] using rev_ind; intros Hc fuel acc Hf.
  - cbn. destruct fuel; reflexivity.
  - destruct (canonical_snoc _ _ Hc) as [Hc' Hd].
    assert (Hpos : 0 < number b (ds ++ [d]))
      by (apply number_pos; [exact Hc|destruct ds; discriminate]).
    destruct fuel as [|k].
    { destruct Hf as [Hf|Hf]; [lia|]. pose proof (Z.log2_nonneg (number b (ds ++ [d]))). lia. }
    cbn [to_digits]. destruct (Z.leb_spec (number b (ds ++ [d])) 0); [lia|].
    pose proof (div_fuel k _ Hpos Hf) as Hf'.
    rewrite number_snoc in *.
    assert (Hq : (number b ds * b + d) / b = number b ds).
    { rewrite Z.div_add_l by lia. rewrite Z.div_small by lia. lia. }
    assert (Hr : (number b ds * b + d) mod b = d).
    { rewrite Z.add_comm, Z.mod_add by lia. apply Z.mod_small; lia. }
    rewrite Hq, Hr in *. rewrite IH by assumption.
    rewrite <- app_assoc. reflexivity.
Qed.

Lemma digits_number ds : canonical ds -> digits b (number b ds) = ds.
Proof.
  intros Hc. unfold digits.
  rewrite to_digits_canonical; [apply app_nil_r|exact Hc|].
  right. pose proof (Z.log2_nonneg (number b ds)). lia.
Qed.

Lemma to_digits_range fuel : forall n acc,
  in_range acc -> in_range (to_digits fuel b n acc).
Proof.
  induction fuel as [|k IH]; intros n acc Ha; [exact Ha|].
  cbn [to_digits]. destruct (n <=? 0); [exact Ha|].
  apply IH. constructor; [|exact Ha]. apply Z.mod_pos_bound. lia.
Qed.

Lemma to_digits_split fuel : forall n acc,
  0 <= n -> fuel_ok fuel n ->
  exists D, to_digits fuel b n acc = D ++ acc /\ canonical D /\ (0 < n -> D <> []).
Proof.
  induction fuel as [|k IH]; intros n acc Hn Hf.
  - exists []. split; [reflexivity|]. split; [split; [constructor|left; reflexivity]|].
    intros H0. destruct Hf as [Hf|Hf]; [lia|]. pose proof (Z.log2_nonneg n). lia.
  - cbn [to_digits]. destruct (Z.leb_spec n 0) as [H0|H0].
    + exists []. split; [reflexivity|].
      split; [split; [constructor|left; reflexivity]|lia].
    + pose proof (div_fuel k n H0 Hf) as Hf'.
      assert (Hq : 0 <= n / b) by (apply Z.div_pos; lia).
      destruct (IH (n / b) (n mod b :: acc) Hq Hf') as (D & HD & [Hr Hh] & Hne).
      assert (Hm : 0 <= n mod b < b) by (apply Z.mod_pos_bound; lia).
      exists (D ++ [n mod b]). split; [rewrite HD, <- app_assoc; reflexivity|].
      split; [|destruct D; discriminate].
      split; [apply Forall_app; split; [exact Hr|constructor; [exact Hm|constructor]]|].
      right. destruct D as [|x D].
      * cbn [app hd].
        destruct (Z.eq_dec (n / b) 0) as [E|E].
        -- pose proof (Z.div_mod n b). lia.
        -- exfalso. apply Hne; [lia|reflexivity].
      * destruct Hh as [Hh|Hh]; [discriminate|exact Hh].
Qed.

Lemma digits_canonical n : 0 <= n -> canonical (digits b n).
Proof.
  intros Hn. unfold digits.
  destruct (to_digits_split (S (Z.to_nat (Z.log2 n))) n [] Hn) as (D & HD & Hc & _).
  - right. pose proof (Z.log2_nonneg n). lia.
  - rewrite HD, app_nil_r. exact Hc.
Qed.

End Base.
End RadixFacts.

(** ** Base58 *)
Module Base58Facts.
Import StringFacts.

Lemma leading_split x l :
  l = repeat x (leading x l) ++ skipn (leading x l) l
  /\ (skipn (leading x l) l = [] \/ hd x (skipn (leading x l) l) <> x).
Proof.
  induction l as [|y l [IH1 IH2]]; [split; [reflexivity|left; reflexivity]|].
  cbn [leading]. destruct (Z.eqb_spec y x) as [->|Hne].
  - cbn [repeat skipn app]. split; [f_equal; exact IH1|exact IH2].
  - cbn [repeat skipn app hd]. split; [reflexivity|right; exact Hne].
Qed.

Lemma leading_repeat x n l :
  (l = [] \/ hd x l <> x) -> leading x (repeat x n ++ l) = n.
Proof.
  intros Hl. induction n as [|n IH].
  - cbn [repeat app]. destruct l as [|y l]; [reflexivity|].
    cbn [leading]. destruct Hl as [Hl|Hl]; [discriminate|].
    cbn [hd] in Hl. destruct (Z.eqb_spec y x); [contradiction|reflexivity].
  - cbn [repeat app leading]. rewrite Z.eqb_refl, IH. reflexivity.
Qed.

Lemma skipn_repeat_app {A} (x : A) n l : skipn n (repeat x n ++ l) = l.
Proof. induction n; [reflexivity|exact IHn]. Qed.

(** The alphabet has 58 distinct characters, the first of which is ['1']. *)
Lemma alphabet_table :
  forallb (fun d => match index_of (alpha d) pszBase58 with
                    | Some i => (i =? d) && (0 <=? alpha d) && (alpha d <? 256)
                    | None => false
                    end)
          (map Z.of_nat (seq 0 58)) = true.
Proof. vm_compute. reflexivity. Qed.

Lemma alpha_spec d :
  0 <= d < 58 -> index_of (alpha d) pszBase58 = Some d /\ is_byte (alpha d).
Proof.
  intros Hd. pose proof alphabet_table as H.
  rewrite forallb_forall in H. specialize (H d).
  assert (Hin : In d (map Z.of_nat (seq 0 58))).
  { apply in_map_iff. exists (Z.to_nat d). split; [lia|].
    apply in_seq. lia. }
  specialize (H Hin).
  destruct (index_of (alpha d) pszBase58) as [i|]; [|discriminate].
  apply andb_true_iff in H. destruct H as [H H2].
  apply andb_true_iff in H. destruct H as [H0 H1].
  apply Z.eqb_eq in H0. apply Z.leb_le in H1. apply Z.ltb_lt in H2.
  subst i. split; [reflexivity|split; assumption].
Qed.

Lemma one_is_zero : code "1" = alpha 0.
Proof. reflexivity. Qed.

Lemma map_option_alpha ds :
  Radix.in_range 58 ds ->
  map_option (fun c => index_of c pszBase58) (map alpha ds) = Some ds
  /\ is_bytes (map alpha ds).
Proof.
  induction 1 as [|d ds Hd _ [IH1 IH2]]; [split; [reflexivity|constructor]|].
  destruct (alpha_spec d Hd) as [Hi Hb].
  cbn [map map_option]. rewrite Hi, IH1. split; [reflexivity|].
  constructor; assumption.
Qed.

Lemma map_option_app {A B} (f : A -> option B) l1 l2 r1 r2 :
  map_option f l1 = Some r1 -> map_option f l2 = Some r2 ->
  map_option f (l1 ++ l2) = Some (r1 ++ r2).
Proof.
  revert r1. induction l1 as [|x l1 IH]; intros r1 H1 H2.
  - injection H1 as <-. exact H2.
  - cbn [map_option app] in *. destruct (f x); [|discriminate].
    destruct (map_option f l1) as [r|]; [|discriminate].
    injection H1 as <-. rewrite (IH r eq_refl H2). reflexivity.
Qed.

Lemma map_option_ones n :
  map_option (fun c => index_of c pszBase58) (repeat (code "1") n) = Some (repeat 0 n)
  /\ is_bytes (repeat (code "1") n).
Proof.
  induction n as [|n [IH1 IH2]]; [split; [reflexivity|constructor]|].
  cbn [repeat map_option]. rewrite IH1. split; [reflexivity|].
  constructor; [|exact IH2]. unfold is_byte. cbn. lia.
Qed.

Lemma is_bytes_range l : is_bytes l <-> Radix.in_range 256 l.
Proof. reflexivity. Qed.

Lemma hd_byte l : is_bytes l -> 0 <= hd 0 l < 256.
Proof. intros [|x r Hx _]; cbn [hd]; [lia|exact Hx]. Qed.

(** Decoding what [EncodeBase58] produced gives the bytes back. *)
Lemma DecodeBase58_EncodeBase58 input max_ret_len :
  is_bytes input -> size input <= max_ret_len ->
  DecodeBase58 (EncodeBase58 input) max_ret_len = Some input.
Proof.
  intros Hb Hmax. unfold EncodeBase58, DecodeBase58.
  set (z := leading 0 input). set (rest := skipn z input).
  destruct (leading_split 0 input) as [Hsplit Hhead]. fold z rest in Hsplit, Hhead.
  assert (Hrest : is_bytes rest) by (apply ScriptFacts.is_bytes_skipn; exact Hb).
  assert (Hcan : Radix.canonical 256 rest).
  { split; [exact Hrest|]. destruct Hhead as [Hh|Hh]; [left; exact Hh|right].
    pose proof (hd_byte rest Hrest). lia. }
  set (n := number 256 rest).
  assert (Hn : 0 <= n) by (apply RadixFacts.number_nonneg; [lia|exact Hrest]).
  destruct (RadixFacts.digits_canonical 58 ltac:(lia) n Hn) as [Hr58 Hh58].
  destruct (map_option_alpha _ Hr58) as [Hmo Hab].
  destruct (map_option_ones z) as [Hones Hob].
  fold alpha.
  rewrite codes_text by (apply ScriptFacts.is_bytes_app; split; assumption).
  rewrite (map_option_app _ _ _ _ _ Hones Hmo).
  rewrite leading_repeat.
  2:{ destruct Hh58 as [Hh|Hh]; [left; exact Hh|right; lia]. }
  rewrite skipn_repeat_app.
  rewrite (RadixFacts.number_digits 58 ltac:(lia) n Hn).
  subst n. rewrite (RadixFacts.digits_number 256 ltac:(lia) rest Hcan).
  rewrite <- Hsplit.
  destruct (Z.ltb_spec max_ret_len (size input)); [lia|reflexivity].
Qed.

(** *** The checksum *)

Lemma be_bytes_spec n z :
  length (SHA256.be_bytes n z) = n /\ is_bytes (SHA256.be_bytes n z).
Proof.
  unfold SHA256.be_bytes. split.
  - rewrite length_map, length_rev, length_seq. reflexivity.
  - apply Forall_map, Forall_forall. intros i _. unfold is_byte.
    apply Z.mod_pos_bound. lia.
Qed.

Lemma sha256_spec msg :
  length (SHA256.sha256 msg) = 32%nat /\ is_bytes (SHA256.sha256 msg).
Proof.
  unfold SHA256.sha256, SHA256.digest. cbn zeta. split.
  - rewrite !length_app. rewrite !(proj1 (be_bytes_spec 4 _)). reflexivity.
  - repeat (apply ScriptFacts.is_bytes_app; split); apply be_bytes_spec.
Qed.

Lemma checksum_spec data :
  length (firstn 4 (Hash data)) = 4%nat /\ is_bytes (firstn 4 (Hash data)).
Proof.
  unfold Hash. destruct (sha256_spec (SHA256.sha256 data)) as [Hl Hb]. split.
  - rewrite length_firstn, Hl. reflexivity.
  - apply ScriptFacts.is_bytes_firstn. exact Hb.
Qed.




End Base58Facts.

(* ================================================================= *)
(** ** Bech32 *)

Module Bech32Facts.
Import bech32 StringFacts.

(** *** The checksum is linear over GF(2) *)

Lemma land_lxor_distr_r a b c :
  Z.land (Z.lxor a b) c = Z.lxor (Z.land a c) (Z.land b c).
Proof.
  apply Z.bits_inj'. intros n _.
  rewrite !Z.lxor_spec, !Z.land_spec, !Z.lxor_spec.
  destruct (Z.testbit a n), (Z.testbit b n), (Z.testbit c n); reflexivity.
Qed.

Lemma lxor_bound k a b :
  0 <= k -> 0 <= a < 2 ^ k -> 0 <= b < 2 ^ k -> 0 <= Z.lxor a b < 2 ^ k.
Proof.
  intros Hk Ha Hb.
  assert (H0 : 0 <= Z.lxor a b) by (apply Z.lxor_nonneg; lia).
  split; [exact H0|].
  destruct (Z.eq_dec (Z.lxor a b) 0) as [E|E].
  - rewrite E. apply Z.pow_pos_nonneg; lia.
  - assert (Hk0 : 0 < k).
    { destruct (Z.eq_dec k 0) as [->|]; [|lia].
      change (2 ^ 0) with 1 in *.
      assert (a = 0) by lia. assert (b = 0) by lia. subst. contradiction. }
    apply Z.log2_lt_pow2; [lia|].
    pose proof (Z.log2_lxor a b ltac:(lia) ltac:(lia)) as Hl.
    assert (Z.log2 a < k).
    { destruct (Z.eq_dec a 0) as [->|]; [cbn; lia|]. apply Z.log2_lt_pow2; lia. }
    assert (Z.log2 b < k).
    { destruct (Z.eq_dec b 0) as [->|]; [cbn; lia|]. apply Z.log2_lt_pow2; lia. }
    lia.
Qed.

Lemma feedback_bound c0 : 0 <= feedback c0 < 2 ^ 30.
Proof.
  unfold feedback, GEN. cbn [seq combine map fold_left fst snd Z.of_nat].
  destruct (Z.testbit c0 _), (Z.testbit c0 _), (Z.testbit c0 _),
    (Z.testbit c0 _), (Z.testbit c0 _);
    (split; [apply Z.leb_le|apply Z.ltb_lt]; vm_compute; reflexivity).
Qed.

Lemma mask25 : 0x1ffffff = Z.ones 25.
Proof. reflexivity. Qed.

Lemma PolyMod_step_bound c v :
  0 <= c -> 0 <= v < 32 -> 0 <= PolyMod_step c v < 2 ^ 30.
Proof.
  intros Hc Hv. unfold PolyMod_step.
  apply lxor_bound; [lia| |apply feedback_bound].
  apply lxor_bound; [lia| |change (2 ^ 30) with 1073741824; lia].
  rewrite mask25, Z.land_ones, Z.shiftl_mul_pow2 by lia.
  pose proof (Z.mod_pos_bound c (2 ^ 25) ltac:(lia)).
  change (2 ^ 30) with (2 ^ 25 * 2 ^ 5). nia.
Qed.

Lemma lxor_shift_add a v : 0 <= v < 32 -> Z.lxor (Z.shiftl a 5) v = a * 32 + v.
Proof.
  intros Hv. rewrite Z.shiftl_mul_pow2 by lia. change (2 ^ 5) with 32.
  assert (H0 : Z.land (a * 32) v = 0).
  { apply Z.bits_inj'. intros n Hn. rewrite Z.land_spec, Z.bits_0.
    destruct (Z.lt_ge_cases n 5) as [Hlt|Hge].
    - change 32 with (2 ^ 5). rewrite <- Z.shiftl_mul_pow2 by lia.
      rewrite Z.shiftl_spec_low by lia. reflexivity.
    - rewrite (BitsFacts.testbit_small v 5 n) by (change (2 ^ 5) with 32; lia).
      apply andb_false_r. }
  symmetry. apply Z.add_nocarry_lxor. exact H0.
Qed.

(** Changing the state by [d < 2^25] and the symbol by [w] changes the next
    state by [(d << 5) xor w]. *)
Lemma PolyMod_step_lxor c d v w :
  0 <= d < 2 ^ 25 ->
  PolyMod_step (Z.lxor c d) (Z.lxor v w)
  = Z.lxor (PolyMod_step c v) (Z.lxor (Z.shiftl d 5) w).
Proof.
  intros Hd. unfold PolyMod_step.
  rewrite land_lxor_distr_r, Z.shiftl_lxor, Z.shiftr_lxor.
  replace (Z.land d 0x1ffffff) with d
    by (rewrite mask25, Z.land_ones, Z.mod_small by lia; reflexivity).
  replace (Z.shiftr d 25) with 0
    by (rewrite Z.shiftr_div_pow2, Z.div_small by lia; reflexivity).
  rewrite Z.lxor_0_r.
  apply Z.bits_inj'. intros n _. rewrite !Z.lxor_spec.
  destruct (Z.testbit _ n), (Z.testbit _ n), (Z.testbit _ n), (Z.testbit _ n),
    (Z.testbit _ n); reflexivity.
Qed.

Lemma value_bound w l :
  0 <= w -> symbols w l -> 0 <= value w l < 2 ^ (w * Z.of_nat (length l)).
Proof.
  intros Hw. induction l as [|x l IH] using rev_ind; intros Hl.
  - cbn. lia.
  - apply Forall_app in Hl. destruct Hl as [Hl Hx]. inversion Hx; subst.
    rewrite BitsFacts.value_snoc, length_app. cbn [length].
    replace (w * Z.of_nat (length l + 1)) with (w * Z.of_nat (length l) + w) by lia.
    rewrite Z.pow_add_r by lia. specialize (IH Hl).
    assert (0 < 2 ^ w) by (apply Z.pow_pos_nonneg; lia). nia.
Qed.

(** Up to six symbols after a state only add their value to what six zero
    symbols give. *)
Lemma PolyMod_tail vs : symbols 5 vs -> (length vs <= 6)%nat -> forall c,
  fold_left PolyMod_step vs c
  = Z.lxor (fold_left PolyMod_step (repeat 0 (length vs)) c) (value 5 vs).
Proof.
  induction vs as [|v vs IH] using rev_ind; intros Hs Hlen c.
  - cbn. rewrite Z.lxor_0_r. reflexivity.
  - apply Forall_app in Hs. destruct Hs as [Hs Hv]. inversion Hv as [|? ? Hv5 _]; subst.
    rewrite length_app in *. cbn [length] in *.
    rewrite repeat_app, !fold_left_app. cbn [repeat fold_left].
    rewrite IH by (assumption || lia).
    pose proof (value_bound 5 vs ltac:(lia) Hs) as Hb.
    assert (Hb25 : 0 <= value 5 vs < 2 ^ 25).
    { split; [lia|]. eapply Z.lt_le_trans; [apply Hb|].
      apply BitsFacts.pow2_le. lia. }
    change (2 ^ 5) with 32 in Hv5.
    rewrite <- (Z.lxor_0_l v) at 1.
    rewrite PolyMod_step_lxor by exact Hb25.
    rewrite lxor_shift_add by exact Hv5.
    rewrite BitsFacts.value_snoc. reflexivity.
Qed.

Lemma PolyMod_fold_bound vs : symbols 5 vs -> forall c,
  0 <= c -> 0 <= fold_left PolyMod_step vs c
            /\ (vs <> [] -> fold_left PolyMod_step vs c < 2 ^ 30).
Proof.
  induction 1 as [|v vs Hv _ IH]; intros c Hc.
  - cbn. split; [exact Hc|contradiction].
  - cbn [fold_left]. change (2 ^ 5) with 32 in Hv.
    pose proof (PolyMod_step_bound c v Hc Hv) as Hb.
    destruct (IH (PolyMod_step c v) ltac:(lia)) as [H0 H1].
    split; [exact H0|]. intros _.
    destruct vs as [|x vs]; [cbn; lia|]. apply H1. discriminate.
Qed.

Lemma checksum_of_spec m :
  0 <= m < 2 ^ 30 ->
  symbols 5 (checksum_of m) /\ length (checksum_of m) = 6%nat
  /\ value 5 (checksum_of m) = m.
Proof.
  intros Hm.
  change (checksum_of m)
    with [Z.land (Z.shiftr m 25) (Z.ones 5); Z.land (Z.shiftr m 20) (Z.ones 5);
          Z.land (Z.shiftr m 15) (Z.ones 5); Z.land (Z.shiftr m 10) (Z.ones 5);
          Z.land (Z.shiftr m 5) (Z.ones 5); Z.land (Z.shiftr m 0) (Z.ones 5)].
  rewrite !Z.land_ones by lia.
  rewrite !Z.shiftr_div_pow2 by lia.
  change (2 ^ 5) with 32.
  split; [|split; [reflexivity|]].
  - repeat (apply Forall_cons; [apply Z.mod_pos_bound; lia|]). apply Forall_nil.
  - unfold value. cbn [fold_left]. change (2 ^ 5) with 32.
    change (2 ^ 0) with 1. rewrite Z.div_1_r.
    change (2 ^ 25) with (32 * (32 * (32 * (32 * 32)))).
    change (2 ^ 20) with (32 * (32 * (32 * 32))).
    change (2 ^ 15) with (32 * (32 * 32)).
    change (2 ^ 10) with (32 * 32).
    rewrite <- !Z.div_div by lia.
    pose proof (Z.div_mod m 32).
    pose proof (Z.div_mod (m / 32) 32).
    pose proof (Z.div_mod (m / 32 / 32) 32).
    pose proof (Z.div_mod (m / 32 / 32 / 32) 32).
    pose proof (Z.div_mod (m / 32 / 32 / 32 / 32) 32).
    assert (m / 32 / 32 / 32 / 32 / 32 < 32).
    { rewrite !Z.div_div by lia. apply Z.div_lt_upper_bound; [lia|].
      change (2 ^ 30) with 1073741824 in Hm. lia. }
    assert (0 <= m / 32 / 32 / 32 / 32 / 32).
    { repeat apply Z.div_pos; lia. }
    rewrite (Z.mod_small (m / 32 / 32 / 32 / 32 / 32)) by lia.
    lia.
Qed.

Lemma ExpandHRP_symbols h : is_bytes h -> symbols 5 (ExpandHRP h).
Proof.
  intros Hh. unfold ExpandHRP, symbols.
  apply Forall_app. split; [|apply Forall_app; split].
  - apply Forall_map. eapply Forall_impl; [|exact Hh].
    intros c Hc. unfold is_byte in Hc. rewrite Z.shiftr_div_pow2 by lia.
    change (2 ^ 5) with 32. split.
    + apply Z.div_pos; lia.
    + apply Z.div_lt_upper_bound; lia.
  - constructor; [change (2 ^ 5) with 32; lia|constructor].
  - apply Forall_map. eapply Forall_impl; [|exact Hh].
    intros c Hc. change 31 with (Z.ones 5). rewrite Z.land_ones by lia.
    apply Z.mod_pos_bound. lia.
Qed.

(** The checksum [CreateChecksum] appends makes [VerifyChecksum] return the
    encoding it was created for. *)
Lemma VerifyChecksum_CreateChecksum enc h values :
  enc <> INVALID -> is_bytes h -> symbols 5 values ->
  VerifyChecksum h (values ++ CreateChecksum enc h values) = enc
  /\ symbols 5 (CreateChecksum enc h values)
  /\ length (CreateChecksum enc h values) = 6%nat.
Proof.
  intros Henc Hh Hv.
  unfold VerifyChecksum, CreateChecksum. cbn zeta.
  set (pre := ExpandHRP h ++ values).
  assert (Hpre : symbols 5 pre).
  { apply Forall_app. split; [apply ExpandHRP_symbols; exact Hh|exact Hv]. }
  replace (ExpandHRP h ++ values ++ repeat 0 6) with (pre ++ repeat 0 6)
    by (subst pre; rewrite <- app_assoc; reflexivity).
  replace (ExpandHRP h ++ values ++ _) with
    (pre ++ checksum_of (Z.lxor (PolyMod (pre ++ repeat 0 6)) (EncodingConstant enc)))
    by (subst pre; rewrite <- app_assoc; reflexivity).
  fold (checksum_of (Z.lxor (PolyMod (pre ++ repeat 0 6)) (EncodingConstant enc))).
  unfold PolyMod. rewrite !fold_left_app.
  set (c := fold_left PolyMod_step pre 1).
  assert (Hc : 0 <= c) by (apply PolyMod_fold_bound; [exact Hpre|lia]).
  set (z := fold_left PolyMod_step (repeat 0 6) c).
  assert (Hz : 0 <= z < 2 ^ 30).
  { assert (Hs0 : symbols 5 (repeat 0 6))
      by (repeat constructor; change (2 ^ 5) with 32; lia).
    destruct (PolyMod_fold_bound (repeat 0 6) Hs0 c Hc) as [H0 H1].
    split; [exact H0|apply H1; discriminate]. }
  assert (Hk : 0 <= EncodingConstant enc < 2 ^ 30).
  { destruct enc; cbn; lia. }
  pose proof (lxor_bound 30 z (EncodingConstant enc) ltac:(lia) Hz Hk) as Hm.
  destruct (checksum_of_spec _ Hm) as (Hcs & Hcl & Hcv).
  split; [|split; assumption].
  rewrite (PolyMod_tail _ Hcs) by lia. rewrite Hcl, Hcv. fold z.
  replace (Z.lxor z (Z.lxor z (EncodingConstant enc))) with (EncodingConstant enc)
    by (rewrite <- Z.lxor_assoc, Z.lxor_nilpotent, Z.lxor_0_l; reflexivity).
  destruct enc; [contradiction|reflexivity|reflexivity].
Qed.

(** *** Decoding an encoded string *)

Lemma charset_table :
  forallb (fun v => match index_of (charset v) CHARSET with
                    | Some i => (i =? v) && printable (charset v)
                                && negb (is_upper (charset v))
                                && negb (charset v =? code "1")
                    | None => false
                    end)
          (map Z.of_nat (seq 0 32)) = true.
Proof. vm_compute. reflexivity. Qed.

Lemma charset_spec v :
  0 <= v < 32 ->
  index_of (charset v) CHARSET = Some v /\ printable (charset v) = true
  /\ is_upper (charset v) = false /\ charset v <> code "1".
Proof.
  intros Hv. pose proof charset_table as H.
  rewrite forallb_forall in H. specialize (H v).
  assert (Hin : In v (map Z.of_nat (seq 0 32))).
  { apply in_map_iff. exists (Z.to_nat v). split; [lia|]. apply in_seq. lia. }
  specialize (H Hin).
  destruct (index_of (charset v) CHARSET) as [i|]; [|discriminate].
  apply andb_true_iff in H. destruct H as [H H4].
  apply andb_true_iff in H. destruct H as [H H3].
  apply andb_true_iff in H. destruct H as [H1 H2].
  apply Z.eqb_eq in H1. apply negb_true_iff in H3, H4. apply Z.eqb_neq in H4.
  subst i. repeat split; assumption.
Qed.

Lemma printable_byte c : printable c = true -> is_byte c.
Proof.
  unfold printable, is_byte. intros H. apply andb_true_iff in H.
  destruct H as [H1 H2]. apply Z.leb_le in H1, H2. lia.
Qed.

Lemma LowerCase_not_upper c : is_upper c = false -> LowerCase c = c.
Proof. unfold LowerCase, is_upper. intros ->. reflexivity. Qed.

Lemma hrp_char_spec c :
  hrp_char c -> printable c = true /\ is_upper c = false.
Proof.
  unfold hrp_char, printable, is_upper. intros [Hp Hu]. split.
  - apply andb_true_iff. split; apply Z.leb_le; lia.
  - apply andb_false_iff.
    destruct (Z.leb_spec (code "A") c); [|left; reflexivity].
    destruct (Z.leb_spec c (code "Z")); [|right; reflexivity].
    exfalso. apply Hu. lia.
Qed.

Lemma plain_app a b : plain a -> plain b -> plain (a ++ b).
Proof.
  intros [Ha1 Ha2] [Hb1 Hb2]. split.
  - rewrite forallb_app, Ha1, Hb1. reflexivity.
  - rewrite existsb_app, Ha2, Hb2. reflexivity.
Qed.

Lemma plain_hrp h : Forall hrp_char h -> plain h.
Proof.
  induction 1 as [|c h Hc _ [IH1 IH2]]; [split; reflexivity|].
  destruct (hrp_char_spec c Hc) as [Hp Hu].
  split; cbn [forallb existsb]; [rewrite Hp, IH1|rewrite Hu, IH2]; reflexivity.
Qed.

Lemma plain_charset vs : symbols 5 vs -> plain (map charset vs).
Proof.
  induction 1 as [|v vs Hv _ [IH1 IH2]]; [split; reflexivity|].
  change (2 ^ 5) with 32 in Hv.
  destruct (charset_spec v Hv) as (_ & Hp & Hu & _).
  split; cbn [map forallb existsb]; [rewrite Hp, IH1|rewrite Hu, IH2]; reflexivity.
Qed.

Lemma plain_one : plain [code "1"].
Proof. split; reflexivity. Qed.

Lemma plain_bytes s : plain s -> is_bytes s.
Proof.
  intros [Hp _]. rewrite forallb_forall in Hp.
  apply Forall_forall. intros c Hc. apply printable_byte, Hp, Hc.
Qed.

Lemma plain_lower s : plain s -> map LowerCase s = s.
Proof.
  intros [_ Hu]. induction s as [|c s IH]; [reflexivity|].
  cbn [existsb] in Hu. apply orb_false_iff in Hu. destruct Hu as [Hc Hs].
  cbn [map]. rewrite (LowerCase_not_upper c Hc), (IH Hs). reflexivity.
Qed.

Lemma rfind_app_some x a l i :
  rfind x l = Some i -> rfind x (a ++ l) = Some (length a + i)%nat.
Proof.
  intros H. induction a as [|y a IH]; [exact H|].
  cbn [app rfind length]. rewrite IH. reflexivity.
Qed.

Lemma rfind_charset vs : symbols 5 vs -> rfind (code "1") (map charset vs) = None.
Proof.
  induction 1 as [|v vs Hv _ IH]; [reflexivity|].
  change (2 ^ 5) with 32 in Hv.
  destruct (charset_spec v Hv) as (_ & _ & _ & Hne).
  cbn [map rfind]. rewrite IH.
  destruct (Z.eqb_spec (charset v) (code "1")); [contradiction|reflexivity].
Qed.

Lemma rfind_separator h vs :
  symbols 5 vs ->
  rfind (code "1") (h ++ [code "1"] ++ map charset vs) = Some (length h).
Proof.
  intros Hvs. rewrite (rfind_app_some _ h _ 0%nat); [f_equal; lia|].
  cbn [app rfind]. rewrite (rfind_charset vs Hvs), Z.eqb_refl. reflexivity.
Qed.

Lemma map_option_charset vs :
  symbols 5 vs ->
  map_option (fun c => index_of c CHARSET) (map charset vs) = Some vs.
Proof.
  induction 1 as [|v vs Hv _ IH]; [reflexivity|].
  change (2 ^ 5) with 32 in Hv.
  destruct (charset_spec v Hv) as (Hi & _).
  cbn [map map_option]. rewrite Hi, IH. reflexivity.
Qed.

Lemma length_codes s : length (codes s) = String.length s.
Proof.
  unfold codes. rewrite length_map.
  induction s as [|c s IH]; [reflexivity|]. cbn. rewrite IH. reflexivity.
Qed.

(** [bech32::Decode] inverts [bech32::Encode] on a valid human-readable
    part and 5-bit symbols, as long as the string has at most 90
    characters. *)
Lemma Decode_Encode enc hrp values :
  enc <> INVALID ->
  Forall hrp_char (codes hrp) -> (1 <= String.length hrp)%nat ->
  symbols 5 values ->
  (String.length hrp + length values + 7 <= 90)%nat ->
  Decode (Encode enc hrp values) = mk enc hrp values.
Proof.
  intros Henc Hh Hne Hv Hlen.
  set (h := codes hrp) in *.
  assert (Hhl : length h = String.length hrp) by apply length_codes.
  destruct (VerifyChecksum_CreateChecksum enc h values Henc (codes_bytes hrp) Hv)
    as (Hver & Hcs & Hcl).
  set (cs := CreateChecksum enc h values) in *.
  assert (Hall : symbols 5 (values ++ cs)) by (apply Forall_app; split; assumption).
  set (s := h ++ [code "1"] ++ map charset (values ++ cs)).
  assert (Hplain : plain s).
  { apply plain_app; [apply plain_hrp; exact Hh|].
    apply plain_app; [apply plain_one|apply plain_charset; exact Hall]. }
  assert (Hs : codes (Encode enc hrp values) = s).
  { unfold Encode. cbn zeta. fold h cs. fold charset.
    apply codes_text, plain_bytes, Hplain. }
  unfold Decode. rewrite Hs.
  rewrite (plain_printable s Hplain), (plain_no_upper s Hplain), andb_false_r.
  cbn [negb]. rewrite (plain_lower s Hplain).
  unfold s at 1. rewrite (rfind_separator h (values ++ cs) Hall).
  assert (Hsl : length s = (length h + 1 + (length values + 6))%nat).
  { unfold s. rewrite !length_app, length_map, length_app, Hcl. cbn [length]. lia. }
  rewrite Hsl.
  destruct (Nat.ltb_spec 90 (length h + 1 + (length values + 6))); [lia|].
  destruct (Nat.eqb_spec (length h) 0); [lia|].
  destruct (Nat.ltb_spec (length h + 1 + (length values + 6)) (length h + 7)); [lia|].
  cbn [orb].
  assert (Hfirst : firstn (length h) s = h).
  { unfold s. rewrite firstn_app, Nat.sub_diag, firstn_all. cbn. apply app_nil_r. }
  assert (Hskip : skipn (S (length h)) s = map charset (values ++ cs)).
  { unfold s. rewrite skipn_app, skipn_all2 by lia.
    replace (S (length h) - length h)%nat with 1%nat by lia. reflexivity. }
  rewrite Hfirst, Hskip, (map_option_charset _ Hall), Hver.
  assert (Hdata : firstn (length (values ++ cs) - 6) (values ++ cs) = values).
  { rewrite length_app, Hcl.
    replace (length values + 6 - 6)%nat with (length values) by lia.
    rewrite firstn_app, Nat.sub_diag, firstn_all. cbn. apply app_nil_r. }
  rewrite Hdata. unfold h. rewrite text_codes.
  destruct enc; [contradiction|reflexivity|reflexivity].
Qed.

End Bech32Facts.

(* ================================================================= *)
(** ** The single-address round trip *)

Module RoundTripFacts.
Import ScriptFacts.

(** *** Reading a script of known length back from its bytes *)

Lemma skipn_uncons k (l : list Z) :
  (k < length l)%nat -> skipn k l = at_ l k :: skipn (S k) l.
Proof.
  revert l. induction k as [|k IH]; intros l Hk.
  - destruct l; [cbn in Hk; lia|reflexivity].
  - destruct l as [|x l]; [cbn in Hk; lia|].
    cbn [length] in Hk. cbn [skipn]. unfold at_. cbn [nth].
    apply IH. lia.
Qed.

Lemma skipn_split k m (l : list Z) :
  skipn k l = firstn m (skipn k l) ++ skipn (k + m) l.
Proof.
  rewrite <- (firstn_skipn m (skipn k l)) at 1.
  rewrite skipn_skipn. do 2 f_equal. lia.
Qed.

Lemma size_eq (l : list Z) n : (size l =? n) = true -> length l = Z.to_nat n /\ 0 <= n.
Proof. unfold size. intros H. apply Z.eqb_eq in H. lia. Qed.

Lemma slice_length (l : list Z) a b :
  (a <= b <= length l)%nat -> length (slice l a b) = (b - a)%nat.
Proof. intros H. unfold slice. rewrite length_firstn, length_skipn. lia. Qed.

Lemma IsPayToScriptHash_inv s :
  IsPayToScriptHash s = true ->
  length (slice s 2 22) = 20%nat
  /\ s = [OP_HASH160; 0x14] ++ slice s 2 22 ++ [OP_EQUAL].
Proof.
  unfold IsPayToScriptHash. intros H.
  apply andb_true_iff in H. destruct H as [H H22].
  apply andb_true_iff in H. destruct H as [H H1].
  apply andb_true_iff in H. destruct H as [Hsz H0].
  apply size_eq in Hsz. destruct Hsz as [Hlen _].
  change (Z.to_nat 23) with 23%nat in Hlen.
  apply Z.eqb_eq in H0, H1, H22.
  split; [apply slice_length; lia|].
  rewrite <- (skipn_O s) at 1.
  rewrite (skipn_uncons 0 s), (skipn_uncons 1 s) by lia.
  rewrite (skipn_split 2 20 s). change (2 + 20)%nat with 22%nat.
  rewrite (skipn_uncons 22 s) by lia.
  rewrite (skipn_all2 s (n := 23)) by lia.
  rewrite H0, H1, H22. reflexivity.
Qed.

Lemma MatchPayToPubkeyHash_inv s h :
  MatchPayToPubkeyHash s = Some h ->
  length h = 20%nat
  /\ s = [OP_DUP; OP_HASH160; 20] ++ h ++ [OP_EQUALVERIFY; OP_CHECKSIG].
Proof.
  unfold MatchPayToPubkeyHash. intros H.
  destruct (_ && _) eqn:E; [|discriminate]. injection H as <-.
  apply andb_true_iff in E. destruct E as [E H24].
  apply andb_true_iff in E. destruct E as [E H23].
  apply andb_true_iff in E. destruct E as [E H2].
  apply andb_true_iff in E. destruct E as [E H1].
  apply andb_true_iff in E. destruct E as [Hsz H0].
  apply size_eq in Hsz. destruct Hsz as [Hlen _].
  change (Z.to_nat 25) with 25%nat in Hlen.
  apply Z.eqb_eq in H0, H1, H2, H23, H24.
  split; [apply slice_length; lia|].
  rewrite <- (skipn_O s) at 1.
  rewrite (skipn_uncons 0 s), (skipn_uncons 1 s), (skipn_uncons 2 s) by lia.
  rewrite (skipn_split 3 20 s). change (3 + 20)%nat with 23%nat.
  rewrite (skipn_uncons 23 s), (skipn_uncons 24 s) by lia.
  rewrite (skipn_all2 s (n := 25)) by lia.
  rewrite H0, H1, H2, H23, H24. reflexivity.
Qed.

Lemma at_byte (s : list Z) i : is_bytes s -> is_byte (at_ s i).
Proof.
  intros H. unfold at_. destruct (Nat.lt_ge_cases i (length s)) as [Hi|Hi].
  - apply (proj1 (Forall_forall _ _) H). apply nth_In. exact Hi.
  - rewrite nth_overflow by exact Hi. unfold is_byte. lia.
Qed.

Lemma IsWitnessProgram_inv s v p :
  is_bytes s -> IsWitnessProgram s = Some (v, p) ->
  s = at_ s 0 :: size p :: p /\ v = DecodeOP_N (at_ s 0)
  /\ (at_ s 0 = OP_0 \/ OP_1 <= at_ s 0 <= OP_16).
Proof.
  intros Hb H. unfold IsWitnessProgram in H.
  destruct (_ || _) eqn:Hrange; [discriminate|].
  apply orb_false_iff in Hrange. destruct Hrange as [Hmin Hmax].
  apply Z.ltb_ge in Hmin, Hmax. unfold size in Hmin, Hmax.
  destruct (_ && _) eqn:Hop; [discriminate|].
  destruct (Z.eqb_spec (size_t (at_ s 1 + 2)) (size s)) as [Hsz|]; [|discriminate].
  assert (Hv : v = DecodeOP_N (at_ s 0)) by congruence.
  assert (Hp : p = skipn 2 s) by congruence.
  clear H. subst v p.
  pose proof (at_byte s 1 Hb) as H1. unfold is_byte in H1.
  unfold size_t, SIZE_T_BITS in Hsz. rewrite Z.mod_small in Hsz by lia.
  split; [|split; [reflexivity|]].
  - rewrite <- (skipn_O s) at 1.
    rewrite (skipn_uncons 0 s), (skipn_uncons 1 s) by lia.
    do 2 f_equal. unfold size in *. rewrite length_skipn. lia.
  - apply andb_false_iff in Hop. destruct Hop as [Hop|Hop].
    + apply negb_false_iff, Z.eqb_eq in Hop. left. exact Hop.
    + apply orb_false_iff in Hop. destruct Hop as [Ha Hb'].
      apply Z.ltb_ge in Ha, Hb'. right. lia.
Qed.

(** *** What [Solver] returns for the five kinds *)

Lemma Solver_SCRIPTHASH s sols :
  Solver s = (SCRIPTHASH, sols) ->
  exists h, length h = 20%nat /\ sols = [h]
            /\ s = [OP_HASH160; 0x14] ++ h ++ [OP_EQUAL].
Proof.
  unfold Solver. intros H.
  destruct (IsPayToScriptHash s) eqn:E.
  - injection H as <-. destruct (IsPayToScriptHash_inv s E) as [Hl Hs].
    exists (slice s 2 22). auto.
  - destruct (IsWitnessProgram s) as [[v prog]|].
    { repeat (destruct (_ && _); [discriminate|]).
      destruct (negb _); discriminate. }
    destruct (_ && _); [discriminate|].
    destruct (MatchPayToPubkey s) as [[[|] ?]|]; try discriminate;
      (destruct (MatchPayToPubkeyHash s); [discriminate|]);
      (destruct (MatchMultisig s) as [[? ?]|]; discriminate).
Qed.

Lemma Solver_PUBKEYHASH s sols :
  Solver s = (PUBKEYHASH, sols) ->
  exists h, length h = 20%nat /\ sols = [h]
            /\ s = [OP_DUP; OP_HASH160; 20] ++ h ++ [OP_EQUALVERIFY; OP_CHECKSIG].
Proof.
  unfold Solver. intros H.
  destruct (IsPayToScriptHash s); [discriminate|].
  destruct (IsWitnessProgram s) as [[v prog]|].
  { repeat (destruct (_ && _); [discriminate|]).
    destruct (negb _); discriminate. }
  destruct (_ && _); [discriminate|].
  destruct (MatchPayToPubkey s) as [[[|] ?]|]; try discriminate;
    (destruct (MatchPayToPubkeyHash s) as [h|] eqn:E;
     [|destruct (MatchMultisig s) as [[? ?]|]; discriminate]);
    injection H as <-; destruct (MatchPayToPubkeyHash_inv s h E) as [Hl Hs];
    exists h; auto.
Qed.

Lemma Solver_witness s t sols :
  is_bytes s -> Solver s = (t, sols) -> Bech32_kind t ->
  exists v n p,
    sols = [p] /\ size p = n /\ s = EncodeOP_N v :: n :: p /\
    ((t = WITNESS_V0_KEYHASH /\ v = 0 /\ n = 20)
     \/ (t = WITNESS_V0_SCRIPTHASH /\ v = 0 /\ n = 32)
     \/ (t = WITNESS_V1_TAPROOT /\ v = 1 /\ n = 32)).
Proof.
  intros Hb H Hk. unfold Solver in H.
  destruct (IsPayToScriptHash s).
  { injection H as <- _. destruct Hk as [Hk|[Hk|Hk]]; discriminate. }
  destruct (IsWitnessProgram s) as [[v prog]|] eqn:Hw.
  2:{ destruct (_ && _).
      { injection H as <- _. destruct Hk as [Hk|[Hk|Hk]]; discriminate. }
      destruct (MatchPayToPubkey s) as [[[|] ?]|];
        try (injection H as <- _; destruct Hk as [Hk|[Hk|Hk]]; discriminate);
        (destruct (MatchPayToPubkeyHash s);
         [injection H as <- _; destruct Hk as [Hk|[Hk|Hk]]; discriminate|]);
        (destruct (MatchMultisig s) as [[? ?]|];
         injection H as <- _; destruct Hk as [Hk|[Hk|Hk]]; discriminate). }
  destruct (IsWitnessProgram_inv s v prog Hb Hw) as (Hs & Hv & Hop).
  assert (Henc : EncodeOP_N v = at_ s 0).
  { rewrite Hv. unfold EncodeOP_N, DecodeOP_N, OP_0, OP_1, OP_16 in *.
    destruct Hop as [->|Hop]; [reflexivity|].
    destruct (Z.eqb_spec (at_ s 0) 0); [lia|].
    destruct (Z.eqb_spec (at_ s 0 - (81 - 1)) 0); lia. }
  unfold WITNESS_V0_KEYHASH_SIZE, WITNESS_V0_SCRIPTHASH_SIZE, WITNESS_V1_TAPROOT_SIZE in H.
  exists v, (size prog), prog. rewrite Henc.
  destruct (Z.eqb_spec v 0) as [Hv0|Hv0]; cbn [andb negb] in H.
  - destruct (Z.eqb_spec (size prog) 20) as [E20|E20].
    + injection H as <- <-. repeat split; [exact Hs|]. left. auto.
    + destruct (Z.eqb_spec (size prog) 32) as [E32|E32].
      * injection H as <- <-. repeat split; [exact Hs|]. right. left. auto.
      * destruct (Z.eqb_spec v 1); [lia|]. cbn [andb] in H.
        injection H as <- _. destruct Hk as [Hk|[Hk|Hk]]; discriminate.
  - destruct (Z.eqb_spec v 1) as [Hv1|Hv1]; cbn [andb] in H.
    + destruct (Z.eqb_spec (size prog) 32) as [E32|E32].
      * injection H as <- <-. repeat split; [exact Hs|]. right. right. auto.
      * injection H as <- _. destruct Hk as [Hk|[Hk|Hk]]; discriminate.
    + injection H as <- _. destruct Hk as [Hk|[Hk|Hk]]; discriminate.
Qed.

(** *** Base58 addresses *)



Section Base58.
Variables (params : core.Params) (pk sh : Z) (h : list Z).
Hypothesis Hpk : core.base58Prefixes params core.PUBKEY_ADDRESS = [pk].
Hypothesis Hsh : core.base58Prefixes params core.SCRIPT_ADDRESS = [sh].
Hypothesis Hpkb : is_byte pk.
Hypothesis Hshb : is_byte sh.
Hypothesis Hne : pk <> sh.
Hypothesis Hh : is_bytes h.
Hypothesis Hlen : length h = 20%nat.



End Base58.

(** *** Bech32 addresses *)


End RoundTripFacts.


Lemma mainnet_standard : standard_params mainnet.
Proof.
  split.
  - exists 0, 5. unfold is_byte. repeat split; try reflexivity; lia.
  - split; [cbn; lia|].
    repeat (apply Forall_cons; [unfold hrp_char; cbn; lia|]). apply Forall_nil.
Qed.



(** Each condition of [standard_params] is needed, and so is the proviso on
    Base58 addresses.  With equal prefixes the address of a [SCRIPTHASH]
    script decodes to the [PUBKEYHASH] script of the same hash. *)
Example equal_prefixes_decode_other_script :
  Solver example_p2sh = (SCRIPTHASH, [example_hash]) /\
  ExtractDestination example_p2sh same_prefix_params []
  = (true, ["3Ai1JZ8pdJb2ksieUV8FsxSNVJCpoPi8W6"%string]) /\
  DecodeDestination "3Ai1JZ8pdJb2ksieUV8FsxSNVJCpoPi8W6" [] same_prefix_params
  = mk_decoded true example_p2pkh "".
Proof. split; [|split]; vm_compute; reflexivity. Qed.

(** A Base58 address that begins, ignoring case, with the human-readable
    part is taken for a Bech32 address and rejected. *)
Example base58_address_routed_to_bech32 :
  valid_hrp "1a" /\
  ExtractDestination example_p2pkh (with_hrp "1a") []
  = (true, ["1A1zP1eP5QGefi2DMPTfTL5SLmv7DivfNa"%string]) /\
  is_bech32 "1A1zP1eP5QGefi2DMPTfTL5SLmv7DivfNa" (with_hrp "1a") = true /\
  DecodeDestination "1A1zP1eP5QGefi2DMPTfTL5SLmv7DivfNa" [] (with_hrp "1a")
  = mk_decoded false [] "Invalid address".
Proof.
  split.
  - split; [cbn; lia|].
    repeat (apply Forall_cons; [unfold hrp_char; cbn; lia|]). apply Forall_nil.
  - split; [|split]; vm_compute; reflexivity.
Qed.

(** An upper-case, an empty and a 31-character human-readable part each
    break the round trip of a witness script. *)
Example upper_case_hrp_not_decoded :
  Solver example_p2wpkh = (WITNESS_V0_KEYHASH, [example_hash]) /\
  ExtractDestination example_p2wpkh (with_hrp "BC") []
  = (true, ["BC1qvt5s0v2uhuna2sjnn84ldu8m2r4m3rcc9um076"%string]) /\
  ok (DecodeDestination "BC1qvt5s0v2uhuna2sjnn84ldu8m2r4m3rcc9um076" []
        (with_hrp "BC")) = false.
Proof. split; [|split]; vm_compute; reflexivity. Qed.

Example empty_hrp_not_decoded :
  ExtractDestination example_p2wpkh (with_hrp "") []
  = (true, ["1qvt5s0v2uhuna2sjnn84ldu8m2r4m3rcczhmpql"%string]) /\
  ok (DecodeDestination "1qvt5s0v2uhuna2sjnn84ldu8m2r4m3rcczhmpql" []
        (with_hrp "")) = false.
Proof. split; vm_compute; reflexivity. Qed.

Example long_hrp_not_decoded :
  let h := "abcdefghijklmnopqrstuvwxyzabcde"%string in
  let a := "abcdefghijklmnopqrstuvwxyzabcde1qvt5s0v2uhuna2sjnn84ldu8m2r4m3rccvt5s0v2uhuna2sjnn84s2kyfz9"%string in
  String.length h = 31%nat /\
  fst (Solver example_p2wsh) = WITNESS_V0_SCRIPTHASH /\
  ExtractDestination example_p2wsh (with_hrp h) [] = (true, [a]) /\
  ok (DecodeDestination a [] (with_hrp h)) = false.
Proof. repeat split; vm_compute; reflexivity. Qed.

(** Scenarios of the specification on the main network. *)
Example scenario_p2pkh :
  ExtractDestination example_p2pkh mainnet []
  = (true, ["1A1zP1eP5QGefi2DMPTfTL5SLmv7DivfNa"%string]).
Proof. vm_compute. reflexivity. Qed.

Example scenario_p2wpkh :
  DecodeDestination "bc1qw508d6qejxtdg4y5r3zarvary0c5xw7kv8f3t4" [] mainnet
  = mk_decoded true
      [0x00; 0x14; 0x75; 0x1e; 0x76; 0xe8; 0x19; 0x91; 0x96; 0xd4; 0x54; 0x94;
       0x1c; 0x45; 0xd1; 0xb3; 0xa3; 0x23; 0xf1; 0x43; 0x3b; 0xd6] "".
Proof. vm_compute. reflexivity. Qed.

Example scenario_is_valid :
  IsValid "1BvBMSEYstWetqTFn5Au4m4GFg7xJaNVN2" mainnet = true.
Proof. vm_compute. reflexivity. Qed.

(* ================================================================= *)
(** ** More on base conversion *)

Module BitsMore.
Import Bits BitsFacts.

(** What a conversion without padding leaves once the loop is over. *)
Lemma ConvertBits_nopad_inv f t xs :
  1 <= f <= 8 -> 1 <= t <= 8 -> symbols f xs ->
  exists r,
    0 <= r < t /\
    f * size xs = t * size (snd (ConvertBits f t false xs)) + r /\
    symbols t (snd (ConvertBits f t false xs)) /\
    value t (snd (ConvertBits f t false xs)) = value f xs / 2 ^ r /\
    (fst (ConvertBits f t false xs) = true <->
     r < f /\ value f xs mod 2 ^ r = 0).
Proof.
  intros Hf Ht Hxs.
  destruct (loop_inv f t Hf Ht xs Hxs) as [HI Hlt].
  pose proof (residual_eq f t Hf Ht _ _ _ HI Hlt) as Hres.
  destruct HI as [Hb Hl Hv Ha Ho Hv0].
  exists (bits (loop f t xs)).
  assert (Hsnd : snd (ConvertBits f t false xs) = out (loop f t xs)).
  { unfold ConvertBits. cbn zeta.
    destruct ((f <=? bits (loop f t xs)) || negb (residual t (loop f t xs) =? 0));
      reflexivity. }
  rewrite Hsnd. unfold size.
  split; [lia|]. split; [exact Hl|]. split; [exact Ho|]. split; [exact Hv|].
  set (b := bits (loop f t xs)) in *.
  assert (Hp : 0 < 2 ^ (t - b)) by (apply Z.pow_pos_nonneg; lia).
  unfold ConvertBits. cbn zeta. fold b. rewrite Hres.
  destruct (Z.leb_spec f b) as [Hfb|Hfb]; cbn [orb fst].
  - split; [discriminate|lia].
  - destruct (Z.eqb_spec (value f xs mod 2 ^ b * 2 ^ (t - b)) 0) as [Hz|Hz];
      cbn [negb fst].
    + split; [intros _; split; [lia|nia]|reflexivity].
    + split; [discriminate|]. intros [_ H0]. rewrite H0 in Hz. lia.
Qed.

Lemma value_app w a b :
  0 <= w -> value w (a ++ b) = value w a * 2 ^ (w * size b) + value w b.
Proof.
  intros Hw. induction b as [|x b IH] using rev_ind.
  - rewrite app_nil_r. change (size (@nil Z)) with 0. rewrite Z.mul_0_r. cbn. lia.
  - rewrite app_assoc, !value_snoc, IH. unfold size. rewrite length_app. cbn [length].
    replace (w * Z.of_nat (length b + 1)) with (w * Z.of_nat (length b) + w) by lia.
    rewrite Z.pow_add_r by lia. ring.
Qed.

Lemma symbols_app w a b : symbols w (a ++ b) <-> symbols w a /\ symbols w b.
Proof. apply Forall_app. Qed.
End BitsMore.

(** X1. With padding the conversion never fails: it emits
    [ceil(n * frombits / tobits)] symbols, each below [2^tobits]. *)
Theorem ConvertBits_pad_length (f t : Z) (xs : list Z) :
  1 <= f <= 8 -> 1 <= t <= 8 -> symbols f xs ->
  fst (ConvertBits f t true xs) = true /\
  symbols t (snd (ConvertBits f t true xs)) /\
  size (snd (ConvertBits f t true xs)) = (f * size xs + t - 1) / t.
Proof.
  intros Hf Ht Hxs.
  destruct (BitsFacts.ConvertBits_pad f t xs Hf Ht Hxs) as (y & p & Hy & Hsy & Hp & _ & Hlen).
  rewrite Hy. cbn [fst snd]. split; [reflexivity|]. split; [exact Hsy|].
  unfold size.
  apply (Z.div_unique _ _ _ (t - 1 - p)); lia.
Qed.

Lemma ConvertBits_pad_length_witness :
  (1 <= 8 <= 8 /\ 1 <= 5 <= 8 /\ symbols 8 [117; 30; 118]) /\
  fst (ConvertBits 8 5 true [117; 30; 118]) = true /\
  symbols 5 (snd (ConvertBits 8 5 true [117; 30; 118])) /\
  size (snd (ConvertBits 8 5 true [117; 30; 118])) = (8 * size [117; 30; 118] + 5 - 1) / 5.
Proof.
  assert (H1 : 1 <= 8 <= 8) by lia.
  assert (H2 : 1 <= 5 <= 8) by lia.
  assert (H3 : symbols 8 [117; 30; 118]) by (repeat constructor; cbn; lia).
  split; [exact (conj H1 (conj H2 H3))|].
  exact (ConvertBits_pad_length 8 5 [117; 30; 118] H1 H2 H3).
Defined.

(** X2. Without padding, success means that fewer than [frombits] bits were
    left over and that they were zero: the output has
    [floor(n * frombits / tobits)] symbols and the input, read as a
    big-endian number, is the output followed by the [r] zero bits left. *)
Theorem ConvertBits_nopad_value (f t : Z) (xs y : list Z) :
  1 <= f <= 8 -> 1 <= t <= 8 -> symbols f xs ->
  ConvertBits f t false xs = (true, y) ->
  (f * size xs) mod t < f /\
  size y = (f * size xs) / t /\
  symbols t y /\
  value f xs = value t y * 2 ^ ((f * size xs) mod t).
Proof.
  intros Hf Ht Hxs Hy.
  destruct (BitsMore.ConvertBits_nopad_inv f t xs Hf Ht Hxs)
    as (r & Hr & Hlen & Hsy & Hval & Hok).
  rewrite Hy in *. cbn [fst snd] in *.
  destruct Hok as [Hok _]. destruct (Hok eq_refl) as [Hrf Hz].
  assert (Hmod : (f * size xs) mod t = r).
  { symmetry. apply (Z.mod_unique _ _ (size y)); lia. }
  assert (Hdiv : (f * size xs) / t = size y).
  { symmetry. apply (Z.div_unique _ _ _ r); lia. }
  rewrite Hmod, Hdiv. split; [exact Hrf|]. split; [reflexivity|]. split; [exact Hsy|].
  rewrite Hval.
  assert (Hp : 0 < 2 ^ r) by (apply Z.pow_pos_nonneg; lia).
  pose proof (Z.div_mod (value f xs) (2 ^ r)). lia.
Qed.

Lemma ConvertBits_nopad_value_witness :
  (1 <= 5 <= 8 /\ 1 <= 8 <= 8 /\ symbols 5 [14; 20; 15; 0] /\
   ConvertBits 5 8 false [14; 20; 15; 0] = (true, [117; 30])) /\
  (5 * size [14; 20; 15; 0]) mod 8 < 5 /\
  size [117; 30] = (5 * size [14; 20; 15; 0]) / 8 /\
  symbols 8 [117; 30] /\
  value 5 [14; 20; 15; 0] = value 8 [117; 30] * 2 ^ ((5 * size [14; 20; 15; 0]) mod 8).
Proof.
  assert (H1 : 1 <= 5 <= 8) by lia.
  assert (H2 : 1 <= 8 <= 8) by lia.
  assert (H3 : symbols 5 [14; 20; 15; 0]) by (repeat constructor; cbn; lia).
  assert (H4 : ConvertBits 5 8 false [14; 20; 15; 0] = (true, [117; 30]))
    by (vm_compute; reflexivity).
  split; [exact (conj H1 (conj H2 (conj H3 H4)))|].
  exact (ConvertBits_nopad_value 5 8 [14; 20; 15; 0] [117; 30] H1 H2 H3 H4).
Defined.

(** X3. What the conversion without padding accepts, the conversion back
    with padding maps to the same symbols: decoding 5-bit symbols to bytes
    loses nothing, so two different data parts never give the same
    program. *)
Theorem ConvertBits_nopad_pad_identity (f t : Z) (xs y : list Z) :
  1 <= f <= 8 -> 1 <= t <= 8 -> symbols f xs ->
  ConvertBits f t false xs = (true, y) ->
  ConvertBits t f true y = (true, xs).
Proof.
  intros Hf Ht Hxs Hy.
  destruct (BitsMore.ConvertBits_nopad_inv f t xs Hf Ht Hxs)
    as (r & Hr & Hlen & Hsy & Hval & Hok).
  rewrite Hy in *. cbn [fst snd] in *.
  destruct Hok as [Hok _]. destruct (Hok eq_refl) as [Hrf Hz].
  destruct (BitsFacts.ConvertBits_pad t f y Ht Hf Hsy) as (z & p & Hz' & Hsz & Hp & Hvz & Hlz).
  rewrite Hz'. f_equal.
  unfold size in Hlen.
  assert (Hlx : length z = length xs).
  { destruct (Nat.lt_trichotomy (length z) (length xs)) as [Hc|[Hc|Hc]];
      [exfalso; nia|exact Hc|exfalso; nia]. }
  assert (Hpr : p = r) by (rewrite Hlx in Hlz; lia).
  apply (BitsFacts.value_inj f); try lia; try assumption.
  rewrite Hvz, Hval, Hpr.
  assert (Hp2 : 0 < 2 ^ r) by (apply Z.pow_pos_nonneg; lia).
  pose proof (Z.div_mod (value f xs) (2 ^ r)). lia.
Qed.

Lemma ConvertBits_nopad_pad_identity_witness :
  (1 <= 5 <= 8 /\ 1 <= 8 <= 8 /\ symbols 5 [14; 20; 15; 0] /\
   ConvertBits 5 8 false [14; 20; 15; 0] = (true, [117; 30])) /\
  ConvertBits 8 5 true [117; 30] = (true, [14; 20; 15; 0]).
Proof.
  assert (H1 : 1 <= 5 <= 8) by lia.
  assert (H2 : 1 <= 8 <= 8) by lia.
  assert (H3 : symbols 5 [14; 20; 15; 0]) by (repeat constructor; cbn; lia).
  assert (H4 : ConvertBits 5 8 false [14; 20; 15; 0] = (true, [117; 30]))
    by (vm_compute; reflexivity).
  split; [exact (conj H1 (conj H2 (conj H3 H4)))|].
  exact (ConvertBits_nopad_pad_identity 5 8 [14; 20; 15; 0] [117; 30] H1 H2 H3 H4).
Defined.

(** X4. The conversion works block by block: when the first part of the
    input fills a whole number of output symbols, the padded conversion of
    the concatenation is the concatenation of the conversions. *)
Theorem ConvertBits_blocks (f t : Z) (xs ys : list Z) :
  1 <= f <= 8 -> 1 <= t <= 8 -> symbols f xs -> symbols f ys ->
  (f * size xs) mod t = 0 ->
  snd (ConvertBits f t true (xs ++ ys))
  = snd (ConvertBits f t true xs) ++ snd (ConvertBits f t true ys).
Proof.
  intros Hf Ht Hxs Hys Hmod.
  assert (Hxy : symbols f (xs ++ ys)) by (apply BitsMore.symbols_app; tauto).
  destruct (BitsFacts.ConvertBits_pad f t xs Hf Ht Hxs) as (a & pa & Ha & Hsa & Hpa & Hva & Hla).
  destruct (BitsFacts.ConvertBits_pad f t ys Hf Ht Hys) as (b & pb & Hb & Hsb & Hpb & Hvb & Hlb).
  destruct (BitsFacts.ConvertBits_pad f t (xs ++ ys) Hf Ht Hxy)
    as (c & pc & Hc & Hsc & Hpc & Hvc & Hlc).
  rewrite Ha, Hb, Hc. cbn [snd].
  unfold size in Hmod.
  assert (Hpa0 : pa = 0).
  { apply Z.mod_divide in Hmod; [|lia]. destruct Hmod as [k Hk].
    assert (t * (Z.of_nat (length a) - k) = pa) by lia.
    destruct (Z.lt_trichotomy (Z.of_nat (length a) - k) 0) as [Hn|[Hn|Hn]]; nia. }
  subst pa. rewrite Z.pow_0_r, Z.mul_1_r in Hva.
  rewrite length_app, Nat2Z.inj_add in Hlc.
  assert (Hlen : length c = (length a + length b)%nat).
  { destruct (Nat.lt_trichotomy (length c) (length a + length b)) as [Hn|[Hn|Hn]];
      [exfalso; nia|exact Hn|exfalso; nia]. }
  assert (Hpcb : pc = pb) by (rewrite Hlen, Nat2Z.inj_add in Hlc; lia).
  apply (BitsFacts.value_inj t); try lia.
  - exact Hsc.
  - apply BitsMore.symbols_app. tauto.
  - rewrite length_app. exact Hlen.
  - rewrite Hvc, !BitsMore.value_app, Hva, Hvb, Hpcb by lia. unfold size.
    replace (t * Z.of_nat (length b)) with (f * Z.of_nat (length ys) + pb) by lia.
    rewrite Z.pow_add_r by lia. ring.
Qed.

Lemma ConvertBits_blocks_witness :
  (1 <= 8 <= 8 /\ 1 <= 5 <= 8 /\ symbols 8 [1; 2; 3; 4; 5] /\ symbols 8 [117; 30] /\
   (8 * size [1; 2; 3; 4; 5]) mod 5 = 0) /\
  snd (ConvertBits 8 5 true ([1; 2; 3; 4; 5] ++ [117; 30]))
  = snd (ConvertBits 8 5 true [1; 2; 3; 4; 5]) ++ snd (ConvertBits 8 5 true [117; 30]).
Proof.
  assert (H1 : 1 <= 8 <= 8) by lia.
  assert (H2 : 1 <= 5 <= 8) by lia.
  assert (H3 : symbols 8 [1; 2; 3; 4; 5]) by (repeat constructor; cbn; lia).
  assert (H4 : symbols 8 [117; 30]) by (repeat constructor; cbn; lia).
  assert (H5 : (8 * size [1; 2; 3; 4; 5]) mod 5 = 0) by reflexivity.
  split; [exact (conj H1 (conj H2 (conj H3 (conj H4 H5))))|].
  exact (ConvertBits_blocks 8 5 [1; 2; 3; 4; 5] [117; 30] H1 H2 H3 H4 H5).
Defined.

(* ================================================================= *)
(** ** The rules of the solver *)

Module SolverFacts.
Import ScriptFacts RoundTripFacts.

Lemma size_length (l : list Z) (n : nat) : size l = Z.of_nat n -> length l = n.
Proof. unfold size. lia. Qed.

(** *** Witness programs *)

Lemma IsWitnessProgram_bounds s v p :
  IsWitnessProgram s = Some (v, p) -> 2 <= size p <= 40 /\ p = skipn 2 s.
Proof.
  unfold IsWitnessProgram. intros H.
  destruct (_ || _) eqn:Hrange; [discriminate|].
  apply orb_false_iff in Hrange. destruct Hrange as [Hmin Hmax].
  apply Z.ltb_ge in Hmin, Hmax.
  destruct (_ && _); [discriminate|].
  destruct (_ =? _); [|discriminate].
  assert (Hp : p = skipn 2 s) by congruence.
  split; [|exact Hp]. subst p. unfold size in *. rewrite length_skipn. lia.
Qed.

Lemma IsWitnessProgram_shape op p :
  op = OP_0 \/ OP_1 <= op <= OP_16 -> 2 <= size p <= 40 ->
  IsWitnessProgram (op :: size p :: p) = Some (DecodeOP_N op, p).
Proof.
  intros Hop Hp. unfold IsWitnessProgram.
  assert (Hs : size (op :: size p :: p) = size p + 2).
  { unfold size. cbn [length]. lia. }
  rewrite Hs. change (at_ (op :: size p :: p) 0) with op.
  change (at_ (op :: size p :: p) 1) with (size p).
  destruct (Z.ltb_spec (size p + 2) 4); [lia|].
  destruct (Z.ltb_spec 42 (size p + 2)); [lia|]. cbn [orb].
  replace (negb (op =? OP_0) && ((op <? OP_1) || (OP_16 <? op))) with false.
  2:{ symmetry. unfold OP_0, OP_1, OP_16 in *.
      destruct Hop as [->|Hop]; [reflexivity|].
      destruct (Z.ltb_spec op 81); [lia|]. destruct (Z.ltb_spec 96 op); [lia|].
      apply andb_false_r. }
  unfold size_t, SIZE_T_BITS. rewrite Z.mod_small by lia.
  rewrite Z.eqb_refl. reflexivity.
Qed.

Lemma DecodeOP_N_range op :
  op = OP_0 \/ OP_1 <= op <= OP_16 ->
  (op = OP_0 /\ DecodeOP_N op = 0) \/
  (1 <= DecodeOP_N op <= 16 /\ op = OP_1 + DecodeOP_N op - 1).
Proof.
  unfold DecodeOP_N, OP_0, OP_1, OP_16. intros [->|H]; [left; split; reflexivity|].
  right. destruct (Z.eqb_spec op 0); lia.
Qed.

Lemma not_p2sh_head s : at_ s 0 <> OP_HASH160 -> IsPayToScriptHash s = false.
Proof.
  intros H. unfold IsPayToScriptHash.
  destruct (Z.eqb_spec (at_ s 0) OP_HASH160) as [E|_]; [contradiction|].
  rewrite andb_false_r. reflexivity.
Qed.

Lemma not_witness_head s :
  at_ s 0 <> OP_0 -> ~ (OP_1 <= at_ s 0 <= OP_16) -> IsWitnessProgram s = None.
Proof.
  intros H0 H1. unfold IsWitnessProgram.
  destruct (_ || _); [reflexivity|].
  destruct (Z.eqb_spec (at_ s 0) OP_0) as [E|_]; [contradiction|]. cbn [negb andb].
  destruct (Z.ltb_spec (at_ s 0) OP_1); [reflexivity|].
  destruct (Z.ltb_spec OP_16 (at_ s 0)); [reflexivity|]. lia.
Qed.

(** *** Pay-to-pubkey *)

Lemma skipn_last (s : list Z) n : length s = S n -> skipn n s = [back s].
Proof.
  intros Hlen.
  assert (Hl1 : length (skipn n s) = 1%nat) by (rewrite length_skipn; lia).
  rewrite <- (firstn_skipn n s) at 2.
  remember (skipn n s) as t eqn:Ht. clear Ht.
  destruct t as [|x [|? ?]]; try discriminate Hl1.
  rewrite back_snoc. reflexivity.
Qed.

Lemma MatchPayToPubkey_inv s k :
  MatchPayToPubkey s = Some (true, k) ->
  well_sized k /\ s = [size k] ++ k ++ [OP_CHECKSIG].
Proof.
  unfold MatchPayToPubkey, CPubKey.SIZE, CPubKey.COMPRESSED_SIZE. intros H.
  destruct (_ && _) eqn:E.
  - assert (Hv : CPubKey.ValidSize (slice s 1 (Z.to_nat 65 + 1)) = true) by congruence.
    assert (Hk : k = slice s 1 (Z.to_nat 65 + 1)) by congruence. clear H.
    apply andb_true_iff in E. destruct E as [E Hb].
    apply andb_true_iff in E. destruct E as [Hsz H0].
    apply size_eq in Hsz. destruct Hsz as [Hlen _].
    change (Z.to_nat (65 + 2)) with 67%nat in Hlen.
    change (Z.to_nat 65 + 1)%nat with 66%nat in *.
    apply Z.eqb_eq in H0, Hb. rewrite <- Hk in Hv.
    split; [apply ValidSize_well_sized; exact Hv|].
    assert (Hkl : length k = 65%nat) by (rewrite Hk; apply slice_length; lia).
    unfold size. rewrite Hkl. change (Z.of_nat 65) with 65.
    rewrite <- (skipn_O s) at 1.
    rewrite (skipn_uncons 0 s) by lia.
    rewrite (skipn_split 1 65 s). change (1 + 65)%nat with 66%nat.
    assert (Hlast : skipn 66 s = [back s]) by (apply skipn_last; lia).
    rewrite Hlast, H0, Hb, Hk. reflexivity.
  - clear E. destruct (_ && _) eqn:E'; [|discriminate].
    assert (Hv : CPubKey.ValidSize (slice s 1 (Z.to_nat 33 + 1)) = true) by congruence.
    assert (Hk : k = slice s 1 (Z.to_nat 33 + 1)) by congruence. clear H.
    apply andb_true_iff in E'. destruct E' as [E' Hb].
    apply andb_true_iff in E'. destruct E' as [Hsz H0].
    apply size_eq in Hsz. destruct Hsz as [Hlen _].
    change (Z.to_nat (33 + 2)) with 35%nat in Hlen.
    change (Z.to_nat 33 + 1)%nat with 34%nat in *.
    apply Z.eqb_eq in H0, Hb. rewrite <- Hk in Hv.
    split; [apply ValidSize_well_sized; exact Hv|].
    assert (Hkl : length k = 33%nat) by (rewrite Hk; apply slice_length; lia).
    unfold size. rewrite Hkl. change (Z.of_nat 33) with 33.
    rewrite <- (skipn_O s) at 1.
    rewrite (skipn_uncons 0 s) by lia.
    rewrite (skipn_split 1 33 s). change (1 + 33)%nat with 34%nat.
    assert (Hlast : skipn 34 s = [back s]) by (apply skipn_last; lia).
    rewrite Hlast, H0, Hb, Hk. reflexivity.
Qed.

Lemma MatchPayToPubkey_shape k :
  well_sized k -> MatchPayToPubkey ([size k] ++ k ++ [OP_CHECKSIG]) = Some (true, k).
Proof.
  intros Hw. pose proof (proj2 (ValidSize_well_sized k) Hw) as Hv.
  unfold MatchPayToPubkey, CPubKey.SIZE, CPubKey.COMPRESSED_SIZE.
  assert (Hs : size ([size k] ++ k ++ [OP_CHECKSIG]) = size k + 2).
  { unfold size. cbn [app length]. rewrite length_app. cbn [length]. lia. }
  assert (Hb : back ([size k] ++ k ++ [OP_CHECKSIG]) = OP_CHECKSIG).
  { rewrite app_assoc. apply back_snoc. }
  assert (Hsl : forall n, n = S (length k) ->
            slice ([size k] ++ k ++ [OP_CHECKSIG]) 1 n = k).
  { intros n ->. unfold slice. cbn [app skipn].
    replace (S (length k) - 1)%nat with (length k) by lia.
    rewrite firstn_app, Nat.sub_diag, firstn_all. cbn [firstn]. apply app_nil_r. }
  assert (H0 : at_ ([size k] ++ k ++ [OP_CHECKSIG]) 0 = size k) by reflexivity.
  set (s := [size k] ++ k ++ [OP_CHECKSIG]) in *.
  rewrite Hs, Hb, H0. rewrite Z.eqb_refl, andb_true_r.
  destruct (well_sized_size k Hw) as [Hk|Hk]; rewrite Hk;
    cbn [Z.eqb andb Z.add Pos.add Pos.succ Pos.eqb].
  - rewrite (Hsl (Z.to_nat 33 + 1)%nat), Hv; [reflexivity|].
    unfold size in Hk. lia.
  - rewrite (Hsl (Z.to_nat 65 + 1)%nat), Hv; [reflexivity|].
    unfold size in Hk. lia.
Qed.

(** *** What [Solver] returns, rule by rule *)

Lemma Solver_PUBKEY s sols :
  Solver s = (PUBKEY, sols) ->
  exists k, MatchPayToPubkey s = Some (true, k) /\ sols = [k].
Proof.
  unfold Solver. intros H. skip_p2sh H. skip_witness H.
  destruct (_ && _); [discriminate|].
  destruct (MatchPayToPubkey s) as [[[|] k]|] eqn:HM.
  - injection H as <-. exists k. auto.
  - destruct (MatchPayToPubkeyHash s); [discriminate|].
    destruct (MatchMultisig s) as [[? ?]|]; discriminate.
  - destruct (MatchPayToPubkeyHash s); [discriminate|].
    destruct (MatchMultisig s) as [[? ?]|]; discriminate.
Qed.

Lemma Solver_NULL_DATA s sols :
  Solver s = (NULL_DATA, sols) ->
  exists rest, s = OP_RETURN :: rest /\ IsPushOnly rest = true /\ sols = [].
Proof.
  unfold Solver. intros H. skip_p2sh H. skip_witness H.
  destruct (_ && _) eqn:E.
  - injection H as <-.
    apply andb_true_iff in E. destruct E as [E Hp].
    apply andb_true_iff in E. destruct E as [Hsz H0].
    apply Z.eqb_eq in H0. apply Z.leb_le in Hsz.
    destruct s as [|x rest]; [cbn in Hsz; lia|].
    change (at_ (x :: rest) 0) with x in H0. subst x.
    exists rest. auto.
  - destruct (MatchPayToPubkey s) as [[[|] ?]|]; try discriminate;
      (destruct (MatchPayToPubkeyHash s); [discriminate|]);
      (destruct (MatchMultisig s) as [[? ?]|]; discriminate).
Qed.

Lemma Solver_WITNESS_UNKNOWN s sols :
  Solver s = (WITNESS_UNKNOWN, sols) ->
  exists v p,
    IsWitnessProgram s = Some (v, p) /\ v <> 0 /\ ~ (v = 1 /\ size p = 32)
    /\ sols = [[to_uchar v]; p].
Proof.
  unfold Solver. intros H. skip_p2sh H.
  destruct (IsWitnessProgram s) as [[v p]|] eqn:Hw.
  2:{ destruct (_ && _); [discriminate|].
      destruct (MatchPayToPubkey s) as [[[|] ?]|]; try discriminate;
        (destruct (MatchPayToPubkeyHash s); [discriminate|]);
        (destruct (MatchMultisig s) as [[? ?]|]; discriminate). }
  exists v, p. split; [reflexivity|].
  unfold WITNESS_V0_KEYHASH_SIZE, WITNESS_V0_SCRIPTHASH_SIZE, WITNESS_V1_TAPROOT_SIZE in H.
  destruct (Z.eqb_spec v 0) as [Hv0|Hv0]; cbn [andb negb] in H.
  - destruct (size p =? 20); [discriminate|].
    destruct (size p =? 32); [discriminate|].
    destruct ((v =? 1) && _); discriminate.
  - destruct (Z.eqb_spec v 1) as [Hv1|Hv1]; cbn [andb] in H.
    + destruct (Z.eqb_spec (size p) 32) as [E|E]; [discriminate|].
      injection H as <-. repeat split; [exact Hv0|lia].
    + injection H as <-. repeat split; [exact Hv0|lia].
Qed.

(** [Solver] on a witness program. *)
Lemma Solver_witness_program s v p :
  IsWitnessProgram s = Some (v, p) ->
  Solver s =
  if (v =? 0) && (size p =? 20) then (WITNESS_V0_KEYHASH, [p])
  else if (v =? 0) && (size p =? 32) then (WITNESS_V0_SCRIPTHASH, [p])
  else if (v =? 1) && (size p =? 32) then (WITNESS_V1_TAPROOT, [p])
  else if negb (v =? 0) then (WITNESS_UNKNOWN, [[to_uchar v]; p])
  else (NONSTANDARD, []).
Proof.
  intros Hw. unfold Solver.
  assert (Hp : IsPayToScriptHash s = false).
  { apply not_p2sh_head. intros E. unfold IsWitnessProgram in Hw.
    destruct (_ || _); [discriminate|]. rewrite E in Hw.
    cbn in Hw. discriminate. }
  rewrite Hp, Hw. reflexivity.
Qed.

End SolverFacts.

(** X5. [IsWitnessProgram] accepts exactly the scripts made of a version
    opcode ([OP_0], or [OP_1] to [OP_16]), one byte holding the length of
    the rest, and a rest of 2 to 40 bytes; the version returned is 0 to 16
    and the program is the rest. *)
Theorem IsWitnessProgram_exactly (s : list Z) (v : Z) (p : list Z) :
  is_bytes s ->
  (IsWitnessProgram s = Some (v, p) <->
   2 <= size p <= 40 /\
   ((v = 0 /\ s = OP_0 :: size p :: p) \/
    (1 <= v <= 16 /\ s = (OP_1 + v - 1) :: size p :: p))).
Proof.
  intros Hb. split.
  - intros H.
    destruct (SolverFacts.IsWitnessProgram_bounds s v p H) as [Hp _].
    destruct (RoundTripFacts.IsWitnessProgram_inv s v p Hb H) as (Hs & Hv & Hop).
    split; [exact Hp|].
    destruct (SolverFacts.DecodeOP_N_range _ Hop) as [[H0 Hd]|[Hr H1]].
    + left. split; [congruence|]. rewrite Hs at 1. rewrite H0. reflexivity.
    + right. rewrite <- Hv in Hr, H1. split; [exact Hr|].
      rewrite Hs at 1. rewrite H1. reflexivity.
  - intros [Hp [[-> ->]|[Hv ->]]].
    + apply (SolverFacts.IsWitnessProgram_shape OP_0 p); [left; reflexivity|exact Hp].
    + rewrite (SolverFacts.IsWitnessProgram_shape (OP_1 + v - 1) p);
        [|right; unfold OP_1, OP_16; lia|exact Hp].
      do 2 f_equal. unfold DecodeOP_N, OP_0, OP_1.
      destruct (Z.eqb_spec (81 + v - 1) 0); lia.
Qed.

Lemma IsWitnessProgram_exactly_witness :
  is_bytes [OP_1 + 2 - 1; 2; 7; 9] /\
  (IsWitnessProgram [OP_1 + 2 - 1; 2; 7; 9] = Some (2, [7; 9]) <->
   2 <= size [7; 9] <= 40 /\
   ((2 = 0 /\ [OP_1 + 2 - 1; 2; 7; 9] = OP_0 :: size [7; 9] :: [7; 9]) \/
    (1 <= 2 <= 16 /\ [OP_1 + 2 - 1; 2; 7; 9] = (OP_1 + 2 - 1) :: size [7; 9] :: [7; 9]))).
Proof.
  assert (H : is_bytes [OP_1 + 2 - 1; 2; 7; 9])
    by (apply ScriptFacts.bytesb_spec; vm_compute; reflexivity).
  split; [exact H|].
  exact (IsWitnessProgram_exactly [OP_1 + 2 - 1; 2; 7; 9] 2 [7; 9] H).
Defined.

(** X6. The two fast tests agree with the classifier: [IsPayToScriptHash]
    holds exactly for the scripts [Solver] types [SCRIPTHASH], and
    [IsPayToWitnessScriptHash] exactly for those it types
    [WITNESS_V0_SCRIPTHASH]. *)
Theorem hash_tests_agree_with_Solver (s : list Z) :
  is_bytes s ->
  (IsPayToScriptHash s = true <-> fst (Solver s) = SCRIPTHASH) /\
  (IsPayToWitnessScriptHash s = true <-> fst (Solver s) = WITNESS_V0_SCRIPTHASH).
Proof.
  intros Hb. split; split.
  - intros H. unfold Solver. rewrite H. reflexivity.
  - intros H.
    destruct (RoundTripFacts.Solver_SCRIPTHASH s (snd (Solver s))) as (h & Hl & _ & ->).
    { rewrite <- H. apply surjective_pairing. }
    explode h Hl. reflexivity.
  - intros H. unfold IsPayToWitnessScriptHash in H.
    apply andb_true_iff in H. destruct H as [H H1].
    apply andb_true_iff in H. destruct H as [Hsz H0].
    apply Z.eqb_eq in Hsz, H0, H1.
    assert (Hlen : length s = 34%nat) by (unfold size in Hsz; lia).
    assert (Hs : s = OP_0 :: size (skipn 2 s) :: skipn 2 s).
    { rewrite <- (skipn_O s) at 1.
      rewrite (RoundTripFacts.skipn_uncons 0 s), (RoundTripFacts.skipn_uncons 1 s) by lia.
      rewrite H0, H1. do 2 f_equal. unfold size. rewrite length_skipn, Hlen. reflexivity. }
    assert (Hp : size (skipn 2 s) = 32).
    { unfold size. rewrite length_skipn, Hlen. reflexivity. }
    rewrite (SolverFacts.Solver_witness_program s 0 (skipn 2 s)).
    + rewrite Hp. reflexivity.
    + rewrite Hs at 1.
      apply (SolverFacts.IsWitnessProgram_shape OP_0); [left; reflexivity|lia].
  - intros H.
    destruct (RoundTripFacts.Solver_witness s WITNESS_V0_SCRIPTHASH (snd (Solver s)) Hb)
      as (v & n & p & _ & Hn & -> & Hcase).
    { rewrite <- H. apply surjective_pairing. }
    { right. left. reflexivity. }
    destruct Hcase as [(E & _)|[(_ & -> & ->)|(E & _)]]; try discriminate E.
    unfold IsPayToWitnessScriptHash, size in *. cbn [length].
    replace (Z.of_nat (S (S (length p)))) with 34 by lia. reflexivity.
Qed.

Lemma hash_tests_agree_with_Solver_witness :
  is_bytes example_p2wsh /\
  (IsPayToScriptHash example_p2wsh = true <-> fst (Solver example_p2wsh) = SCRIPTHASH) /\
  (IsPayToWitnessScriptHash example_p2wsh = true
   <-> fst (Solver example_p2wsh) = WITNESS_V0_SCRIPTHASH).
Proof.
  assert (H : is_bytes example_p2wsh)
    by (apply ScriptFacts.bytesb_spec; vm_compute; reflexivity).
  split; [exact H|]. exact (hash_tests_agree_with_Solver example_p2wsh H).
Defined.

(** X7. [Solver] types a script [SCRIPTHASH] exactly when it is
    [OP_HASH160 0x14 <20 bytes> OP_EQUAL]; the solution is the 20 bytes. *)
Theorem Solver_scripthash_exactly (s : list Z) (sols : list (list Z)) :
  Solver s = (SCRIPTHASH, sols) <->
  exists h, size h = 20 /\ s = [OP_HASH160; 20] ++ h ++ [OP_EQUAL] /\ sols = [h].
Proof.
  split.
  - intros H. destruct (RoundTripFacts.Solver_SCRIPTHASH s sols H) as (h & Hl & Hs & E).
    exists h. unfold size. rewrite Hl. auto.
  - intros (h & Hl & -> & ->). apply (SolverFacts.size_length h 20) in Hl.
    explode h Hl. reflexivity.
Qed.

(** X8. [Solver] types a script [PUBKEYHASH] exactly when it is
    [OP_DUP OP_HASH160 20 <20 bytes> OP_EQUALVERIFY OP_CHECKSIG]; the
    solution is the 20 bytes. *)
Theorem Solver_pubkeyhash_exactly (s : list Z) (sols : list (list Z)) :
  Solver s = (PUBKEYHASH, sols) <->
  exists h, size h = 20 /\
            s = [OP_DUP; OP_HASH160; 20] ++ h ++ [OP_EQUALVERIFY; OP_CHECKSIG] /\
            sols = [h].
Proof.
  split.
  - intros H. destruct (RoundTripFacts.Solver_PUBKEYHASH s sols H) as (h & Hl & Hs & E).
    exists h. unfold size. rewrite Hl. auto.
  - intros (h & Hl & -> & ->). apply (SolverFacts.size_length h 20) in Hl.
    explode h Hl. reflexivity.
Qed.

(** X9. [Solver] types a script [PUBKEY] exactly when it is a direct push
    of a well-sized key (33 bytes starting with 2 or 3, 65 bytes starting
    with 4, 6 or 7) followed by [OP_CHECKSIG]; the solution is the key.  A
    push of 33 or 65 bytes with another first byte is not [PUBKEY]. *)
Theorem Solver_pubkey_exactly (s : list Z) (sols : list (list Z)) :
  Solver s = (PUBKEY, sols) <->
  exists k, well_sized k /\ s = [size k] ++ k ++ [OP_CHECKSIG] /\ sols = [k].
Proof.
  split.
  - intros H. destruct (SolverFacts.Solver_PUBKEY s sols H) as (k & Hm & ->).
    destruct (SolverFacts.MatchPayToPubkey_inv s k Hm) as [Hw Hs].
    exists k. auto.
  - intros (k & Hw & -> & ->).
    pose proof (SolverFacts.MatchPayToPubkey_shape k Hw) as Hm.
    assert (H0 : at_ ([size k] ++ k ++ [OP_CHECKSIG]) 0 = size k) by reflexivity.
    pose proof (ScriptFacts.well_sized_size k Hw) as Hk.
    unfold Solver.
    rewrite SolverFacts.not_p2sh_head by (rewrite H0; unfold OP_HASH160; lia).
    rewrite SolverFacts.not_witness_head
      by (rewrite H0; unfold OP_0, OP_1, OP_16; lia).
    rewrite Hm, H0.
    destruct (Z.eqb_spec (size k) OP_RETURN) as [E|_]; [unfold OP_RETURN in E; lia|].
    rewrite andb_false_r. reflexivity.
Qed.

(** X10. [Solver] types a script [WITNESS_V0_KEYHASH],
    [WITNESS_V0_SCRIPTHASH] or [WITNESS_V1_TAPROOT] exactly when it is
    [OP_0 20 <20 bytes>], [OP_0 32 <32 bytes>] or [OP_1 32 <32 bytes>]; the
    solution is the program. *)
Theorem Solver_witness_exactly (s : list Z) (sols : list (list Z)) :
  is_bytes s ->
  (Solver s = (WITNESS_V0_KEYHASH, sols) <->
   exists p, size p = 20 /\ s = [OP_0; 20] ++ p /\ sols = [p]) /\
  (Solver s = (WITNESS_V0_SCRIPTHASH, sols) <->
   exists p, size p = 32 /\ s = [OP_0; 32] ++ p /\ sols = [p]) /\
  (Solver s = (WITNESS_V1_TAPROOT, sols) <->
   exists p, size p = 32 /\ s = [OP_1; 32] ++ p /\ sols = [p]).
Proof.
  intros Hb.
  assert (Hback : forall op n p,
            op = OP_0 \/ OP_1 <= op <= OP_16 -> size p = n -> 2 <= n <= 40 ->
            Solver ([op; n] ++ p)
            = if (DecodeOP_N op =? 0) && (n =? 20) then (WITNESS_V0_KEYHASH, [p])
              else if (DecodeOP_N op =? 0) && (n =? 32) then (WITNESS_V0_SCRIPTHASH, [p])
              else if (DecodeOP_N op =? 1) && (n =? 32) then (WITNESS_V1_TAPROOT, [p])
              else if negb (DecodeOP_N op =? 0)
                   then (WITNESS_UNKNOWN, [[to_uchar (DecodeOP_N op)]; p])
                   else (NONSTANDARD, [])).
  { intros op n p Hop Hn Hr. subst n.
    rewrite (SolverFacts.Solver_witness_program _ (DecodeOP_N op) p); [reflexivity|].
    apply SolverFacts.IsWitnessProgram_shape; assumption. }
  split; [|split]; split.
  - intros H.
    destruct (RoundTripFacts.Solver_witness s _ sols Hb H) as (v & n & p & -> & Hn & -> & Hc).
    { left. reflexivity. }
    destruct Hc as [(_ & -> & ->)|[(E & _)|(E & _)]]; try discriminate E.
    exists p. auto.
  - intros (p & Hp & -> & ->).
    rewrite (Hback OP_0 20 p); [reflexivity|left; reflexivity|exact Hp|lia].
  - intros H.
    destruct (RoundTripFacts.Solver_witness s _ sols Hb H) as (v & n & p & -> & Hn & -> & Hc).
    { right. left. reflexivity. }
    destruct Hc as [(E & _)|[(_ & -> & ->)|(E & _)]]; try discriminate E.
    exists p. auto.
  - intros (p & Hp & -> & ->).
    rewrite (Hback OP_0 32 p); [reflexivity|left; reflexivity|exact Hp|lia].
  - intros H.
    destruct (RoundTripFacts.Solver_witness s _ sols Hb H) as (v & n & p & -> & Hn & -> & Hc).
    { right. right. reflexivity. }
    destruct Hc as [(E & _)|[(E & _)|(_ & -> & ->)]]; try discriminate E.
    exists p. auto.
  - intros (p & Hp & -> & ->).
    rewrite (Hback OP_1 32 p);
      [reflexivity|right; unfold OP_1, OP_16; lia|exact Hp|lia].
Qed.

Lemma Solver_witness_exactly_witness :
  is_bytes example_p2wpkh /\
  (Solver example_p2wpkh = (WITNESS_V0_KEYHASH, [example_hash]) <->
   exists p, size p = 20 /\ example_p2wpkh = [OP_0; 20] ++ p /\ [example_hash] = [p]) /\
  (Solver example_p2wpkh = (WITNESS_V0_SCRIPTHASH, [example_hash]) <->
   exists p, size p = 32 /\ example_p2wpkh = [OP_0; 32] ++ p /\ [example_hash] = [p]) /\
  (Solver example_p2wpkh = (WITNESS_V1_TAPROOT, [example_hash]) <->
   exists p, size p = 32 /\ example_p2wpkh = [OP_1; 32] ++ p /\ [example_hash] = [p]).
Proof.
  assert (H : is_bytes example_p2wpkh)
    by (apply ScriptFacts.bytesb_spec; vm_compute; reflexivity).
  split; [exact H|]. exact (Solver_witness_exactly example_p2wpkh [example_hash] H).
Defined.

(** X11. [Solver] types a script [WITNESS_UNKNOWN] exactly when it is a
    version opcode [OP_1] to [OP_16], a length byte and a program of that
    length, 2 to 40 bytes, other than version 1 with 32 bytes; the solutions
    are the version as one byte and the program.  Version 0 never is. *)
Theorem Solver_witness_unknown_exactly (s : list Z) (sols : list (list Z)) :
  is_bytes s ->
  (Solver s = (WITNESS_UNKNOWN, sols) <->
   exists v p,
     1 <= v <= 16 /\ 2 <= size p <= 40 /\ ~ (v = 1 /\ size p = 32) /\
     s = (OP_1 + v - 1) :: size p :: p /\ sols = [[v]; p]).
Proof.
  intros Hb. split.
  - intros H.
    destruct (SolverFacts.Solver_WITNESS_UNKNOWN s sols H) as (v & p & Hw & Hv0 & Hn & ->).
    destruct (SolverFacts.IsWitnessProgram_bounds s v p Hw) as [Hp _].
    destruct (RoundTripFacts.IsWitnessProgram_inv s v p Hb Hw) as (Hs & Hv & Hop).
    destruct (SolverFacts.DecodeOP_N_range _ Hop) as [[H0 Hd]|[Hr H1]]; [congruence|].
    rewrite <- Hv in Hr, H1.
    exists v, p. repeat split; try lia.
    + rewrite Hs at 1. rewrite H1. reflexivity.
    + unfold to_uchar. rewrite Z.mod_small by lia. reflexivity.
  - intros (v & p & Hv & Hp & Hn & -> & ->).
    assert (Hd : DecodeOP_N (OP_1 + v - 1) = v).
    { unfold DecodeOP_N, OP_0, OP_1. destruct (Z.eqb_spec (81 + v - 1) 0); lia. }
    rewrite (SolverFacts.Solver_witness_program _ v p).
    2:{ rewrite <- Hd at 2. apply SolverFacts.IsWitnessProgram_shape;
          [right; unfold OP_1, OP_16; lia|exact Hp]. }
    destruct (Z.eqb_spec v 0); [lia|]. cbn [andb negb].
    destruct (Z.eqb_spec v 1) as [E1|E1]; cbn [andb].
    + destruct (Z.eqb_spec (size p) 32) as [E2|E2]; [exfalso; auto|].
      unfold to_uchar. rewrite Z.mod_small by lia. reflexivity.
    + unfold to_uchar. rewrite Z.mod_small by lia. reflexivity.
Qed.

Lemma Solver_witness_unknown_exactly_witness :
  is_bytes [OP_1 + 2 - 1; 2; 7; 9] /\
  (Solver [OP_1 + 2 - 1; 2; 7; 9] = (WITNESS_UNKNOWN, [[2]; [7; 9]]) <->
   exists v p,
     1 <= v <= 16 /\ 2 <= size p <= 40 /\ ~ (v = 1 /\ size p = 32) /\
     [OP_1 + 2 - 1; 2; 7; 9] = (OP_1 + v - 1) :: size p :: p /\ [[2]; [7; 9]] = [[v]; p]).
Proof.
  assert (H : is_bytes [OP_1 + 2 - 1; 2; 7; 9])
    by (apply ScriptFacts.bytesb_spec; vm_compute; reflexivity).
  split; [exact H|].
  exact (Solver_witness_unknown_exactly [OP_1 + 2 - 1; 2; 7; 9] [[2]; [7; 9]] H).
Defined.

(** X12. [Solver] types a script [NULL_DATA] exactly when it is [OP_RETURN]
    followed by bytes that [IsPushOnly] accepts; no solution is returned. *)
Theorem Solver_null_data_exactly (s : list Z) (sols : list (list Z)) :
  Solver s = (NULL_DATA, sols) <->
  exists rest, s = OP_RETURN :: rest /\ IsPushOnly rest = true /\ sols = [].
Proof.
  split; [apply SolverFacts.Solver_NULL_DATA|].
  intros (rest & -> & Hp & ->). unfold Solver.
  rewrite SolverFacts.not_p2sh_head by (cbn; discriminate).
  rewrite SolverFacts.not_witness_head
    by (change (at_ (OP_RETURN :: rest) 0) with OP_RETURN;
        unfold OP_RETURN, OP_0, OP_1, OP_16; lia).
  change (at_ (OP_RETURN :: rest) 0) with OP_RETURN.
  change (skipn 1 (OP_RETURN :: rest)) with rest.
  rewrite Hp, Z.eqb_refl, !andb_true_r.
  destruct (Z.leb_spec 1 (size (OP_RETURN :: rest))) as [_|Hs]; [reflexivity|].
  unfold size in Hs. cbn [length] in Hs. lia.
Qed.

(** X13. A version-0 witness program whose length is neither 20 nor 32 is
    [NONSTANDARD]: [Solver] returns no solution and does not try the later
    templates, and [ExtractDestination] returns false without an address. *)
Theorem Solver_v0_other_size (p : list Z) (params : core.Params)
  (addressRet : list string) :
  2 <= size p <= 40 -> size p <> 20 -> size p <> 32 ->
  Solver (OP_0 :: size p :: p) = (NONSTANDARD, []) /\
  ExtractDestination (OP_0 :: size p :: p) params addressRet = (false, addressRet).
Proof.
  intros Hp H20 H32.
  assert (HS : Solver (OP_0 :: size p :: p) = (NONSTANDARD, [])).
  { rewrite (SolverFacts.Solver_witness_program _ 0 p).
    2:{ apply (SolverFacts.IsWitnessProgram_shape OP_0 p); [left; reflexivity|exact Hp]. }
    destruct (Z.eqb_spec (size p) 20); [contradiction|].
    destruct (Z.eqb_spec (size p) 32); [contradiction|]. reflexivity. }
  split; [exact HS|]. unfold ExtractDestination. rewrite HS. reflexivity.
Qed.

Lemma Solver_v0_other_size_witness :
  (2 <= size [7; 9] <= 40 /\ size [7; 9] <> 20 /\ size [7; 9] <> 32) /\
  Solver (OP_0 :: size [7; 9] :: [7; 9]) = (NONSTANDARD, []) /\
  ExtractDestination (OP_0 :: size [7; 9] :: [7; 9]) mainnet [] = (false, []).
Proof.
  assert (H1 : 2 <= size [7; 9] <= 40) by (cbn; lia).
  assert (H2 : size [7; 9] <> 20) by (cbn; lia).
  assert (H3 : size [7; 9] <> 32) by (cbn; lia).
  split; [exact (conj H1 (conj H2 H3))|].
  exact (Solver_v0_other_size [7; 9] mainnet [] H1 H2 H3).
Defined.

(* ================================================================= *)
(** ** Push-only scripts and data carriers *)

Module PushFacts.
Import ScriptFacts.

Lemma ReadLE_app n : forall pc b,
  (n <= length pc)%nat -> ReadLE n (pc ++ b) = ReadLE n pc.
Proof.
  induction n as [|n IH]; intros pc b Hn; [reflexivity|].
  destruct pc as [|x pc]; [cbn in Hn; lia|].
  cbn [app ReadLE]. rewrite IH by (cbn in Hn; lia). reflexivity.
Qed.

(** Reading an opcode does not look past its payload. *)
Lemma GetScriptOp_app pc b op data rest :
  GetScriptOp pc = Some (op, data, rest) ->
  GetScriptOp (pc ++ b) = Some (op, data, rest ++ b).
Proof.
  destruct pc as [|opcode pc1]; [discriminate|].
  cbn [app]. unfold GetScriptOp.
  destruct (opcode <=? OP_PUSHDATA4).
  - set (len_bytes := if opcode <? OP_PUSHDATA1 then 0%nat
                      else if opcode =? OP_PUSHDATA1 then 1%nat
                           else if opcode =? OP_PUSHDATA2 then 2%nat else 4%nat).
    destruct (Nat.ltb_spec (length pc1) len_bytes) as [|Hl]; [discriminate|].
    destruct (Nat.ltb_spec (length (pc1 ++ b)) len_bytes) as [Hl'|_].
    { rewrite length_app in Hl'. lia. }
    rewrite (ReadLE_app len_bytes pc1 b Hl).
    set (nSize := if opcode <? OP_PUSHDATA1 then opcode else ReadLE len_bytes pc1).
    rewrite skipn_app. replace (len_bytes - length pc1)%nat with 0%nat by lia.
    cbn [skipn].
    destruct (Z.ltb_spec (size (skipn len_bytes pc1)) nSize) as [|Hs]; [discriminate|].
    intros H. injection H as <- <- <-.
    rewrite size_app. pose proof (size_nonneg b).
    destruct (Z.ltb_spec (size (skipn len_bytes pc1) + size b) nSize); [lia|].
    assert (Hn : (Z.to_nat nSize <= length (skipn len_bytes pc1))%nat).
    { unfold size in Hs. lia. }
    rewrite firstn_app, skipn_app.
    replace (Z.to_nat nSize - length (skipn len_bytes pc1))%nat with 0%nat by lia.
    cbn [firstn skipn]. rewrite app_nil_r. reflexivity.
  - intros H. injection H as <- <- <-. reflexivity.
Qed.

Lemma GetScriptOp_shorter pc op data rest :
  GetScriptOp pc = Some (op, data, rest) -> (length rest < length pc)%nat.
Proof.
  destruct pc as [|opcode pc1]; [discriminate|]. unfold GetScriptOp.
  destruct (opcode <=? OP_PUSHDATA4).
  - destruct (_ <? _)%nat; [discriminate|].
    destruct (size _ <? _); [discriminate|].
    intros H. injection H as _ _ <-. rewrite !length_skipn. cbn [length]. lia.
  - intros H. injection H as _ _ <-. cbn. lia.
Qed.

(** The loop of [IsPushOnly] needs no more fuel than the bytes left. *)
Lemma IsPushOnly_loop_fuel n : forall pc fuel,
  (length pc <= n)%nat -> (length pc <= fuel)%nat ->
  IsPushOnly_loop fuel pc = IsPushOnly_loop n pc.
Proof.
  induction n as [|n IH]; intros pc fuel Hn Hf.
  - destruct pc; [destruct fuel; reflexivity|cbn in Hn; lia].
  - destruct pc as [|x pc]; [destruct fuel; reflexivity|].
    destruct fuel as [|fuel]; [cbn in Hf; lia|].
    cbn [IsPushOnly_loop].
    destruct (GetScriptOp (x :: pc)) as [[[op d] rest]|] eqn:E; [|reflexivity].
    destruct (OP_16 <? op); [reflexivity|].
    pose proof (GetScriptOp_shorter _ _ _ _ E) as Hs.
    apply IH; lia.
Qed.

(** One turn of the loop of [IsPushOnly]. *)
Lemma IsPushOnly_eq pc :
  IsPushOnly pc =
  match pc with
  | [] => true
  | _ => match GetScriptOp pc with
         | None => false
         | Some (opcode, _, pc') =>
             if OP_16 <? opcode then false else IsPushOnly pc'
         end
  end.
Proof.
  destruct pc as [|x pc]; [reflexivity|].
  unfold IsPushOnly. cbn [length IsPushOnly_loop].
  destruct (GetScriptOp (x :: pc)) as [[[op d] rest]|] eqn:E; [|reflexivity].
  destruct (OP_16 <? op); [reflexivity|].
  pose proof (GetScriptOp_shorter _ _ _ _ E) as Hs. cbn [length] in Hs.
  apply IsPushOnly_loop_fuel; lia.
Qed.

Lemma IsPushOnly_app_len n : forall a b,
  (length a <= n)%nat -> IsPushOnly a = true -> IsPushOnly (a ++ b) = IsPushOnly b.
Proof.
  induction n as [|n IH]; intros a b Hn Ha.
  - destruct a; [reflexivity|cbn in Hn; lia].
  - destruct a as [|x a]; [reflexivity|].
    rewrite IsPushOnly_eq in Ha.
    destruct (GetScriptOp (x :: a)) as [[[op d] rest]|] eqn:E; [|discriminate].
    destruct (OP_16 <? op) eqn:Eop; [discriminate|].
    pose proof (GetScriptOp_shorter _ _ _ _ E) as Hs. cbn [length] in Hs, Hn.
    rewrite (IsPushOnly_eq ((x :: a) ++ b)).
    rewrite (GetScriptOp_app _ b _ _ _ E), Eop. cbn [app].
    apply IH; [lia|exact Ha].
Qed.

Lemma IsPushOnly_push data p rest :
  push_of data p -> IsPushOnly (p ++ rest) = IsPushOnly rest.
Proof.
  intros Hp. destruct (GetScriptOp_push data p rest Hp) as (op & Hg & Hop).
  rewrite IsPushOnly_eq, Hg.
  destruct (Z.ltb_spec OP_16 op) as [H|_]; [unfold OP_16, OP_PUSHDATA4 in *; lia|].
  pose proof (push_of_length data p Hp) as Hl.
  destruct p; [cbn in Hl; lia|reflexivity].
Qed.

Lemma IsPushOnly_concat datas pushes :
  Forall2 push_of datas pushes -> IsPushOnly (concat pushes) = true.
Proof.
  induction 1 as [|d p ds ps Hp _ IH]; [reflexivity|].
  cbn [concat]. rewrite (IsPushOnly_push d p _ Hp). exact IH.
Qed.
End PushFacts.

(** X14. Push-only scripts compose: behind a script that [IsPushOnly]
    accepts, the test decides as it does on what follows.  (The converse
    fails: a push may straddle the seam.) *)
Theorem IsPushOnly_app (a b : list Z) :
  IsPushOnly a = true -> IsPushOnly (a ++ b) = IsPushOnly b.
Proof. apply (PushFacts.IsPushOnly_app_len (length a)). lia. Qed.

Lemma IsPushOnly_app_witness :
  IsPushOnly [2; 7; 9; OP_1] = true /\
  IsPushOnly ([2; 7; 9; OP_1] ++ [OP_DUP]) = IsPushOnly [OP_DUP].
Proof.
  assert (H : IsPushOnly [2; 7; 9; OP_1] = true) by reflexivity.
  split; [exact H|]. exact (IsPushOnly_app [2; 7; 9; OP_1] [OP_DUP] H).
Defined.

(** X15. An opcode above [OP_PUSHDATA4] carries no payload: [IsPushOnly]
    accepts it when it is at most [OP_16] (so [OP_1NEGATE], [OP_RESERVED]
    and [OP_1] to [OP_16] count as pushes) and rejects the script at the
    first opcode above [OP_16]. *)
Theorem IsPushOnly_opcode (op : Z) (rest : list Z) :
  OP_PUSHDATA4 < op ->
  IsPushOnly (op :: rest) = (op <=? OP_16) && IsPushOnly rest.
Proof.
  intros Hop. rewrite PushFacts.IsPushOnly_eq.
  rewrite (ScriptFacts.GetScriptOp_nonpush op rest Hop).
  destruct (Z.ltb_spec OP_16 op); destruct (Z.leb_spec op OP_16); try lia; reflexivity.
Qed.

Lemma IsPushOnly_opcode_witness :
  OP_PUSHDATA4 < OP_RESERVED /\
  IsPushOnly (OP_RESERVED :: [OP_DUP]) = (OP_RESERVED <=? OP_16) && IsPushOnly [OP_DUP].
Proof.
  assert (H : OP_PUSHDATA4 < OP_RESERVED) by reflexivity.
  split; [exact H|]. exact (IsPushOnly_opcode OP_RESERVED [OP_DUP] H).
Defined.

(** X16. A push whose payload is cut short by the end of the script makes
    [IsPushOnly] fail, also behind a push-only script. *)
Theorem IsPushOnly_truncated_push (a : list Z) (n : Z) (d : list Z) :
  IsPushOnly a = true -> 1 <= n <= 0x4b -> size d < n ->
  IsPushOnly (a ++ n :: d) = false.
Proof.
  intros Ha Hn Hd.
  rewrite (PushFacts.IsPushOnly_app_len (length a) a (n :: d) (Nat.le_refl _) Ha).
  rewrite PushFacts.IsPushOnly_eq. unfold GetScriptOp, OP_PUSHDATA4, OP_PUSHDATA1.
  destruct (Z.leb_spec n 78); [|lia].
  destruct (Z.ltb_spec n 76); [|lia].
  cbn [Nat.ltb Nat.leb skipn].
  destruct (Z.ltb_spec (size d) n); [reflexivity|lia].
Qed.

Lemma IsPushOnly_truncated_push_witness :
  (IsPushOnly [OP_1] = true /\ 1 <= 3 <= 0x4b /\ size [7; 9] < 3) /\
  IsPushOnly ([OP_1] ++ 3 :: [7; 9]) = false.
Proof.
  assert (H1 : IsPushOnly [OP_1] = true) by reflexivity.
  assert (H2 : 1 <= 3 <= 0x4b) by lia.
  assert (H3 : size [7; 9] < 3) by (cbn; lia).
  split; [exact (conj H1 (conj H2 H3))|].
  exact (IsPushOnly_truncated_push [OP_1] 3 [7; 9] H1 H2 H3).
Defined.

(** X17. [OP_RETURN] followed by any sequence of data pushes, each in one of
    the four encodings (direct, [OP_PUSHDATA1], [2] or [4]), is [NULL_DATA]
    with no solution, whatever the payloads and their number; and
    [ExtractDestination] returns false without an address for it. *)
Theorem Solver_null_data_pushes (datas pushes : list (list Z))
  (params : core.Params) (addressRet : list string) :
  Forall2 push_of datas pushes ->
  Solver (OP_RETURN :: concat pushes) = (NULL_DATA, []) /\
  ExtractDestination (OP_RETURN :: concat pushes) params addressRet
  = (false, addressRet).
Proof.
  intros H. pose proof (PushFacts.IsPushOnly_concat datas pushes H) as Hp.
  assert (HS : Solver (OP_RETURN :: concat pushes) = (NULL_DATA, [])).
  { unfold Solver.
    rewrite SolverFacts.not_p2sh_head by (cbn; discriminate).
    rewrite SolverFacts.not_witness_head
      by (change (at_ (OP_RETURN :: concat pushes) 0) with OP_RETURN;
          unfold OP_RETURN, OP_0, OP_1, OP_16; lia).
    change (at_ (OP_RETURN :: concat pushes) 0) with OP_RETURN.
    change (skipn 1 (OP_RETURN :: concat pushes)) with (concat pushes).
    rewrite Hp, Z.eqb_refl, !andb_true_r.
    destruct (Z.leb_spec 1 (size (OP_RETURN :: concat pushes))) as [_|Hs]; [reflexivity|].
    unfold size in Hs. cbn [length] in Hs. lia. }
  split; [exact HS|]. unfold ExtractDestination. rewrite HS. reflexivity.
Qed.

Lemma Solver_null_data_pushes_witness :
  Forall2 push_of [[7; 9]; [5]] [[2; 7; 9]; [OP_PUSHDATA1; 1; 5]] /\
  Solver (OP_RETURN :: concat [[2; 7; 9]; [OP_PUSHDATA1; 1; 5]]) = (NULL_DATA, []) /\
  ExtractDestination (OP_RETURN :: concat [[2; 7; 9]; [OP_PUSHDATA1; 1; 5]]) mainnet []
  = (false, []).
Proof.
  assert (H : Forall2 push_of [[7; 9]; [5]] [[2; 7; 9]; [OP_PUSHDATA1; 1; 5]]).
  { constructor; [apply (push_direct [7; 9]); cbn; lia|].
    constructor; [apply (push_data1 [5]); cbn; lia|constructor]. }
  split; [exact H|].
  exact (Solver_null_data_pushes [[7; 9]; [5]] [[2; 7; 9]; [OP_PUSHDATA1; 1; 5]]
           mainnet [] H).
Defined.

(* ================================================================= *)
(** ** Solutions and addresses *)

Module TableFacts.
Import ScriptFacts RoundTripFacts SolverFacts.

Lemma IsWitnessProgram_version s v p :
  IsWitnessProgram s = Some (v, p) ->
  v = 0 \/ 1 <= v <= 16.
Proof.
  unfold IsWitnessProgram. intros H.
  destruct (_ || _); [discriminate|].
  destruct (_ && _) eqn:Hop; [discriminate|].
  destruct (size_t (at_ s 1 + 2) =? size s); [|discriminate].
  assert (Hv : v = DecodeOP_N (at_ s 0)) by congruence.
  assert (Hr : at_ s 0 = OP_0 \/ OP_1 <= at_ s 0 <= OP_16).
  { apply andb_false_iff in Hop. destruct Hop as [Hop|Hop].
    - apply negb_false_iff, Z.eqb_eq in Hop. left. exact Hop.
    - apply orb_false_iff in Hop. destruct Hop as [Ha Hb].
      apply Z.ltb_ge in Ha, Hb. right. lia. }
  destruct (DecodeOP_N_range _ Hr) as [[_ Hd]|[Hd _]]; rewrite Hv; [left|right]; assumption.
Qed.

Lemma to_uchar_small z : 0 <= z < 256 -> to_uchar z = z.
Proof. intros H. unfold to_uchar. apply Z.mod_small. exact H. Qed.

(** What [Solver] returns obeys the table of solutions. *)
Lemma Solver_table s t sols : Solver s = (t, sols) -> solutions_table t sols.
Proof.
  intros H.
  destruct (IsPayToScriptHash s) eqn:Hp2sh.
  { unfold Solver in H. rewrite Hp2sh in H. injection H as <- <-.
    destruct (IsPayToScriptHash_inv s Hp2sh) as [Hl _].
    exists (slice s 2 22). unfold size. rewrite Hl. auto. }
  destruct (IsWitnessProgram s) as [[v p]|] eqn:Hw.
  { rewrite (Solver_witness_program s v p Hw) in H.
    destruct (IsWitnessProgram_bounds s v p Hw) as [Hp _].
    pose proof (IsWitnessProgram_version s v p Hw) as Hv.
    destruct (Z.eqb_spec v 0) as [Hv0|Hv0]; cbn [andb negb] in H.
    - destruct (Z.eqb_spec (size p) 20).
      { injection H as <- <-. exists p. auto. }
      destruct (Z.eqb_spec (size p) 32).
      { injection H as <- <-. exists p. auto. }
      destruct (Z.eqb_spec v 1); [lia|]. cbn [andb] in H.
      injection H as <- <-. reflexivity.
    - destruct ((v =? 1) && (size p =? 32)) eqn:E.
      + apply andb_true_iff in E. destruct E as [_ E]. apply Z.eqb_eq in E.
        injection H as <- <-. exists p. auto.
      + injection H as <- <-. exists v, p.
        rewrite to_uchar_small by lia. repeat split; lia. }
  unfold Solver in H. rewrite Hp2sh, Hw in H.
  destruct (_ && _).
  { injection H as <- <-. reflexivity. }
  destruct (MatchPayToPubkey s) as [[[|] k]|] eqn:Hpk.
  { injection H as <- <-. destruct (MatchPayToPubkey_inv s k Hpk) as [Hk _].
    exists k. split; [reflexivity|]. apply well_sized_size. exact Hk. }
  all: destruct (MatchPayToPubkeyHash s) as [h|] eqn:Hpkh;
    [ injection H as <- <-; destruct (MatchPayToPubkeyHash_inv s h Hpkh) as [Hl _];
      exists h; unfold size; rewrite Hl; auto | ].
  all: destruct (MatchMultisig s) as [[required keys]|] eqn:Hm;
    [ | injection H as <- <-; reflexivity ].
  all: injection H as <- <-;
    destruct (ExtractFacts.MatchMultisig_keys s required keys Hm) as (Hk & Hn & Hr);
    exists required, keys;
    rewrite !to_uchar_small by lia;
    (split; [reflexivity|]); (split; [lia|]); (split; [lia|]);
    (eapply Forall_impl; [|exact Hk]); intros k0 Hk0; apply well_sized_size; exact Hk0.
Qed.

(** [ExtractDestination], kind by kind, on solutions that obey the table. *)
Lemma ExtractDestination_by_kind s params a t sols :
  Solver s = (t, sols) ->
  match t with
  | NONSTANDARD | NULL_DATA => ExtractDestination s params a = (false, a)
  | MULTISIG => fst (ExtractDestination s params a) = false
  | _ => exists addr, ExtractDestination s params a = (true, a ++ [addr])
  end.
Proof.
  intros H. pose proof (Solver_table s t sols H) as Ht.
  unfold ExtractDestination. rewrite H.
  destruct t; cbn [solutions_table] in Ht; try reflexivity.
  - destruct Ht as (k & -> & Hk). cbn [nth].
    destruct (Z.eqb_spec (size k) 0); [lia|]. eexists. reflexivity.
  - eexists. reflexivity.
  - eexists. reflexivity.
  - eexists. reflexivity.
  - eexists. reflexivity.
  - eexists. reflexivity.
  - destruct Ht as (v & p & -> & Hv & Hp). cbn [nth]. change (at_ [v] 0) with v.
    destruct (Z.ltb_spec v 1); [lia|]. destruct (Z.ltb_spec 16 v); [lia|].
    destruct (Z.ltb_spec (size p) 2); [lia|]. destruct (Z.ltb_spec 40 (size p)); [lia|].
    cbn [orb]. eexists. reflexivity.
Qed.
End TableFacts.

(** X18. The solutions [Solver] returns obey the table of the kinds: none
    for [NONSTANDARD] and [NULL_DATA]; one key of 33 or 65 bytes for
    [PUBKEY]; one payload of 20 bytes for [PUBKEYHASH], [SCRIPTHASH] and
    [WITNESS_V0_KEYHASH] and of 32 bytes for [WITNESS_V0_SCRIPTHASH] and
    [WITNESS_V1_TAPROOT]; a version 1 to 16 and a program of 2 to 40 bytes
    for [WITNESS_UNKNOWN]; [m], the keys and their number for [MULTISIG].
    So every index [ExtractDestination] uses is in range. *)
Theorem Solver_solutions_table (s : list Z) :
  solutions_table (fst (Solver s)) (snd (Solver s)).
Proof. apply (TableFacts.Solver_table s). apply surjective_pairing. Qed.

(** X19. [ExtractDestination] returns true exactly for the seven kinds with
    one address ([PUBKEY], [PUBKEYHASH], [SCRIPTHASH], the three known
    witness kinds and [WITNESS_UNKNOWN]), and then it has appended exactly
    one address; for [NONSTANDARD] and [NULL_DATA] it appends nothing.  The
    guards on an empty key and on the version and length of an unknown
    witness program never fire. *)
Theorem ExtractDestination_true_iff (s : list Z) (params : core.Params)
  (addressRet : list string) :
  (fst (ExtractDestination s params addressRet) = true <->
   fst (Solver s) <> NONSTANDARD /\ fst (Solver s) <> NULL_DATA
   /\ fst (Solver s) <> MULTISIG) /\
  (fst (ExtractDestination s params addressRet) = true ->
   exists addr, snd (ExtractDestination s params addressRet) = addressRet ++ [addr]) /\
  (fst (Solver s) = NONSTANDARD \/ fst (Solver s) = NULL_DATA ->
   ExtractDestination s params addressRet = (false, addressRet)).
Proof.
  destruct (Solver s) as [t sols] eqn:HS. cbn [fst].
  pose proof (TableFacts.ExtractDestination_by_kind s params addressRet t sols HS) as H.
  destruct t; cbn beta iota in H;
    try (match type of H with ex _ => destruct H as [addr H] end);
    rewrite ?H; cbn [fst snd];
    (split; [split|split]).
  all: try (intros (E1 & E2 & E3);
            first [ reflexivity
                  | exfalso;
                    first [apply E1; reflexivity|apply E2; reflexivity|apply E3; reflexivity] ]).
  all: try (intros [E|E]; first [discriminate E|reflexivity]).
  all: intros E; first [discriminate E|eexists; reflexivity|repeat split; discriminate].
Qed.

(** X20. [ExtractDestination] only appends: the addresses found on entry are
    kept, in order, in front of the new ones, and neither the result nor the
    new addresses depend on them. *)
Theorem ExtractDestination_appends (s : list Z) (params : core.Params)
  (addressRet : list string) :
  ExtractDestination s params addressRet
  = (fst (ExtractDestination s params []),
     addressRet ++ snd (ExtractDestination s params [])).
Proof.
  unfold ExtractDestination.
  destruct (Solver s) as [t sols].
  destruct t; cbn [fst snd app]; rewrite ?app_nil_r; try reflexivity.
  - destruct (_ =? _); cbn [fst snd app]; rewrite ?app_nil_r; reflexivity.
  - destruct (_ || _); cbn [fst snd app]; rewrite ?app_nil_r; reflexivity.
Qed.

Module AddressFacts.
Import ScriptFacts.

(** The bound on the length is the last test of [DecodeBase58]. *)
Lemma DecodeBase58_max str m1 m2 v :
  DecodeBase58 str m1 = Some v ->
  DecodeBase58 str m2 = if m2 <? size v then None else Some v.
Proof.
  unfold DecodeBase58.
  destruct (map_option _ _) as [ds|]; [|discriminate].
  destruct (m1 <? _); [discriminate|].
  intros H. injection H as <-. reflexivity.
Qed.

Lemma DecodeBase58_checked data m :
  is_bytes data ->
  DecodeBase58 (EncodeBase58Check data) m
  = if m <? size data + 4 then None else Some (data ++ firstn 4 (Hash data)).
Proof.
  intros Hb. destruct (Base58Facts.checksum_spec data) as [Hl Hc].
  assert (Hs : size (data ++ firstn 4 (Hash data)) = size data + 4).
  { rewrite size_app. unfold size at 2. rewrite Hl. reflexivity. }
  unfold EncodeBase58Check.
  rewrite (DecodeBase58_max _ (size data + 4) m (data ++ firstn 4 (Hash data))).
  - rewrite Hs. reflexivity.
  - apply Base58Facts.DecodeBase58_EncodeBase58.
    + apply is_bytes_app. split; assumption.
    + rewrite Hs. lia.
Qed.

(** A payload longer than the bound is rejected, whatever its checksum. *)
Lemma DecodeBase58Check_too_long data m :
  is_bytes data -> m < size data ->
  DecodeBase58Check (EncodeBase58Check data) m = None.
Proof.
  intros Hb Hm. unfold DecodeBase58Check.
  rewrite (DecodeBase58_checked data (m + 4) Hb).
  destruct (Z.ltb_spec (m + 4) (size data + 4)); [reflexivity|lia].
Qed.

Lemma DecodeBase58Check_size str m data :
  DecodeBase58Check str m = Some data -> size data <= m.
Proof.
  unfold DecodeBase58Check, DecodeBase58.
  destruct (map_option _ _) as [ds|]; [|discriminate].
  match goal with |- context [?a <? size ?v] =>
    destruct (Z.ltb_spec a (size v)) as [|Hv]; [discriminate|]; set (vch := v) in * end.
  destruct (Z.ltb_spec (size vch) 4) as [|H4]; [discriminate|].
  destruct (bytes_eqb _ _); [|discriminate].
  intros H. injection H as <-. unfold size in *. rewrite length_firstn. lia.
Qed.
End AddressFacts.

(** X21. The address [ExtractDestination] produces for a [PUBKEY] script
    carries the whole key behind the prefix, 34 bytes or more, and is not
    an address [DecodeDestination] accepts: unless it is taken for a Bech32
    string, it is rejected for its length. *)
Theorem pubkey_address_not_decodable (s : list Z) (params : core.Params)
  (sols : list (list Z)) :
  is_bytes s ->
  is_bytes (core.base58Prefixes params core.PUBKEY_ADDRESS) ->
  size (core.base58Prefixes params core.PUBKEY_ADDRESS) <= 31 ->
  Solver s = (PUBKEY, sols) ->
  exists addr,
    ExtractDestination s params [] = (true, [addr]) /\
    (is_bech32 addr params = false ->
     DecodeDestination addr [] params
     = mk_decoded false []
         "Invalid checksum or length of Base58 address (P2PKH or P2SH)").
Proof.
  intros Hb Hpb Hpl HS.
  destruct (SolverFacts.Solver_PUBKEY s sols HS) as (k & Hm & ->).
  destruct (SolverFacts.MatchPayToPubkey_inv s k Hm) as [Hw Hs].
  pose proof (ScriptFacts.well_sized_size k Hw) as Hk.
  assert (Hkb : is_bytes k).
  { rewrite Hs in Hb. apply ScriptFacts.is_bytes_app in Hb. destruct Hb as [_ Hb].
    apply ScriptFacts.is_bytes_app in Hb. tauto. }
  set (data := core.base58Prefixes params core.PUBKEY_ADDRESS ++ k).
  assert (Hdb : is_bytes data) by (apply ScriptFacts.is_bytes_app; split; assumption).
  assert (Hds : size data = size (core.base58Prefixes params core.PUBKEY_ADDRESS) + size k)
    by apply ScriptFacts.size_app.
  pose proof (ScriptFacts.size_nonneg (core.base58Prefixes params core.PUBKEY_ADDRESS)).
  exists (EncodeBase58Check data). split.
  - unfold ExtractDestination. rewrite HS. cbn [nth].
    destruct (Z.eqb_spec (size k) 0); [lia|]. reflexivity.
  - intros Hbech. unfold DecodeDestination. rewrite Hbech. cbn [negb].
    rewrite (AddressFacts.DecodeBase58Check_too_long data 21 Hdb) by lia.
    rewrite (AddressFacts.DecodeBase58_checked data 100 Hdb).
    destruct (Z.ltb_spec 100 (size data + 4)); [lia|]. reflexivity.
Qed.

Lemma pubkey_address_not_decodable_witness :
  (is_bytes example_p2pk /\
   is_bytes (core.base58Prefixes mainnet core.PUBKEY_ADDRESS) /\
   size (core.base58Prefixes mainnet core.PUBKEY_ADDRESS) <= 31 /\
   Solver example_p2pk = (PUBKEY, [example_key])) /\
  exists addr,
    ExtractDestination example_p2pk mainnet [] = (true, [addr]) /\
    (is_bech32 addr mainnet = false ->
     DecodeDestination addr [] mainnet
     = mk_decoded false []
         "Invalid checksum or length of Base58 address (P2PKH or P2SH)").
Proof.
  assert (H1 : is_bytes example_p2pk)
    by (apply ScriptFacts.bytesb_spec; vm_compute; reflexivity).
  assert (H2 : is_bytes (core.base58Prefixes mainnet core.PUBKEY_ADDRESS))
    by (apply ScriptFacts.bytesb_spec; vm_compute; reflexivity).
  assert (H3 : size (core.base58Prefixes mainnet core.PUBKEY_ADDRESS) <= 31)
    by (vm_compute; discriminate).
  assert (H4 : Solver example_p2pk = (PUBKEY, [example_key]))
    by (vm_compute; reflexivity).
  split; [exact (conj H1 (conj H2 (conj H3 H4)))|].
  exact (pubkey_address_not_decodable example_p2pk mainnet [example_key] H1 H2 H3 H4).
Defined.

(** X22. No round trip for unknown witness versions: the address
    [ExtractDestination] produces for a [WITNESS_UNKNOWN] script decodes, but
    to the version opcode followed at once by the program; the byte that
    holds the program's length is lost, so the script that comes back is one
    byte shorter than the one that went in. *)
Theorem witness_unknown_round_trip (s : list Z) (params : core.Params)
  (sols : list (list Z)) :
  is_bytes s -> valid_hrp (core.bech32_hrp params) ->
  (String.length (core.bech32_hrp params) <= 18)%nat ->
  Solver s = (WITNESS_UNKNOWN, sols) ->
  exists addr,
    ExtractDestination s params [] = (true, [addr]) /\
    DecodeDestination addr [] params = mk_decoded true (at_ s 0 :: skipn 2 s) "" /\
    size (at_ s 0 :: skipn 2 s) = size s - 1.
Proof.
  intros Hb [Hhl Hhc] Hh18 HS.
  destruct (SolverFacts.Solver_WITNESS_UNKNOWN s sols HS) as (v & p & Hw & Hv0 & Hn & ->).
  destruct (SolverFacts.IsWitnessProgram_bounds s v p Hw) as [Hp Hskip].
  destruct (RoundTripFacts.IsWitnessProgram_inv s v p Hb Hw) as (Hs & Hv & Hop).
  destruct (SolverFacts.DecodeOP_N_range _ Hop) as [[H0 Hd]|[Hr H1]]; [congruence|].
  rewrite <- Hv in Hr, H1.
  assert (Hpb : is_bytes p).
  { rewrite Hs in Hb. apply ScriptFacts.is_bytes_cons in Hb. destruct Hb as [_ Hb].
    apply ScriptFacts.is_bytes_cons in Hb. tauto. }
  assert (Hsym : symbols 8 p) by exact Hpb.
  destruct (BitsFacts.ConvertBits_pad 8 5 p ltac:(lia) ltac:(lia) Hsym)
    as (y & pad & Hy & Hsy & Hpad & _ & Hylen).
  destruct (BitsFacts.ConvertBits_round_trip 8 5 p ltac:(lia) ltac:(lia) Hsym)
    as (y' & Hy' & Hback).
  assert (y' = y) by congruence. subst y'.
  assert (Hu : to_uchar v = v) by (unfold to_uchar; apply Z.mod_small; lia).
  set (addr := bech32.Encode bech32.BECH32M (core.bech32_hrp params) (v :: y)).
  assert (HE : ExtractDestination s params [] = (true, [addr])).
  { unfold ExtractDestination. rewrite HS. cbn [nth]. change (at_ [to_uchar v] 0) with (to_uchar v).
    rewrite !Hu.
    destruct (Z.ltb_spec v 1); [lia|]. destruct (Z.ltb_spec 16 v); [lia|].
    destruct (Z.ltb_spec (size p) 2); [lia|]. destruct (Z.ltb_spec 40 (size p)); [lia|].
    cbn [orb]. rewrite ScriptFacts.to_nat_size, firstn_all.
    rewrite DecodeFacts.ConvertBits_bytes_eq by lia. rewrite Hy. reflexivity. }
  assert (Hvals : symbols 5 (v :: y)).
  { constructor; [change (2 ^ 5) with 32; lia|exact Hsy]. }
  assert (Hyl : (length y <= 64)%nat) by (unfold size in Hp; lia).
  assert (Hdec : bech32.Decode addr = bech32.mk bech32.BECH32M (core.bech32_hrp params) (v :: y)).
  { unfold addr. apply Bech32Facts.Decode_Encode; try assumption; try lia.
    - discriminate.
    - cbn [length]. lia. }
  assert (Hbech : is_bech32 addr params = true).
  { apply DecodeFacts.Decode_is_bech32; rewrite Hdec; reflexivity. }
  exists addr. split; [exact HE|]. rewrite <- Hskip. split.
  - unfold DecodeDestination. rewrite Hbech, Hdec.
    cbn [negb bech32.encoding bech32.hrp bech32.data at_ nth skipn is_bech32_encoding
         encoding_eqb andb].
    rewrite String.eqb_refl. cbn [negb].
    replace (size (v :: y) =? 0) with false
      by (symmetry; apply Z.eqb_neq; rewrite ScriptFacts.size_cons;
          pose proof (ScriptFacts.size_nonneg y); lia).
    destruct (Z.eqb_spec v 0); [lia|]. cbn [negb andb].
    rewrite DecodeFacts.ConvertBits_bytes_eq by lia. rewrite Hback.
    unfold WITNESS_V1_TAPROOT_SIZE, BECH32_WITNESS_PROG_MAX_LEN.
    replace ((v =? 1) && (size p =? 32)) with false.
    2:{ symmetry. apply andb_false_iff.
        destruct (Z.eqb_spec v 1); [|left; reflexivity].
        right. apply Z.eqb_neq. intros E. apply Hn. auto. }
    destruct (Z.ltb_spec 16 v); [lia|].
    destruct (Z.ltb_spec (size p) 2); [lia|].
    destruct (Z.ltb_spec 40 (size p)); [lia|].
    cbn [orb]. unfold insert_at. cbn [app firstn skipn]. rewrite app_nil_r.
    f_equal. f_equal.
    unfold EncodeOP_N. destruct (Z.eqb_spec v 0); [lia|]. symmetry. exact H1.
  - rewrite Hs at 2. rewrite !ScriptFacts.size_cons. lia.
Qed.

Lemma witness_unknown_round_trip_witness :
  (is_bytes [OP_1 + 2 - 1; 2; 7; 9] /\ valid_hrp (core.bech32_hrp mainnet) /\
   (String.length (core.bech32_hrp mainnet) <= 18)%nat /\
   Solver [OP_1 + 2 - 1; 2; 7; 9] = (WITNESS_UNKNOWN, [[2]; [7; 9]])) /\
  exists addr,
    ExtractDestination [OP_1 + 2 - 1; 2; 7; 9] mainnet [] = (true, [addr]) /\
    DecodeDestination addr [] mainnet
    = mk_decoded true (at_ [OP_1 + 2 - 1; 2; 7; 9] 0 :: skipn 2 [OP_1 + 2 - 1; 2; 7; 9]) "" /\
    size (at_ [OP_1 + 2 - 1; 2; 7; 9] 0 :: skipn 2 [OP_1 + 2 - 1; 2; 7; 9])
    = size [OP_1 + 2 - 1; 2; 7; 9] - 1.
Proof.
  assert (H1 : is_bytes [OP_1 + 2 - 1; 2; 7; 9])
    by (apply ScriptFacts.bytesb_spec; vm_compute; reflexivity).
  assert (H2 : valid_hrp (core.bech32_hrp mainnet)) by (apply mainnet_standard).
  assert (H3 : (String.length (core.bech32_hrp mainnet) <= 18)%nat) by (cbn; lia).
  assert (H4 : Solver [OP_1 + 2 - 1; 2; 7; 9] = (WITNESS_UNKNOWN, [[2]; [7; 9]]))
    by (vm_compute; reflexivity).
  split; [exact (conj H1 (conj H2 (conj H3 H4)))|].
  exact (witness_unknown_round_trip [OP_1 + 2 - 1; 2; 7; 9] mainnet [[2]; [7; 9]]
           H1 H2 H3 H4).
Defined.

(* ================================================================= *)
(** ** The paths of the decoder *)

Module BranchFacts.
Import ScriptFacts.

Lemma length_insert_at v pos xs :
  length (insert_at v pos xs) = (length v + length xs)%nat.
Proof.
  unfold insert_at. rewrite !length_app, length_firstn, length_skipn. lia.
Qed.

(** The symbols [bech32::Decode] returns are indices into the alphabet. *)
Lemma index_of_range x l i : index_of x l = Some i -> 0 <= i < size l.
Proof.
  revert i. induction l as [|y l IH]; intros i H; [discriminate|].
  cbn [index_of] in H. rewrite size_cons. pose proof (size_nonneg l).
  destruct (y =? x); [injection H as <-; lia|].
  destruct (index_of x l) as [j|]; [|discriminate].
  injection H as <-. specialize (IH j eq_refl). lia.
Qed.

Lemma map_option_range cs : forall vs,
  map_option (fun c => index_of c bech32.CHARSET) cs = Some vs -> symbols 5 vs.
Proof.
  induction cs as [|c cs IH]; intros vs H; cbn [map_option] in H.
  - injection H as <-. constructor.
  - destruct (index_of c bech32.CHARSET) as [i|] eqn:Ei; [|discriminate].
    destruct (map_option _ cs) as [ws|]; [|discriminate].
    injection H as <-. constructor; [|apply IH; reflexivity].
    apply index_of_range in Ei. exact Ei.
Qed.

Lemma Decode_data_symbols str : symbols 5 (bech32.data (bech32.Decode str)).
Proof.
  unfold bech32.Decode.
  destruct (negb _); [constructor|].
  destruct (_ && _); [constructor|].
  destruct (bech32.rfind _ _) as [pos|]; [|constructor].
  destruct (_ || _); [constructor|].
  destruct (map_option _ _) as [values|] eqn:E; [|constructor].
  apply map_option_range in E.
  assert (Hf : symbols 5 (firstn (length values - 6) values)).
  { rewrite <- (firstn_skipn (length values - 6) values) in E.
    apply Forall_app in E. tauto. }
  destruct (bech32.VerifyChecksum _ _); [apply Forall_nil|exact Hf|exact Hf].
Qed.

(** The Bech32 branch of [DecodeDestination], once the string has decoded
    to the human-readable part of the parameters and a version followed by
    symbols. *)
Lemma bech32_branch str script params v syms :
  is_bech32 str params = true ->
  is_bech32_encoding (bech32.encoding (bech32.Decode str)) = true ->
  bech32.hrp (bech32.Decode str) = core.bech32_hrp params ->
  bech32.data (bech32.Decode str) = v :: syms ->
  DecodeDestination str script params =
  let enc := bech32.encoding (bech32.Decode str) in
  if (v =? 0) && negb (encoding_eqb enc bech32.BECH32) then
    fail script "Version 0 witness address must use Bech32 checksum"
  else if negb (v =? 0) && negb (encoding_eqb enc bech32.BECH32M) then
    fail script "Version 1+ witness address must use Bech32m checksum"
  else
    let '(converted, data) := ConvertBits 5 8 false syms in
    if converted then
      if v =? 0 then
        if size data =? 20 then
          mk_decoded true (push_program script OP_0 20 data) ""
        else if size data =? 32 then
          mk_decoded true (push_program script OP_0 32 data) ""
        else fail script (v0_size_error (size data))
      else if (v =? 1) && (size data =? 32) then
        mk_decoded true (push_program script OP_1 32 data) ""
      else if 16 <? v then fail script "Invalid Bech32 address witness version"
      else if (size data <? 2) || (40 <? size data) then
        fail script (size_error (size data))
      else mk_decoded true (insert_at (script ++ [EncodeOP_N v]) 1 data) ""
    else fail script "Invalid padding in Bech32 data section".
Proof.
  intros Hb He Hh Hd. unfold DecodeDestination.
  rewrite Hb, He, Hh, Hd, String.eqb_refl.
  cbn [negb at_ nth skipn].
  replace (size (v :: syms) =? 0) with false
    by (symmetry; apply Z.eqb_neq; rewrite size_cons; pose proof (size_nonneg syms); lia).
  rewrite (DecodeFacts.ConvertBits_bytes_eq 5 8 false syms) by lia.
  reflexivity.
Qed.

Lemma push_program_nil op push data : push_program [] op push data = [op; push] ++ data.
Proof. unfold push_program, insert_at. cbn. rewrite app_nil_r. reflexivity. Qed.

(** What [DecodeDestination] returns when it returns true. *)
Lemma success_shape str params :
  ok (DecodeDestination str [] params) = true ->
  decoded_script (script_out (DecodeDestination str [] params)).
Proof.
  destruct (is_bech32 str params) eqn:Hb.
  - (* the Bech32 branch *)
    destruct (is_bech32_encoding (bech32.encoding (bech32.Decode str))) eqn:He.
    2:{ unfold DecodeDestination. rewrite Hb, He. discriminate. }
    destruct (bech32.data (bech32.Decode str)) as [|v syms] eqn:Hd.
    { unfold DecodeDestination. rewrite Hb, He, Hd. discriminate. }
    destruct (String.eqb_spec (bech32.hrp (bech32.Decode str)) (core.bech32_hrp params))
      as [Hh|Hh].
    2:{ unfold DecodeDestination. rewrite Hb, He, Hd.
        apply String.eqb_neq in Hh. rewrite Hh. discriminate. }
    pose proof (Decode_data_symbols str) as Hsym. rewrite Hd in Hsym.
    inversion Hsym as [|? ? Hv _]; subst. change (2 ^ 5) with 32 in Hv.
    rewrite (bech32_branch str [] params v syms Hb He Hh Hd). cbn zeta.
    destruct (_ && _); [discriminate|].
    destruct (_ && _); [discriminate|].
    destruct (ConvertBits 5 8 false syms) as [[|] data]; [|discriminate].
    destruct (Z.eqb_spec v 0) as [Hv0|Hv0].
    { destruct (Z.eqb_spec (size data) 20).
      { intros _. cbn [script_out]. rewrite push_program_nil.
        apply decoded_v0_keyhash. assumption. }
      destruct (Z.eqb_spec (size data) 32); [|discriminate].
      intros _. cbn [script_out]. rewrite push_program_nil.
      apply decoded_v0_scripthash. assumption. }
    destruct ((v =? 1) && (size data =? 32)) eqn:E1.
    { apply andb_true_iff in E1. destruct E1 as [_ E1]. apply Z.eqb_eq in E1.
      intros _. cbn [script_out]. rewrite push_program_nil.
      apply decoded_v1_taproot. assumption. }
    destruct (Z.ltb_spec 16 v); [discriminate|].
    destruct (Z.ltb_spec (size data) 2); [discriminate|].
    destruct (Z.ltb_spec 40 (size data)); [discriminate|].
    intros _. cbn [orb script_out]. unfold insert_at. cbn [app firstn skipn].
    rewrite app_nil_r.
    replace (EncodeOP_N v) with (OP_1 + v - 1)
      by (unfold EncodeOP_N; destruct (Z.eqb_spec v 0); [lia|reflexivity]).
    apply decoded_version; lia.
  - (* the Base58 branch *)
    unfold DecodeDestination. rewrite Hb. cbn [negb].
    destruct (DecodeBase58Check str 21) as [data|].
    2:{ destruct (DecodeBase58 str 100); discriminate. }
    set (pk := core.base58Prefixes params core.PUBKEY_ADDRESS).
    set (sh := core.base58Prefixes params core.SCRIPT_ADDRESS).
    assert (Hskip : forall pre : list Z, size data = 20 + size pre ->
              size (skipn (length pre) data) = 20).
    { intros pre H. unfold size in *. rewrite length_skipn. lia. }
    destruct ((size data =? 20 + size pk) && starts_with pk data) eqn:E1.
    { apply andb_true_iff in E1. destruct E1 as [E1 _]. apply Z.eqb_eq in E1.
      intros _. cbn [script_out]. unfold insert_at, EncodePushBytes_N.
      cbn [app firstn skipn]. rewrite app_nil_r.
      apply decoded_pubkeyhash. apply Hskip. exact E1. }
    destruct ((size data =? 20 + size sh) && starts_with sh data) eqn:E2.
    { apply andb_true_iff in E2. destruct E2 as [E2 _]. apply Z.eqb_eq in E2.
      intros _. cbn [script_out]. unfold insert_at, EncodePushBytes_N.
      cbn [app firstn skipn]. rewrite app_nil_r.
      apply decoded_scripthash. apply Hskip. exact E2. }
    destruct (_ || _); discriminate.
Qed.
End BranchFacts.

(** X23. [DecodeDestination] returns true exactly when it leaves the error
    string empty: every path that fails sets a message, every path that
    succeeds leaves the string as it was cleared on entry. *)
Theorem DecodeDestination_ok_iff_no_error (str : string) (script : list Z)
  (params : core.Params) :
  ok (DecodeDestination str script params) = true <->
  error_str (DecodeDestination str script params) = ""%string.
Proof.
  unfold DecodeDestination.
  repeat branch; cbn [ok error_str fail]; split; intros E;
    first [ reflexivity | discriminate E
          | exfalso; revert E;
            first [ apply DecodeFacts.prefix_error_nonempty
                  | apply DecodeFacts.v0_size_error_nonempty
                  | apply DecodeFacts.size_error_nonempty ] ].
Qed.

(** X24. What [DecodeDestination] decides does not depend on the script it
    is given: the result and the message are those for an empty script, and
    the script only grows, by the bytes written for an empty one. *)
Theorem DecodeDestination_script_independent (str : string) (script : list Z)
  (params : core.Params) :
  ok (DecodeDestination str script params) = ok (DecodeDestination str [] params) /\
  error_str (DecodeDestination str script params)
  = error_str (DecodeDestination str [] params) /\
  size (script_out (DecodeDestination str script params))
  = size script + size (script_out (DecodeDestination str [] params)).
Proof.
  unfold DecodeDestination.
  repeat branch; cbn [ok error_str script_out fail];
    (split; [reflexivity|split; [reflexivity|]]);
    unfold push_program, size;
    rewrite ?length_app, ?BranchFacts.length_insert_at, ?length_app;
    cbn [length]; lia.
Qed.

(** X25. When [DecodeDestination] returns true on an empty script, the script
    it leaves is one of six: the pay-to-pubkey-hash or the pay-to-script-hash
    script of a 20-byte hash, a version-0 program of 20 or of 32 bytes, a
    version-1 program of 32 bytes, each behind its length byte, or a version
    opcode [OP_1] to [OP_16] followed at once by a program of 2 to 40
    bytes. *)
Theorem DecodeDestination_success_shapes (str : string) (params : core.Params) :
  ok (DecodeDestination str [] params) = true ->
  decoded_script (script_out (DecodeDestination str [] params)).
Proof. apply BranchFacts.success_shape. Qed.

Lemma DecodeDestination_success_shapes_witness :
  ok (DecodeDestination "bc1qw508d6qejxtdg4y5r3zarvary0c5xw7kv8f3t4" [] mainnet) = true /\
  decoded_script
    (script_out (DecodeDestination "bc1qw508d6qejxtdg4y5r3zarvary0c5xw7kv8f3t4" [] mainnet)).
Proof.
  assert (H : ok (DecodeDestination "bc1qw508d6qejxtdg4y5r3zarvary0c5xw7kv8f3t4" []
                    mainnet) = true) by (vm_compute; reflexivity).
  split; [exact H|].
  exact (DecodeDestination_success_shapes
           "bc1qw508d6qejxtdg4y5r3zarvary0c5xw7kv8f3t4" mainnet H).
Defined.

(** X26. Decoding composes with the classifier: a script that
    [DecodeDestination] wrote for a Base58 address or for a witness program
    behind its length byte is typed by [Solver] as one of the five
    single-address kinds, with one solution; the only other script it writes
    is a version opcode followed at once by the program. *)
Theorem decoded_script_kind (str : string) (params : core.Params) :
  ok (DecodeDestination str [] params) = true ->
  (exists t h,
      Solver (script_out (DecodeDestination str [] params)) = (t, [h]) /\
      (Base58_kind t \/ Bech32_kind t)) \/
  (exists v p,
      1 <= v <= 16 /\ 2 <= size p <= 40 /\
      script_out (DecodeDestination str [] params) = (OP_1 + v - 1) :: p).
Proof.
  intros H. pose proof (BranchFacts.success_shape str params H) as Hs.
  destruct Hs as [h Hl|h Hl|p Hl|p Hl|p Hl|v p Hv Hp].
  - left. exists PUBKEYHASH, h. split; [|left; left; reflexivity].
    apply (SolverFacts.size_length h 20) in Hl. explode h Hl. reflexivity.
  - left. exists SCRIPTHASH, h. split; [|left; right; reflexivity].
    apply (SolverFacts.size_length h 20) in Hl. explode h Hl. reflexivity.
  - left. exists WITNESS_V0_KEYHASH, p. split; [|right; left; reflexivity].
    apply (SolverFacts.size_length p 20) in Hl. explode p Hl. reflexivity.
  - left. exists WITNESS_V0_SCRIPTHASH, p. split; [|right; right; left; reflexivity].
    apply (SolverFacts.size_length p 32) in Hl. explode p Hl. reflexivity.
  - left. exists WITNESS_V1_TAPROOT, p. split; [|right; right; right; reflexivity].
    apply (SolverFacts.size_length p 32) in Hl. explode p Hl. reflexivity.
  - right. exists v, p. auto.
Qed.

Lemma decoded_script_kind_witness :
  ok (DecodeDestination "1A1zP1eP5QGefi2DMPTfTL5SLmv7DivfNa" [] mainnet) = true /\
  ((exists t h,
       Solver (script_out (DecodeDestination "1A1zP1eP5QGefi2DMPTfTL5SLmv7DivfNa" []
                             mainnet)) = (t, [h]) /\
       (Base58_kind t \/ Bech32_kind t)) \/
   (exists v p,
       1 <= v <= 16 /\ 2 <= size p <= 40 /\
       script_out (DecodeDestination "1A1zP1eP5QGefi2DMPTfTL5SLmv7DivfNa" [] mainnet)
       = (OP_1 + v - 1) :: p)).
Proof.
  assert (H : ok (DecodeDestination "1A1zP1eP5QGefi2DMPTfTL5SLmv7DivfNa" [] mainnet)
              = true) by (vm_compute; reflexivity).
  split; [exact H|].
  exact (decoded_script_kind "1A1zP1eP5QGefi2DMPTfTL5SLmv7DivfNa" mainnet H).
Defined.

(** X27. A string that reaches the Bech32 branch and decodes with encoding
    BECH32, non-empty data and the human-readable part of the parameters is
    rejected when its witness version is not 0: [DecodeDestination] returns
    false with the error "Version 1+ witness address must use Bech32m
    checksum" and leaves the script as it was. *)
Theorem DecodeDestination_v1_bech32 (str : string) (script : list Z)
  (params : core.Params) :
  is_bech32 str params = true ->
  bech32.encoding (bech32.Decode str) = bech32.BECH32 ->
  bech32.data (bech32.Decode str) <> [] ->
  bech32.hrp (bech32.Decode str) = core.bech32_hrp params ->
  at_ (bech32.data (bech32.Decode str)) 0 <> 0 ->
  DecodeDestination str script params
  = mk_decoded false script "Version 1+ witness address must use Bech32m checksum".
Proof.
  intros Hb He Hd Hh Hv.
  destruct (bech32.data (bech32.Decode str)) as [|v syms] eqn:Ed; [contradiction|].
  change (at_ (v :: syms) 0) with v in Hv.
  rewrite (BranchFacts.bech32_branch str script params v syms Hb); try assumption.
  2:{ rewrite He. reflexivity. }
  cbn zeta. rewrite He. destruct (Z.eqb_spec v 0); [contradiction|]. reflexivity.
Qed.

Lemma DecodeDestination_v1_bech32_witness :
  let str := "bc1pvt5s0v2uhuna2sjnn84ldu8m2r4m3rccvt5s0v2uhuna2sjnn84s5wnnqc"%string in
  (is_bech32 str mainnet = true /\
   bech32.encoding (bech32.Decode str) = bech32.BECH32 /\
   bech32.data (bech32.Decode str) <> [] /\
   bech32.hrp (bech32.Decode str) = core.bech32_hrp mainnet /\
   at_ (bech32.data (bech32.Decode str)) 0 <> 0) /\
  DecodeDestination str [] mainnet
  = mk_decoded false [] "Version 1+ witness address must use Bech32m checksum".
Proof.
  intros str.
  assert (H1 : is_bech32 str mainnet = true) by (vm_compute; reflexivity).
  assert (H2 : bech32.encoding (bech32.Decode str) = bech32.BECH32)
    by (vm_compute; reflexivity).
  assert (H3 : bech32.data (bech32.Decode str) <> []) by (vm_compute; discriminate).
  assert (H4 : bech32.hrp (bech32.Decode str) = core.bech32_hrp mainnet)
    by (vm_compute; reflexivity).
  assert (H5 : at_ (bech32.data (bech32.Decode str)) 0 <> 0) by (vm_compute; discriminate).
  split; [exact (conj H1 (conj H2 (conj H3 (conj H4 H5))))|].
  exact (DecodeDestination_v1_bech32 str [] mainnet H1 H2 H3 H4 H5).
Defined.



(** X29. A version-0 Bech32 address whose program is neither 20 nor 32 bytes
    is rejected with "Invalid Bech32 v0 address program size (N bytes), per
    BIP141", where N is the size in decimal and the noun is "byte" for a
    single byte; the script is left as it was. *)
Theorem DecodeDestination_v0_program_size (str : string) (script : list Z)
  (params : core.Params) (syms p : list Z) :
  is_bech32 str params = true ->
  bech32.encoding (bech32.Decode str) = bech32.BECH32 ->
  bech32.hrp (bech32.Decode str) = core.bech32_hrp params ->
  bech32.data (bech32.Decode str) = 0 :: syms ->
  ConvertBits 5 8 false syms = (true, p) ->
  size p <> 20 -> size p <> 32 ->
  DecodeDestination str script params
  = mk_decoded false script
      ("Invalid Bech32 v0 address program size (" ++ to_string (size p) ++ " "
       ++ (if size p =? 1 then "byte" else "bytes") ++ "), per BIP141").
Proof.
  intros Hb He Hh Hd Hc H20 H32.
  rewrite (BranchFacts.bech32_branch str script params 0 syms Hb); try assumption.
  2:{ rewrite He. reflexivity. }
  cbn zeta. rewrite He, Hc. cbn [Z.eqb andb negb encoding_eqb].
  destruct (Z.eqb_spec (size p) 20); [contradiction|].
  destruct (Z.eqb_spec (size p) 32); [contradiction|]. reflexivity.
Qed.

Lemma DecodeDestination_v0_program_size_witness :
  let str := "bc1qquvqk9ex"%string in
  (is_bech32 str mainnet = true /\
   bech32.encoding (bech32.Decode str) = bech32.BECH32 /\
   bech32.hrp (bech32.Decode str) = core.bech32_hrp mainnet /\
   bech32.data (bech32.Decode str) = 0 :: [0; 28] /\
   ConvertBits 5 8 false [0; 28] = (true, [7]) /\
   size [7] <> 20 /\ size [7] <> 32) /\
  DecodeDestination str [] mainnet
  = mk_decoded false []
      ("Invalid Bech32 v0 address program size (" ++ to_string (size [7]) ++ " "
       ++ (if size [7] =? 1 then "byte" else "bytes") ++ "), per BIP141").
Proof.
  intros str.
  assert (H1 : is_bech32 str mainnet = true) by (vm_compute; reflexivity).
  assert (H2 : bech32.encoding (bech32.Decode str) = bech32.BECH32)
    by (vm_compute; reflexivity).
  assert (H3 : bech32.hrp (bech32.Decode str) = core.bech32_hrp mainnet)
    by (vm_compute; reflexivity).
  assert (H4 : bech32.data (bech32.Decode str) = 0 :: [0; 28]) by (vm_compute; reflexivity).
  assert (H5 : ConvertBits 5 8 false [0; 28] = (true, [7])) by (vm_compute; reflexivity).
  assert (H6 : size [7] <> 20) by (vm_compute; discriminate).
  assert (H7 : size [7] <> 32) by (vm_compute; discriminate).
  split; [exact (conj H1 (conj H2 (conj H3 (conj H4 (conj H5 (conj H6 H7))))))|].
  exact (DecodeDestination_v0_program_size str [] mainnet [0; 28] [7]
           H1 H2 H3 H4 H5 H6 H7).
Defined.

(** X30. The Base58 branch decodes at most 21 bytes, so it only ever
    accepts a payload of a 20-byte hash behind a prefix of at most one byte:
    with prefixes of two bytes or more no string that is not taken for a
    Bech32 string is accepted, by [DecodeDestination] or by [IsValid]. *)
Theorem Base58_long_prefix_never_decodes (str : string) (script : list Z)
  (params : core.Params) :
  1 < size (core.base58Prefixes params core.PUBKEY_ADDRESS) ->
  1 < size (core.base58Prefixes params core.SCRIPT_ADDRESS) ->
  is_bech32 str params = false ->
  ok (DecodeDestination str script params) = false /\
  script_out (DecodeDestination str script params) = script /\
  IsValid str params = false.
Proof.
  intros Hpk Hsh Hb.
  assert (HD : ok (DecodeDestination str script params) = false
               /\ script_out (DecodeDestination str script params) = script).
  { unfold DecodeDestination. rewrite Hb. cbn [negb].
    destruct (DecodeBase58Check str 21) as [data|] eqn:E.
    - apply AddressFacts.DecodeBase58Check_size in E.
      destruct (Z.eqb_spec (size data) (20 + size (core.base58Prefixes params core.PUBKEY_ADDRESS)));
        [lia|].
      destruct (Z.eqb_spec (size data) (20 + size (core.base58Prefixes params core.SCRIPT_ADDRESS)));
        [lia|].
      cbn [andb]. destruct (_ || _); split; reflexivity.
    - destruct (DecodeBase58 str 100); split; reflexivity. }
  destruct HD as [HD1 HD2]. split; [exact HD1|]. split; [exact HD2|].
  rewrite (DecodeFacts.IsValid_agrees str script params). exact HD1.
Qed.

Lemma Base58_long_prefix_never_decodes_witness :
  (1 < size (core.base58Prefixes two_byte_params core.PUBKEY_ADDRESS) /\
   1 < size (core.base58Prefixes two_byte_params core.SCRIPT_ADDRESS) /\
   is_bech32 "t1StbPM4X3j4FGM57HpGnb9BMbS7C1nFW1r" two_byte_params = false) /\
  ok (DecodeDestination "t1StbPM4X3j4FGM57HpGnb9BMbS7C1nFW1r" [] two_byte_params) = false /\
  script_out (DecodeDestination "t1StbPM4X3j4FGM57HpGnb9BMbS7C1nFW1r" [] two_byte_params)
  = [] /\
  IsValid "t1StbPM4X3j4FGM57HpGnb9BMbS7C1nFW1r" two_byte_params = false.
Proof.
  assert (H1 : 1 < size (core.base58Prefixes two_byte_params core.PUBKEY_ADDRESS))
    by reflexivity.
  assert (H2 : 1 < size (core.base58Prefixes two_byte_params core.SCRIPT_ADDRESS))
    by reflexivity.
  assert (H3 : is_bech32 "t1StbPM4X3j4FGM57HpGnb9BMbS7C1nFW1r" two_byte_params = false)
    by (vm_compute; reflexivity).
  split; [exact (conj H1 (conj H2 H3))|].
  exact (Base58_long_prefix_never_decodes "t1StbPM4X3j4FGM57HpGnb9BMbS7C1nFW1r" []
           two_byte_params H1 H2 H3).
Defined.
